(** * SEO-Page-Builder: the extraction, repair and validation pipeline

    A shallow embedding of [src/utils/openrouter.ts] (both copies of the
    pipeline that the repository carries, and the NDJSON export that
    follows them) and of [providerIds.ts].

    Conventions of the embedding.
    - A value produced by [JSON.parse] is a [json] tree.  Objects are
      association lists in insertion order, so that [Object.keys] is
      [map fst]; property lookup returns [option json], [None] standing for
      JavaScript's [undefined].  Properties inherited from
      [Object.prototype] are not modelled, and integer-like property names,
      which JavaScript lists first, are not treated apart.
    - A JavaScript number is an IEEE 754 double ([float]).
    - A JavaScript string is a [string]; white space is ASCII white space,
      and a letter outside ASCII is the bytes of its UTF-8 encoding.
    - [console.*] calls are dropped; counters that only feed log lines are
      dropped with them.
    - A thrown exception is the left summand of a result; [Date.now] and
      [Math.random] are read from the host through a call counter.
    - The schema manifest is operator configuration and is modelled by its
      record type ([SchemaManifest]); the model output is untrusted and
      stays an arbitrary [json]. *)

From Stdlib Require Import Floats String Ascii List Bool Arith Lia.
From Stdlib Require Import DecimalString Permutation FunctionalExtensionality.
Import ListNotations.
Open Scope string_scope.
Open Scope list_scope.

Set Implicit Arguments.
Set Warnings "-register-all".

(** String concatenation, kept apart from list concatenation. *)
Notation "a +++ b" := (String.append a b) (at level 60, right associativity).

(** ** Strings *)

Module Str.

Definition is_space (c : ascii) : bool :=
  let n := nat_of_ascii c in
  ((n =? 32) || ((9 <=? n) && (n <=? 13)))%nat.

(** [\w] of a regular expression without the [u] flag. *)
Definition is_word (c : ascii) : bool :=
  let n := nat_of_ascii c in
  (((48 <=? n) && (n <=? 57)) || ((65 <=? n) && (n <=? 90))
   || ((97 <=? n) && (n <=? 122)) || (n =? 95))%nat.

Fixpoint trimStart (s : string) : string :=
  match s with
  | String c s' => if is_space c then trimStart s' else s
  | EmptyString => EmptyString
  end.

Fixpoint rev_acc (s acc : string) : string :=
  match s with
  | String c s' => rev_acc s' (String c acc)
  | EmptyString => acc
  end.

Definition rev (s : string) : string := rev_acc s EmptyString.

Definition trimEnd (s : string) : string := rev (trimStart (rev s)).

(** [s.trim()] *)
Definition trim (s : string) : string := trimEnd (trimStart s).

(** [s.replace(/\s+/g, ' ')]: [in_run] tells that the previous character
    was white space, already replaced. *)
Fixpoint collapse_from (in_run : bool) (s : string) : string :=
  match s with
  | String c s' =>
      if is_space c
      then (if in_run then collapse_from true s'
            else String " " (collapse_from true s'))
      else String c (collapse_from false s')
  | EmptyString => EmptyString
  end.

Definition collapse_spaces (s : string) : string := collapse_from false s.

(** [s.includes(sub)] *)
Fixpoint includes (sub s : string) : bool :=
  String.prefix sub s ||
  match s with
  | String _ s' => includes sub s'
  | EmptyString => false
  end.

(** [s.startsWith(p)] *)
Definition startsWith (p s : string) : bool := String.prefix p s.

(** [s.slice(from, to)] for [0 <= from <= to]. *)
Definition slice (from to : nat) (s : string) : string :=
  String.substring from (to - from) s.

(** [l.join(sep)] on an array of strings. *)
Definition join (sep : string) (l : list string) : string :=
  String.concat sep l.

(** The double quote character. *)
Definition dq : string := String (ascii_of_nat 34) EmptyString.

(** The decimal rendering of an array index or length. *)
Definition of_nat (n : nat) : string :=
  NilZero.string_of_uint (Nat.to_uint n).

End Str.

(** ** Association lists: the own properties of an object, in insertion order *)

Section Alist.
Variable A : Type.

Fixpoint alist_get (o : list (string * A)) (k : string) : option A :=
  match o with
  | [] => None
  | (k', v) :: o' => if String.eqb k' k then Some v else alist_get o' k
  end.

(** [k in o] *)
Definition alist_has (o : list (string * A)) (k : string) : bool :=
  match alist_get o k with Some _ => true | None => false end.

(** [delete o[k]] *)
Definition alist_del (o : list (string * A)) (k : string) : list (string * A) :=
  filter (fun kv => negb (String.eqb (fst kv) k)) o.

(** [o[k] = v]: an existing property keeps its place, a new one goes last. *)
Fixpoint alist_set (o : list (string * A)) (k : string) (v : A) : list (string * A) :=
  match o with
  | [] => [(k, v)]
  | (k', v') :: o' =>
      if String.eqb k' k then (k, v) :: o' else (k', v') :: alist_set o' k v
  end.

End Alist.

(** ** JSON values and the JavaScript operations the pipeline applies to them *)

Inductive json : Type :=
| JNull
| JBool (b : bool)
| JNumber (n : float)
| JString (s : string)
| JArray (items : list json)
| JObject (props : list (string * json)).

Definition object := list (string * json).

Section JsonInduction.
Variable P : json -> Prop.
Hypothesis Hnull : P JNull.
Hypothesis Hbool : forall b, P (JBool b).
Hypothesis Hnumber : forall n, P (JNumber n).
Hypothesis Hstring : forall s, P (JString s).
Hypothesis Harray : forall l, Forall P l -> P (JArray l).
Hypothesis Hobject : forall o, Forall (fun kv => P (snd kv)) o -> P (JObject o).

Fixpoint json_induction (v : json) : P v :=
  match v with
  | JNull => Hnull
  | JBool b => Hbool b
  | JNumber n => Hnumber n
  | JString s => Hstring s
  | JArray l =>
      Harray ((fix all (l : list json) : Forall P l :=
                 match l with
                 | [] => Forall_nil _
                 | x :: l' => Forall_cons _ (json_induction x) (all l')
                 end) l)
  | JObject o =>
      Hobject ((fix all (o : object) : Forall (fun kv => P (snd kv)) o :=
                  match o with
                  | [] => Forall_nil _
                  | kv :: o' => Forall_cons _ (json_induction (snd kv)) (all o')
                  end) o)
  end.

End JsonInduction.

Module Js.

(** [typeof v] *)
Definition typeof (v : json) : string :=
  match v with
  | JNull => "object"
  | JBool _ => "boolean"
  | JNumber _ => "number"
  | JString _ => "string"
  | JArray _ => "object"
  | JObject _ => "object"
  end.

Definition typeof_opt (v : option json) : string :=
  match v with Some v => typeof v | None => "undefined" end.

(** [!!v] *)
Definition truthy (v : json) : bool :=
  match v with
  | JNull => false
  | JBool b => b
  | JNumber n => negb (PrimFloat.is_zero n || PrimFloat.is_nan n)
  | JString s => negb (String.eqb s EmptyString)
  | JArray _ => true
  | JObject _ => true
  end.

Definition truthy_opt (v : option json) : bool :=
  match v with Some v => truthy v | None => false end.

(** [Array.isArray(v)] *)
Definition isArray (v : option json) : bool :=
  match v with Some (JArray _) => true | _ => false end.

(** [v.k] for a [v] that is neither [null] nor [undefined].  The property
    names the pipeline reads this way ([_type], [_ref], [_key], [children],
    [text], [asset], ...) are no built-in property of an array, string,
    number or boolean, so only an object answers. *)
Definition prop (v : json) (k : string) : option json :=
  match v with
  | JObject o => alist_get o k
  | _ => None
  end.

(** [v === 'lit'] for a string literal. *)
Definition is_str (v : option json) (lit : string) : bool :=
  match v with Some (JString s) => String.eqb s lit | _ => false end.

(** [typeof v === 'string'] *)
Definition is_string (v : option json) : bool :=
  match v with Some (JString _) => true | _ => false end.

(** [l.includes(v)] for an array [l] of strings: SameValueZero never
    identifies a string with a value of another type. *)
Definition includes (l : list string) (v : option json) : bool :=
  match v with
  | Some (JString s) => existsb (String.eqb s) l
  | _ => false
  end.

End Js.

(** ** The host: built-ins whose results the program only passes on *)

Record Host : Type := {
  (** [Date.now()] at the n-th read of the host, rendered in decimal. *)
  Date_now : nat -> string;
  (** [Math.random().toString(36)] at the n-th read of the host. *)
  Math_random36 : nat -> string;
  (** [String(n)] for a number. *)
  Number_toString : float -> string;
  (** [Number(s)] for a string. *)
  Number_ofString : string -> float;
  (** [JSON.parse(s)]; [None] is a [SyntaxError]. *)
  JSON_parse : string -> option json;
  (** [JSON.stringify(v)] *)
  JSON_stringify : json -> string
}.

(** Exceptions. *)
Inductive exn : Type :=
| TypeError (message : string).

Definition message_of (e : exn) : string :=
  match e with TypeError m => m end.

Definition result (A : Type) : Type := (exn + A)%type.

Definition ok {A} (a : A) : result A := inr a.
Definition throw {A} (e : exn) : result A := inl e.

Definition rbind {A B} (m : result A) (f : A -> result B) : result B :=
  match m with inl e => inl e | inr a => f a end.

(** Computations that read the host clock and random source: the state is
    the number of reads so far. *)
Definition M (A : Type) : Type := nat -> result (A * nat).

Definition ret {A} (a : A) : M A := fun st => inr (a, st).
Definition raise {A} (e : exn) : M A := fun _ => inl e.
Definition bind {A B} (m : M A) (f : A -> M B) : M B :=
  fun st => match m st with inl e => inl e | inr (a, st') => f a st' end.
Definition lift {A} (r : result A) : M A :=
  fun st => match r with inl e => inl e | inr a => inr (a, st) end.

Declare Scope monad_scope.
Delimit Scope monad_scope with monad.
Notation "x <- m ;; k" := (bind m (fun x => k))
  (at level 61, m at next level, right associativity) : monad_scope.
Notation "' p <- m ;; k" := (bind m (fun p => k))
  (at level 61, p pattern, m at next level, right associativity) : monad_scope.

Fixpoint mapM {A B} (f : A -> M B) (l : list A) : M (list B) :=
  match l with
  | [] => ret []
  | a :: l' => (b <- f a ;; bs <- mapM f l' ;; ret (b :: bs))%monad
  end.

Fixpoint foldM {A B} (f : B -> A -> M B) (l : list A) (b : B) : M B :=
  match l with
  | [] => ret b
  | a :: l' => (b' <- f b a ;; foldM f l' b')%monad
  end.

Fixpoint rmap {A B} (f : A -> result B) (l : list A) : result (list B) :=
  match l with
  | [] => ok []
  | a :: l' => rbind (f a) (fun b => rbind (rmap f l') (fun bs => ok (b :: bs)))
  end.

(** ** providerIds.ts

    [getProviderSelection] is imported by the pipeline but never called. *)

Definition PROVIDER_ID_MAP : list (string * string) :=
  [ ("Vindstød", "63c05ca2-cd1e-4f00-b544-6a2077d4031a");
    ("Andel Energi", "9451a43b-6e68-4914-945c-73a81a508214");
    ("Norlys", "9526e0ba-cbe8-4526-9abc-7dabb4756b2b");
    ("NRGi", "a6541984-3dbb-466a-975b-badba029e139") ].

(** [Object.values(PROVIDER_ID_MAP)] *)
Definition PROVIDER_WHITELIST : list string := map snd PROVIDER_ID_MAP.

Definition isValidProviderId (id : option json) : bool :=
  Js.includes PROVIDER_WHITELIST id.

(** [v !== PROVIDER_WHITELIST[0]] *)
Definition differs_from_preferred (v : option json) : bool :=
  match nth_error PROVIDER_WHITELIST 0, v with
  | Some id, Some (JString s) => negb (String.eqb s id)
  | Some _, _ => true
  | None, Some _ => true
  | None, None => false
  end.

(** ** The schema manifest *)

Record BlockTypeSpec : Type := {
  type : string;
  requiredFields : option (list string);
  fieldTypes : option (list (string * string));
  fieldEnums : option (list (string * list string));
  description : string
}.

Record SchemaManifest : Type := {
  contentBlockTypes : option (list BlockTypeSpec)
}.

(** The fields of a [GenerationRequest] that the pipeline reads; [schema]
    is [None] when no manifest was loaded. *)
Record GenerationRequest : Type := {
  topic : string;
  keywords : list string;
  schema : option SchemaManifest;
  optionalBlocks : list string
}.

Record Usage : Type := {
  promptTokens : nat;
  completionTokens : nat;
  totalTokens : nat
}.

Record GenerationResponse : Type := {
  success : bool;
  data : option (list json);
  error : option string;
  usage : option Usage
}.

(** ** JavaScript conversions that need the host *)

Definition null_read (k : string) : exn :=
  TypeError ("Cannot read properties of null (reading '" +++ k +++ "')").

Definition not_a_function (what : string) : exn :=
  TypeError (what +++ " is not a function").

(** [v.k] when [v] may be [null]. *)
Definition js_get (v : json) (k : string) : result (option json) :=
  match v with
  | JNull => throw (null_read k)
  | _ => ok (Js.prop v k)
  end.

(** The index properties of an array or string, from index [i] on. *)
Fixpoint indexed_from {A} (i : nat) (l : list A) : list (string * A) :=
  match l with
  | [] => []
  | a :: l' => (Str.of_nat i, a) :: indexed_from (S i) l'
  end.

(** [{...v}] *)
Definition spread (v : json) : object :=
  match v with
  | JObject o => o
  | JArray l => indexed_from 0 l
  | JString s =>
      indexed_from 0 (map (fun c => JString (String c EmptyString))
                          (list_ascii_of_string s))
  | _ => []
  end.

Section WithHost.
Variable host : Host.

(** [String(v)], also the rendering of [v] in a template literal. *)
Fixpoint String_of (v : json) : string :=
  match v with
  | JNull => "null"
  | JBool true => "true"
  | JBool false => "false"
  | JNumber n => Number_toString host n
  | JString s => s
  | JArray l =>
      Str.join ","
        (map (fun x => match x with JNull => EmptyString | _ => String_of x end) l)
  | JObject _ => "[object Object]"
  end.

Definition String_of_opt (v : option json) : string :=
  match v with Some v => String_of v | None => "undefined" end.

(** The rendering of an element by [Array.prototype.join]. *)
Definition join_item (v : option json) : string :=
  match v with
  | None => EmptyString
  | Some JNull => EmptyString
  | Some v => String_of v
  end.

(** [JSON.parse(JSON.stringify(v))] on a parsed value: a number that is
    not finite becomes [null] and a negative zero loses its sign. *)
Fixpoint deep_copy (v : json) : json :=
  match v with
  | JNumber n =>
      if PrimFloat.is_nan n || PrimFloat.is_infinity n then JNull
      else if PrimFloat.is_zero n then JNumber PrimFloat.zero
      else JNumber n
  | JArray l => JArray (map deep_copy l)
  | JObject o => JObject (map (fun kv : string * json => let (k, x) := kv in (k, deep_copy x)) o)
  | _ => v
  end.

(** Reads of the host. *)
Definition now : M string :=
  fun st => inr (Date_now host st, S st).

Definition random36 (from to : nat) : M string :=
  fun st => inr (Str.slice from to (Math_random36 host st), S st).

(** ** _toPlainString *)

Definition block_text (v : json) : result string :=
  match Js.prop v "children" with
  | Some (JArray cs) =>
      rbind (rmap (fun c => js_get c "text") cs)
            (fun ts => ok (Str.join EmptyString (map join_item ts)))
  | Some c =>
      if Js.truthy c then throw (not_a_function "(v.children || []).map")
      else ok EmptyString
  | None => ok EmptyString
  end.

Definition _toPlainString (value : json) : result string :=
  match value with
  | JArray l =>
      rbind
        (rmap (fun v =>
                 if String.eqb (Js.typeof v) "object"
                    && match v with
                       | JNull => false
                       | _ => Js.is_str (Js.prop v "_type") "block"
                       end
                 then block_text v
                 else ok (String_of v)) l)
        (fun parts => ok (Str.trim (Str.collapse_spaces (Str.join " " parts))))
  | JNull | JObject _ => ok (JSON_stringify host value)
  | _ => ok (String_of value)
  end.

(** ** validateFieldType *)

Fixpoint forEach_from {A} (f : nat -> A -> result (list string))
    (i : nat) (l : list A) : result (list string) :=
  match l with
  | [] => ok []
  | a :: l' =>
      rbind (f i a) (fun w =>
      rbind (forEach_from f (S i) l') (fun ws => ok (w ++ ws)))
  end.

Definition block_label (blockIndex : nat) (blockType : string) : string :=
  "Block " +++ Str.of_nat blockIndex +++ " (" +++ blockType +++ "): ".

Definition item_label (fieldName : string) (itemIndex : nat) : string :=
  "Field " +++ Str.dq +++ fieldName +++ "[" +++ Str.of_nat itemIndex +++ "]" +++ Str.dq.

Definition preferred_name : string :=
  match nth_error PROVIDER_WHITELIST 0 with Some id => id | None => "undefined" end.

Definition validate_string_item (fieldName : string) (lbl : string)
    (itemIndex : nat) (item : json) : result (list string) :=
  let w1 :=
    if Js.is_string (Some item) then []
    else [lbl +++ item_label fieldName itemIndex +++ " should be a string, got "
          +++ Js.typeof item
          +++ ". Do not use Portable Text blocks for string arrays."] in
  if String.eqb (Js.typeof item) "object" then
    rbind (js_get item "_type") (fun ty =>
      if Js.is_str ty "block"
      then ok (w1 ++ [lbl +++ item_label fieldName itemIndex
                      +++ " contains Portable Text block but should be plain string"])
      else ok w1)
  else ok w1.

Definition validate_reference_item (fieldName blockType : string) (lbl : string)
    (itemIndex : nat) (item : json) : result (list string) :=
  if Js.is_string (Some item) then
    ok [lbl +++ item_label fieldName itemIndex
        +++ " should be a reference object, not a string"]
  else if negb (String.eqb (Js.typeof item) "object") then
    ok [lbl +++ item_label fieldName itemIndex
        +++ " should be a reference object with _type: 'reference' and _ref property"]
  else
    rbind (js_get item "_type") (fun ty =>
      if negb (Js.is_str ty "reference")
         || negb (Js.truthy_opt (Js.prop item "_ref"))
      then
        ok [lbl +++ item_label fieldName itemIndex
            +++ " should be a reference object with _type: 'reference' and _ref property"]
      else if String.eqb blockType "providerList" && String.eqb fieldName "providers"
      then
        let ref := Js.prop item "_ref" in
        ok ((if Nat.eqb itemIndex 0 && differs_from_preferred ref
             then [lbl +++ "First provider must be Vindstød (" +++ preferred_name
                   +++ "), got " +++ String_of_opt ref]
             else [])
            ++
            (if negb (isValidProviderId ref)
             then [lbl +++ "Provider ID " +++ Str.dq +++ String_of_opt ref +++ Str.dq
                   +++ " not in whitelist"]
             else []))
      else ok []).

Definition validate_block_item (fieldName : string) (lbl : string)
    (itemIndex : nat) (item : json) : result (list string) :=
  if negb (String.eqb (Js.typeof item) "object") then
    ok [lbl +++ item_label fieldName itemIndex
        +++ " should be a Portable Text block with _type: 'block'"]
  else
    rbind (js_get item "_type") (fun ty =>
      if negb (Js.is_str ty "block")
      then ok [lbl +++ item_label fieldName itemIndex
               +++ " should be a Portable Text block with _type: 'block'"]
      else ok []).

Definition validateFieldType (fieldName : string) (fieldValue : json)
    (fieldType blockType : string) (blockIndex : nat) : result (list string) :=
  let lbl := block_label blockIndex blockType in
  let fld := "Field " +++ Str.dq +++ fieldName +++ Str.dq in
  if String.eqb fieldType "array of strings" then
    match fieldValue with
    | JArray l => forEach_from (validate_string_item fieldName lbl) 0 l
    | _ => ok [lbl +++ fld +++ " should be an array of strings, got "
               +++ Js.typeof fieldValue]
    end
  else if String.eqb fieldType "array of references" then
    match fieldValue with
    | JArray l => forEach_from (validate_reference_item fieldName blockType lbl) 0 l
    | _ => ok [lbl +++ fld +++ " should be an array of references, got "
               +++ Js.typeof fieldValue]
    end
  else if String.eqb fieldType "array of Portable Text blocks" then
    match fieldValue with
    | JArray l => forEach_from (validate_block_item fieldName lbl) 0 l
    | _ => ok [lbl +++ fld +++ " should be an array of Portable Text blocks, got "
               +++ Js.typeof fieldValue]
    end
  else if String.eqb fieldType "icon.manager" then
    let w := [lbl +++ fld +++ " must be an icon.manager object with _type: 'icon.manager' and icon property"] in
    if negb (String.eqb (Js.typeof fieldValue) "object") then ok w
    else
      rbind (js_get fieldValue "_type") (fun ty =>
        if negb (Js.is_str ty "icon.manager")
           || negb (Js.truthy_opt (Js.prop fieldValue "icon"))
        then ok w else ok [])
  else if String.eqb fieldType "image" || String.eqb fieldType "image?"
          || String.eqb fieldType "Sanity image object with valid asset reference" then
    if String.eqb fieldType "image?"
       && match fieldValue with JNull => true | _ => false end
    then ok []
    else
      let w := [lbl +++ fld +++ " must be a Sanity image object with asset._ref property"] in
      if negb (String.eqb (Js.typeof fieldValue) "object") then ok w
      else
        rbind (js_get fieldValue "asset") (fun asset =>
          match asset with
          | Some a =>
              if negb (Js.truthy a) || negb (Js.truthy_opt (Js.prop a "_ref"))
              then ok w else ok []
          | None => ok w
          end)
  else if String.eqb fieldType "number" then
    match fieldValue with
    | JNumber _ => ok []
    | _ => ok [lbl +++ fld +++ " should be a number, got " +++ Js.typeof fieldValue]
    end
  else if String.eqb fieldType "string" then
    match fieldValue with
    | JString _ => ok []
    | _ => ok [lbl +++ fld +++ " should be a string, got " +++ Js.typeof fieldValue]
    end
  else ok [].

End WithHost.

(** ** The repair functions *)

Record FixResult : Type := {
  fixed : bool;
  dropped : bool;
  value : option json;
  wasType : string
}.

Record RefArrayResult : Type := {
  ref_fixed : bool;
  ref_value : option (list json);
  originalCount : nat;
  validCount : nat;
  droppedCount : nat
}.

Record FixCounts : Type := {
  fixesApplied : nat;
  violationsDetected : nat
}.

Definition jstr (s : string) : json := JString s.

(** The placeholder record that [fixFaqGroup] pushes. *)
Definition placeholder_faqItem (ts newKey : string) : json :=
  JObject
    [ ("_type", jstr "faqItem");
      ("_key", jstr newKey);
      ("question", jstr "Placeholder spørgsmål");
      ("answer",
       JArray
         [ JObject
             [ ("_type", jstr "block");
               ("_key", jstr ("block-" +++ ts));
               ("style", jstr "normal");
               ("children",
                JArray
                  [ JObject
                      [ ("_type", jstr "span");
                        ("_key", jstr ("span-" +++ ts));
                        ("text", jstr "FAQ-indhold mangler.");
                        ("marks", JArray []) ] ]);
               ("markDefs", JArray []) ] ]) ].

(** The filter predicate of [fixFaqGroup]: a valid inline faqItem. *)
Definition valid_inline_faqItem (item : json) : bool :=
  if negb (Js.truthy item) || negb (String.eqb (Js.typeof item) "object")
  then false
  else Js.is_str (Js.prop item "_type") "faqItem"
       && Js.is_string (Js.prop item "question")
       && Js.isArray (Js.prop item "answer").

Definition allowedKeys : list string := ["_type"; "_ref"; "_key"; "_weak"].

Definition is_reference (o : object) : bool :=
  Js.truthy_opt (alist_get o "_ref") || Js.is_str (alist_get o "_type") "reference".

(** The reference branch of [sanitizeAllReferences]. *)
Definition sanitize_reference (o : object) : object * nat :=
  let originalKeys := map fst o in
  let invalidKeys :=
    filter (fun key => negb (existsb (String.eqb key) allowedKeys)) originalKeys in
  let o1 := fold_left (fun acc key => alist_del acc key) invalidKeys o in
  let c1 := if (0 <? length invalidKeys)%nat then 1 else 0 in
  let fix_type :=
    Js.truthy_opt (alist_get o1 "_ref")
    && negb (Js.is_str (alist_get o1 "_type") "reference") in
  let o2 := if fix_type then alist_set o1 "_type" (jstr "reference") else o1 in
  let c2 := if fix_type then 1 else 0 in
  let drop_ref :=
    Js.truthy_opt (alist_get o2 "_ref")
    && negb (Js.is_string (alist_get o2 "_ref")) in
  let o3 := if drop_ref then alist_del o2 "_ref" else o2 in
  let c3 := if drop_ref then 1 else 0 in
  (o3, c1 + c2 + c3).

(** [sanitizeAllReferences(obj)]: the object graph after the in-place
    mutation, and the returned count. *)
Fixpoint sanitizeAllReferences (obj : json) : json * nat :=
  match obj with
  | JArray l =>
      let rs := map sanitizeAllReferences l in
      (JArray (map fst rs), list_sum (map snd rs))
  | JObject o =>
      if is_reference o then
        let (o', n) := sanitize_reference o in (JObject o', n)
      else
        let rs :=
          map (fun kv : string * json =>
                 let (k, x) := kv in (k, sanitizeAllReferences x)) o in
        (JObject (map (fun kr : string * (json * nat) => (fst kr, fst (snd kr))) rs),
         list_sum (map (fun kr : string * (json * nat) => snd (snd kr)) rs))
  | _ => (obj, 0)
  end.

(** [removeProblematicFields(obj, fieldsToRemove, context)] *)
Definition removeProblematicFields (obj : object) (fieldsToRemove : list string)
  : object * nat :=
  fold_left
    (fun (acc : object * nat) field =>
       if alist_has (fst acc) field
       then (alist_del (fst acc) field, S (snd acc))
       else acc)
    fieldsToRemove (obj, 0).

(** One entry of [sanitizeReferenceOnlyArray]: the clean reference, or
    [None] when the entry is dropped. *)
Definition clean_reference (item : json) : option json :=
  if negb (Js.truthy item) || negb (String.eqb (Js.typeof item) "object")
  then None
  else
    let ref := Js.prop item "_ref" in
    let cleanRef r :=
      JObject
        ([("_type", jstr "reference"); ("_ref", r)]
         ++ match Js.prop item "_key" with
            | Some k => if Js.truthy k then [("_key", k)] else []
            | None => []
            end
         ++ match Js.prop item "_weak" with
            | Some w => if Js.truthy w then [("_weak", w)] else []
            | None => []
            end) in
    match ref with
    | Some (JString s) =>
        if Js.is_str (Js.prop item "_type") "reference"
           && negb (String.eqb (Str.trim s) EmptyString)
        then Some (cleanRef (JString s))
        else if negb (String.eqb s EmptyString)
        then Some (cleanRef (JString s))
        else None
    | _ => None
    end.

Definition sanitizeReferenceOnlyArray (v : json) : RefArrayResult :=
  match v with
  | JArray l =>
      let cleaned := map clean_reference l in
      let validReferences :=
        flat_map (fun c => match c with Some r => [r] | None => [] end) cleaned in
      let nDropped :=
        length (filter (fun c => match c with Some _ => false | None => true end)
                       cleaned) in
      {| ref_fixed :=
           negb (Nat.eqb (length validReferences) (length l))
           || (0 <? nDropped)%nat;
         ref_value := Some validReferences;
         originalCount := length l;
         validCount := length validReferences;
         droppedCount := nDropped |}
  | _ =>
      {| ref_fixed := false; ref_value := None;
         originalCount := 0; validCount := 0; droppedCount := 0 |}
  end.

(** [extractSchemaFieldTypes(schema)] *)
Definition extractSchemaFieldTypes (s : option SchemaManifest)
  : list (string * list (string * string)) :=
  match s with
  | Some {| contentBlockTypes := Some specs |} =>
      fold_left
        (fun acc blockType =>
           match fieldTypes blockType with
           | Some ft =>
               if negb (String.eqb (type blockType) EmptyString)
               then alist_set acc (type blockType) ft
               else acc
           | None => acc
           end)
        specs []
  | _ => []
  end.

(** [extractReferenceOnlyFields(schema)] *)
Definition extractReferenceOnlyFields (s : option SchemaManifest)
  : list (string * list string) :=
  match s with
  | Some {| contentBlockTypes := Some specs |} =>
      fold_left
        (fun acc blockType =>
           let refFields :=
             match fieldTypes blockType with
             | Some ft =>
                 map fst
                   (filter (fun e : string * string =>
                              Str.includes "references" (snd e)
                              || Str.includes "reference" (snd e)) ft)
             | None => []
             end in
           if (0 <? length refFields)%nat
           then alist_set acc (type blockType) refFields
           else acc)
        specs []
  | _ => []
  end.

(** [validateGenerationRequest(request)] *)
Definition validateGenerationRequest (request : GenerationRequest)
  : bool * list string :=
  match schema request with
  | Some {| contentBlockTypes := Some specs |} =>
      let manifestBlockTypes := map type specs in
      let invalidBlocks :=
        filter (fun blockType => negb (existsb (String.eqb blockType) manifestBlockTypes))
               (optionalBlocks request) in
      let e1 :=
        if (0 <? length invalidBlocks)%nat
        then ["Invalid block types requested: " +++ Str.join ", " invalidBlocks
              +++ ". Available types: " +++ Str.join ", " manifestBlockTypes]
        else [] in
      let e2 :=
        if Nat.eqb (String.length (Str.trim (topic request))) 0
        then ["Topic is required"] else [] in
      let e3 :=
        if Nat.eqb (length (keywords request)) 0
           || forallb (fun k => Nat.eqb (String.length (Str.trim k)) 0)
                      (keywords request)
        then ["At least one keyword is required"] else [] in
      let errors := e1 ++ e2 ++ e3 in
      (Nat.eqb (length errors) 0, errors)
  | _ =>
      (false,
       ["Schema manifest not loaded - ensure elportal-schema-manifest.json is available"])
  end.

(** ** Regular expressions

    The subset of ECMAScript regular expressions that the extractor uses,
    with the backtracking semantics of the language: alternatives are tried
    left to right, a greedy star tries one more iteration before it tries
    to stop, a lazy star the other way round, an iteration that consumes
    nothing is rejected, and the search reports the leftmost match. *)

Module Regex.

Definition input := list ascii.
Definition captures := list input.

Inductive regex : Type :=
| Eps
| Chr (p : ascii -> bool)
| Seq (r1 r2 : regex)
| Alt (r1 r2 : regex)
| Star (r : regex)
| LazyStar (r : regex)
| Group (r : regex)
| Lookahead (r : regex)
| Eos.

Section Loop.
Variable A : Type.
Variable step : input -> captures -> (input -> captures -> option A) -> option A.

Fixpoint star_loop (greedy : bool) (n : nat) (s : input) (c : captures)
    (k : input -> captures -> option A) : option A :=
  match n with
  | 0 => k s c
  | S n' =>
      let again :=
        step s c (fun s' c' =>
                    if (length s' <? length s)%nat
                    then star_loop greedy n' s' c' k
                    else None) in
      if greedy
      then match again with Some x => Some x | None => k s c end
      else match k s c with Some x => Some x | None => again end
  end.

End Loop.

Fixpoint rmatch (r : regex) (A : Type) (s : input) (c : captures)
    (k : input -> captures -> option A) {struct r} : option A :=
  match r with
  | Eps => k s c
  | Chr p =>
      match s with
      | a :: s' => if p a then k s' c else None
      | [] => None
      end
  | Seq r1 r2 => rmatch r1 s c (fun s' c' => rmatch r2 s' c' k)
  | Alt r1 r2 =>
      match rmatch r1 s c k with
      | Some x => Some x
      | None => rmatch r2 s c k
      end
  | Star r1 =>
      star_loop (fun s' c' k' => rmatch r1 s' c' k') true (length s) s c k
  | LazyStar r1 =>
      star_loop (fun s' c' k' => rmatch r1 s' c' k') false (length s) s c k
  | Group r1 =>
      rmatch r1 s c
        (fun s' c' => k s' (c' ++ [firstn (length s - length s') s]))
  | Lookahead r1 =>
      match rmatch r1 s c (fun _ c' => Some c') with
      | Some c' => k s c'
      | None => None
      end
  | Eos =>
      match s with
      | [] => k s c
      | _ :: _ => None
      end
  end.

Record MatchResult : Type := {
  before : input;
  matched : input;
  groups : captures;
  after : input
}.

(** A match that starts at the head of [s]. *)
Definition match_here (r : regex) (s : input) : option (input * captures) :=
  rmatch r s [] (fun s' c => Some (s', c)).

(** [RegExp.prototype.exec] without the [g] flag: the leftmost match;
    [skipped] is the text already passed over, last character first. *)
Fixpoint exec_from (r : regex) (skipped : input) (s : input) : option MatchResult :=
  match match_here r s with
  | Some (s', c) =>
      Some {| before := rev skipped;
              matched := firstn (length s - length s') s;
              groups := c;
              after := s' |}
  | None =>
      match s with
      | [] => None
      | a :: s' => exec_from r (a :: skipped) s'
      end
  end.

Definition exec (r : regex) (s : input) : option MatchResult := exec_from r [] s.

(** [s.replace(r, repl)] without the [g] flag. *)
Definition replace_first (r : regex) (repl : input) (s : input) : input :=
  match exec r s with
  | Some m => before m ++ repl ++ after m
  | None => s
  end.

(** [s.replace(r, repl)] for an [r] that starts with [^]: only the head
    of [s] can match. *)
Definition replace_anchored (r : regex) (repl : input) (s : input) : input :=
  match match_here r s with
  | Some (s', _) => repl ++ s'
  | None => s
  end.

(** [s.replace(r, repl)] with the [g] flag. *)
Fixpoint replace_all (fuel : nat) (r : regex) (repl : input) (s : input) : input :=
  match fuel with
  | 0 => s
  | S fuel' =>
      match exec r s with
      | Some m =>
          match matched m, after m with
          | [], a :: rest =>
              before m ++ repl ++ a :: replace_all fuel' r repl rest
          | [], [] => before m ++ repl
          | _ :: _, rest => before m ++ repl ++ replace_all fuel' r repl rest
          end
      | None => s
      end
  end.

(** Building blocks of the literals. *)
Definition chr (c : ascii) : regex := Chr (Ascii.eqb c).

Definition upper (c : ascii) : ascii :=
  let n := nat_of_ascii c in
  if ((97 <=? n) && (n <=? 122))%nat then ascii_of_nat (n - 32) else c.

(** A character of a literal under the [i] flag. *)
Definition chr_i (c : ascii) : regex :=
  Chr (fun a => Ascii.eqb (upper a) (upper c)).

Fixpoint lit (mk : ascii -> regex) (s : string) : regex :=
  match s with
  | EmptyString => Eps
  | String c EmptyString => mk c
  | String c s' => Seq (mk c) (lit mk s')
  end.

Definition opt (r : regex) : regex := Alt r Eps.

Definition any : regex := Chr (fun _ => true).
Definition space : regex := Chr Str.is_space.
Definition word_or_space : regex := Chr (fun a => Str.is_word a || Str.is_space a).
Definition not_brace : regex :=
  Chr (fun a => negb (Ascii.eqb a "{" || Ascii.eqb a "}")).

(** [/```(?:json)?\s*(\{[\s\S]*\})\s*```/i] *)
Definition codeBlockRe : regex :=
  Seq (lit chr_i "```")
  (Seq (opt (lit chr_i "json"))
  (Seq (Star space)
  (Seq (Group (Seq (chr "{") (Seq (Star any) (chr "}"))))
  (Seq (Star space) (lit chr_i "```"))))).

(** [/\{(?:[^{}]|{(?:[^{}]|{[^{}]*})*})*\}/] *)
Definition braces (inner : regex) : regex :=
  Seq (chr "{") (Seq (Star inner) (chr "}")).

Definition jsonBoundaryRe : regex :=
  braces (Alt not_brace (braces (Alt not_brace (braces not_brace)))).

(** [/```(?:json)?/gi] *)
Definition fenceRe : regex :=
  Seq (lit chr_i "```") (opt (lit chr_i "json")).

(** [/^\s*[\w\s]*?(?=\{)/], the anchor left to [replace_anchored]. *)
Definition leadingTextRe : regex :=
  Seq (Star space) (Seq (LazyStar word_or_space) (Lookahead (chr "{"))).

(** [/\}[\s\w]*$/] *)
Definition trailingTextRe : regex :=
  Seq (chr "}") (Seq (Star word_or_space) Eos).

End Regex.

(** [content.match(re)], the matched text and its first group. *)
Definition String_match (re : Regex.regex) (content : string)
  : option (string * option string) :=
  match Regex.exec re (list_ascii_of_string content) with
  | Some m =>
      Some (string_of_list_ascii (Regex.matched m),
            option_map string_of_list_ascii (nth_error (Regex.groups m) 0))
  | None => None
  end.

(** The text that attempt 4 of the extractor parses. *)
Definition clean_content (content : string) : string :=
  let s0 := list_ascii_of_string content in
  let s1 := Regex.replace_all (S (length s0)) Regex.fenceRe [] s0 in
  let s2 := Regex.replace_anchored Regex.leadingTextRe [] s1 in
  let s3 := Regex.replace_first Regex.trailingTextRe ["}"%char] s2 in
  Str.trim (string_of_list_ascii s3).

(** The brace scan that the specification describes for the third stage:
    the first opening brace of the text and the closing brace that
    balances it.  [scan d s] reads [s] with [d] braces open beyond the
    first one and returns the text up to the balancing brace and the rest. *)
Module BraceScan.

Fixpoint scan (d : nat) (s : list ascii) : option (list ascii * list ascii) :=
  match s with
  | [] => None
  | c :: s' =>
      if Ascii.eqb c "{" then
        match scan (S d) s' with
        | Some (m, r) => Some (c :: m, r)
        | None => None
        end
      else if Ascii.eqb c "}" then
        match d with
        | 0 => Some ([c], s')
        | S d' =>
            match scan d' s' with
            | Some (m, r) => Some (c :: m, r)
            | None => None
            end
        end
      else
        match scan d s' with
        | Some (m, r) => Some (c :: m, r)
        | None => None
        end
  end.

Fixpoint first_balanced (s : list ascii) : option (list ascii) :=
  match s with
  | [] => None
  | c :: s' =>
      if Ascii.eqb c "{" then
        match scan 0 s' with
        | Some (m, _) => Some (c :: m)
        | None => None
        end
      else first_balanced s'
  end.

(** The deepest nesting reached while reading [s] from depth [d]. *)
Fixpoint depth_from (d : nat) (s : list ascii) : nat :=
  match s with
  | [] => d
  | c :: s' =>
      if Ascii.eqb c "{" then depth_from (S d) s'
      else if Ascii.eqb c "}" then Nat.max d (depth_from (Nat.pred d) s')
      else depth_from d s'
  end.

Definition brace_depth (s : string) : nat :=
  depth_from 0 (list_ascii_of_string s).

Definition first_balanced_object (content : string) : option string :=
  option_map string_of_list_ascii (first_balanced (list_ascii_of_string content)).

End BraceScan.

(** ** The repair functions that read the host *)

Section Repair.
Variable host : Host.

Fixpoint mapM_from {A B} (f : nat -> A -> M B) (i : nat) (l : list A) : M (list B) :=
  match l with
  | [] => ret []
  | a :: l' => (b <- f i a ;; bs <- mapM_from f (S i) l' ;; ret (b :: bs))%monad
  end.

(** [l.some((p, i) => f(i, p))]: stops at the first [true]. *)
Fixpoint some_from (f : nat -> json -> result bool) (i : nat) (l : list json)
  : result bool :=
  match l with
  | [] => ok false
  | p :: l' =>
      rbind (f i p) (fun b => if b then ok true else some_from f (S i) l')
  end.

(** The Portable Text block that wraps a string. *)
Definition portableTextBlock (text : string) : M json :=
  (t1 <- now host ;; r1 <- random36 host 2 4 ;;
   t2 <- now host ;; r2 <- random36 host 2 4 ;;
   ret (JObject
          [ ("_type", jstr "block");
            ("_key", jstr ("block-" +++ t1 +++ "-" +++ r1));
            ("style", jstr "normal");
            ("children",
             JArray
               [ JObject
                   [ ("_type", jstr "span");
                     ("_key", jstr ("span-" +++ t2 +++ "-" +++ r2));
                     ("text", jstr text);
                     ("marks", JArray []) ] ]);
            ("markDefs", JArray []) ]))%monad.

Definition enforceFieldType (fieldName : string) (v : json)
    (expectedType blockType : string) (blockIndex : nat) : M FixResult :=
  let wasType := match v with JArray _ => "array" | _ => Js.typeof v end in
  let unchanged :=
    {| fixed := false; dropped := false; value := None; wasType := wasType |} in
  let drop :=
    {| fixed := false; dropped := true; value := None; wasType := wasType |} in
  let replace x :=
    {| fixed := true; dropped := false; value := Some x; wasType := wasType |} in
  if String.eqb expectedType "string" then
    match v with
    | JArray _ =>
        (flattened <- lift (_toPlainString host v) ;;
         if negb (String.eqb flattened EmptyString)
            && negb (String.eqb (Str.trim flattened) EmptyString)
         then ret (replace (JString flattened))
         else ret drop)%monad
    | JString _ => ret unchanged
    | JNull => ret drop
    | _ => ret (replace (JString (String_of host v)))
    end
  else if Str.includes "array" expectedType then
    match v with
    | JArray _ => ret unchanged
    | JString s =>
        if Str.includes "Portable Text" expectedType
        then (b <- portableTextBlock s ;; ret (replace (JArray [b])))%monad
        else if Str.includes "strings" expectedType
        then ret (replace (JArray [JString s]))
        else ret drop
    | _ =>
        if Str.includes "strings" expectedType
        then ret (replace (JArray [JString (String_of host v)]))
        else ret drop
    end
  else if String.eqb expectedType "number" then
    match v with
    | JNumber _ => ret unchanged
    | JString s =>
        if negb (PrimFloat.is_nan (Number_ofString host s))
        then ret (replace (JNumber (Number_ofString host s)))
        else ret drop
    | _ => ret drop
    end
  else ret unchanged.

Definition fixFaqGroup (block : object) (blockIndex : nat) : M (object * FixCounts) :=
  let isArr := Js.isArray (alist_get block "faqItems") in
  let block1 := if isArr then block else alist_set block "faqItems" (JArray []) in
  let f1 := if isArr then 0 else 1 in
  let items := match alist_get block1 "faqItems" with
               | Some (JArray l) => l
               | _ => []
               end in
  let originalCount := length items in
  let kept := filter valid_inline_faqItem items in
  let violations := length (filter (fun item => negb (valid_inline_faqItem item)) items) in
  let block2 := alist_set block1 "faqItems" (JArray kept) in
  let f2 := if negb (Nat.eqb (length kept) originalCount) then 1 else 0 in
  if Nat.eqb (length kept) 0 then
    (ts <- now host ;;
     r <- random36 host 2 4 ;;
     let newKey := "faq-" +++ ts +++ "-" +++ r in
     ret (alist_set block2 "faqItems" (JArray (kept ++ [placeholder_faqItem ts newKey])),
          {| fixesApplied := f1 + f2 + 1; violationsDetected := violations |}))%monad
  else
    ret (block2, {| fixesApplied := f1 + f2; violationsDetected := violations |}).

(** The predicate that [fixProviderList] hands to [some]. *)
Definition provider_invalid (i : nat) (p : json) : result bool :=
  if negb (String.eqb (Js.typeof p) "object") then ok true
  else
    rbind (js_get p "_type") (fun ty =>
      let ref := Js.prop p "_ref" in
      ok (negb (Js.is_str ty "reference")
          || negb (Js.truthy_opt ref)
          || negb (isValidProviderId ref)
          || (Nat.eqb i 0 && differs_from_preferred ref))).

Definition providers_need_fix (block : object) : result bool :=
  match alist_get block "providers" with
  | Some (JArray l) =>
      if Nat.eqb (length l) 0 then ok true else some_from provider_invalid 0 l
  | _ => ok true
  end.

Definition fixProviderList (block : object) (blockIndex : nat)
  : M (object * FixCounts) :=
  (needsfix <- lift (providers_need_fix block) ;;
   if needsfix then
     let n := Nat.min 4 (length PROVIDER_WHITELIST) in
     refs <- mapM (fun id =>
                     t <- now host ;;
                     r <- random36 host 2 4 ;;
                     ret (JObject [ ("_type", jstr "reference");
                                    ("_ref", jstr id);
                                    ("_key", jstr ("provider-" +++ t +++ "-" +++ r)) ]))
                  (firstn n PROVIDER_WHITELIST) ;;
     ret (alist_set block "providers" (JArray refs),
          {| fixesApplied := 1;
             violationsDetected := if Nat.eqb (length refs) 0 then 1 else 0 |})
   else ret (block, {| fixesApplied := 0; violationsDetected := 0 |}))%monad.

(** *** applyAutoFixes *)

(** The body of the loop over [Object.keys(b)] that enforces the declared
    types; a key of [b] always has a value. *)
Definition enforce_field (blockSchema : list (string * string)) (ty : string)
    (idx : nat) (b : object) (fieldName : string) : M object :=
  if Str.startsWith "_" fieldName then ret b
  else
    match alist_get blockSchema fieldName, alist_get b fieldName with
    | Some expectedType, Some currentValue =>
        if String.eqb expectedType EmptyString then ret b
        else
          (fixResult <- enforceFieldType fieldName currentValue expectedType ty idx ;;
           if fixed fixResult then
             match value fixResult with
             | Some x => ret (alist_set b fieldName x)
             | None => ret b
             end
           else if dropped fixResult then ret (alist_del b fieldName)
           else ret b)%monad
    | _, _ => ret b
    end.

Definition enforce_fields (blockSchema : list (string * string)) (ty : string)
    (idx : nat) (b : object) : M object :=
  foldM (enforce_field blockSchema ty idx) (map fst b) b.

Definition sanitize_reference_fields (referenceFields : list string) (b : object)
  : object :=
  fold_left
    (fun (b : object) fieldName =>
       match alist_get b fieldName with
       | Some v =>
           let fixResult := sanitizeReferenceOnlyArray v in
           match ref_fixed fixResult, ref_value fixResult with
           | true, Some refs => alist_set b fieldName (JArray refs)
           | _, _ => b
           end
       | None => b
       end)
    referenceFields b.

(** The cleaning of [valueProposition.items] and [featureList.features]:
    the cleaned copies replace the array only when an entry was dropped. *)
Definition clean_nested (b : object) (field : string) : object :=
  match alist_get b field with
  | Some (JArray items) =>
      let cleaned :=
        flat_map
          (fun item =>
             if negb (Js.truthy item) || negb (String.eqb (Js.typeof item) "object")
             then []
             else [JObject (fst (removeProblematicFields (spread item) ["icon"]))])
          items in
      if negb (Nat.eqb (length cleaned) (length items))
      then alist_set b field (JArray cleaned)
      else b
  | _ => b
  end.

Definition key_needs_fix (b : object) : bool :=
  match alist_get b "_key" with
  | Some (JString k) =>
      String.eqb k EmptyString || String.eqb (Str.trim k) EmptyString
  | _ => true
  end.

(** The body of [contentBlocks.map]: [None] is a dropped block. *)
Definition fix_block (schemaFieldTypes : list (string * list (string * string)))
    (referenceOnlyFields : list (string * list string))
    (idx : nat) (blk : json) : M (option json) :=
  if negb (Js.truthy blk) || negb (String.eqb (Js.typeof blk) "object")
  then ret None
  else
    match deep_copy blk with
    | JObject b =>
        match alist_get b "_type" with
        | Some (JString ty) =>
            if String.eqb ty EmptyString then ret None
            else
              (b1 <- (if key_needs_fix b
                      then (t <- now host ;;
                            r <- random36 host 2 6 ;;
                            ret (alist_set b "_key" (jstr (ty +++ "-" +++ t +++ "-" +++ r))))
                      else ret b) ;;
               let b2 := fst (removeProblematicFields b1 ["icon"]) in
               let b3 := if String.eqb ty "videoSection" && alist_has b2 "customThumbnail"
                         then alist_del b2 "customThumbnail" else b2 in
               let blockSchema := match alist_get schemaFieldTypes ty with
                                  | Some ft => ft
                                  | None => []
                                  end in
               b4 <- enforce_fields blockSchema ty idx b3 ;;
               let referenceFields := match alist_get referenceOnlyFields ty with
                                      | Some fs => fs
                                      | None => []
                                      end in
               let b5 := sanitize_reference_fields referenceFields b4 in
               b6 <- (if String.eqb ty "faqGroup"
                      then (r <- fixFaqGroup b5 idx ;; ret (fst r))
                      else ret b5) ;;
               b7 <- (if String.eqb ty "providerList"
                      then (r <- fixProviderList b6 idx ;; ret (fst r))
                      else ret b6) ;;
               let b8 := if String.eqb ty "valueProposition"
                         then clean_nested b7 "items" else b7 in
               let b9 := if String.eqb ty "featureList"
                         then clean_nested b8 "features" else b8 in
               ret (Some (JObject b9)))%monad
        | _ => ret None
        end
    | _ => ret None
    end.

Definition applyAutoFixes (contentBlocks : list json) (s : option SchemaManifest)
  : M (list json) :=
  let schemaFieldTypes := extractSchemaFieldTypes s in
  let referenceOnlyFields := extractReferenceOnlyFields s in
  (mapped <- mapM_from (fix_block schemaFieldTypes referenceOnlyFields) 0 contentBlocks ;;
   let fixedBlocks :=
     flat_map (fun b : option json => match b with Some b => [b] | None => [] end) mapped in
   ret (map (fun block => fst (sanitizeAllReferences block)) fixedBlocks))%monad.

(** ** validateContentBlocks *)

(** The manifest entry that [manifestBlockMap] holds for a type: the last
    one of that name. *)
Definition manifest_block (specs : list BlockTypeSpec) (ty : string)
  : option BlockTypeSpec :=
  find (fun spec => String.eqb (type spec) ty) (rev specs).

Definition required_warnings (lbl : string) (block : json) (fields : list string)
  : list string :=
  flat_map
    (fun requiredField =>
       match Js.prop block requiredField with
       | None | Some JNull => [lbl +++ "Missing required field " +++ Str.dq
                               +++ requiredField +++ Str.dq]
       | Some (JString s) =>
           if String.eqb s EmptyString
           then [lbl +++ "Missing required field " +++ Str.dq
                 +++ requiredField +++ Str.dq]
           else []
       | Some _ => []
       end)
    fields.

Fixpoint fieldType_warnings (ty : string) (index : nat) (block : json)
    (entries : list (string * string)) : result (list string) :=
  match entries with
  | [] => ok []
  | (fieldName, fieldType) :: rest =>
      rbind
        (match Js.prop block fieldName with
         | None | Some JNull => ok []
         | Some fieldValue =>
             validateFieldType host fieldName fieldValue fieldType ty index
         end)
        (fun w => rbind (fieldType_warnings ty index block rest)
                        (fun ws => ok (w ++ ws)))
  end.

Definition enum_warnings (lbl : string) (block : json)
    (entries : list (string * list string)) : list string :=
  flat_map
    (fun e : string * list string =>
       let (fieldName, validValues) := e in
       match Js.prop block fieldName with
       | None | Some JNull => []
       | Some fieldValue =>
           if negb (Js.includes validValues (Some fieldValue))
           then [lbl +++ "Field " +++ Str.dq +++ fieldName +++ Str.dq
                 +++ " must be one of: " +++ Str.join ", " validValues
                 +++ ". Got: " +++ Str.dq +++ String_of host fieldValue +++ Str.dq]
           else []
       end)
    entries.

(** The body of [contentBlocks.forEach]: the warnings pushed for one block. *)
Definition validate_block (specs : list BlockTypeSpec) (index : nat) (block : json)
  : result (list string) :=
  let manifestBlockTypes := map type specs in
  rbind (js_get block "_type") (fun ty =>
    if negb (Js.truthy_opt ty)
    then ok ["Block " +++ Str.of_nat index +++ ": Missing _type field"]
    else
      let keyWarning :=
        if negb (Js.truthy_opt (Js.prop block "_key"))
        then ["Block " +++ Str.of_nat index +++ " (" +++ String_of_opt host ty
              +++ "): Missing _key field"]
        else [] in
      match ty with
      | Some (JString t) =>
          if negb (existsb (String.eqb t) manifestBlockTypes)
          then ok (keyWarning
                   ++ ["Block " +++ Str.of_nat index +++ ": Invalid _type " +++ Str.dq
                       +++ t +++ Str.dq +++ ". Valid types: "
                       +++ Str.join ", " manifestBlockTypes])
          else
            let lbl := block_label index t in
            let manifestBlock := manifest_block specs t in
            let required :=
              match manifestBlock with
              | Some {| requiredFields := Some fields |} =>
                  required_warnings lbl block fields
              | _ => []
              end in
            let enums :=
              match manifestBlock with
              | Some {| fieldEnums := Some entries |} => enum_warnings lbl block entries
              | _ => []
              end in
            rbind
              (match manifestBlock with
               | Some {| fieldTypes := Some entries |} =>
                   fieldType_warnings t index block entries
               | _ => ok []
               end)
              (fun types => ok (keyWarning ++ required ++ types ++ enums))
      | _ =>
          ok (keyWarning
              ++ ["Block " +++ Str.of_nat index +++ ": Invalid _type " +++ Str.dq
                  +++ String_of_opt host ty +++ Str.dq +++ ". Valid types: "
                  +++ Str.join ", " manifestBlockTypes])
      end).

Definition validateContentBlocks (contentBlocks : list json)
    (s : option SchemaManifest) : result (bool * list string) :=
  match s with
  | Some {| contentBlockTypes := Some specs |} =>
      rbind (forEach_from (validate_block specs) 0 contentBlocks)
            (fun warnings => ok (Nat.eqb (length warnings) 0, warnings))
  | _ => ok (false, ["Schema manifest not available for validation"])
  end.

End Repair.

(** ** generateContent, from the reply of the provider onwards *)

Section Orchestrator.
Variable host : Host.

(** One extraction attempt: [parsed] keeps its value when the attempt is
    skipped or its [JSON.parse] throws. *)
Definition attempt (parsed : option json) (candidate : option string) : option json :=
  if Js.truthy_opt parsed then parsed
  else
    match candidate with
    | Some text =>
        match JSON_parse host text with
        | Some v => Some v
        | None => parsed
        end
    | None => parsed
    end.

(** Attempt 2: the first group of the fenced code block. *)
Definition markdownExtraction (content : string) : option string :=
  match String_match Regex.codeBlockRe content with
  | Some (_, g) => g
  | None => None
  end.

(** Attempt 3: the text between the boundaries of a JSON object. *)
Definition boundaryText (content : string) : option string :=
  option_map fst (String_match Regex.jsonBoundaryRe content).

Definition boundaryDetection (content : string) : option json :=
  match boundaryText content with
  | Some text => JSON_parse host text
  | None => None
  end.

Definition empty_payload : json := JObject [("contentBlocks", JArray [])].

(** The cascade: the value of [parsed] after the four attempts and the
    final fallback. *)
Definition extractJSON (content : string) : json :=
  match JSON_parse host content with
  | Some v => v
  | None =>
      let p2 := attempt None (markdownExtraction content) in
      let p3 := attempt p2 (boundaryText content) in
      let p4 := attempt p3 (Some (clean_content content)) in
      match p4 with
      | Some v => if Js.truthy v then v else empty_payload
      | None => empty_payload
      end
  end.

(** [Array.isArray(parsed?.contentBlocks) ? parsed.contentBlocks
     : Array.isArray(parsed) ? parsed : []] *)
Definition blocks_of (parsed : json) : list json :=
  match Js.prop parsed "contentBlocks", parsed with
  | Some (JArray l), _ => l
  | _, JArray l => l
  | _, _ => []
  end.

Definition is_null (v : json) : bool :=
  match v with JNull => true | _ => false end.

Definition fallbackBlock : M json :=
  (t1 <- now host ;; r1 <- random36 host 2 6 ;;
   t2 <- now host ;; r2 <- random36 host 2 4 ;;
   t3 <- now host ;; r3 <- random36 host 2 4 ;;
   ret (JObject
          [ ("_type", jstr "pageSection");
            ("_key", jstr ("fallback-" +++ t1 +++ "-" +++ r1));
            ("title", jstr "Indhold ikke genereret");
            ("content",
             JArray
               [ JObject
                   [ ("_type", jstr "block");
                     ("_key", jstr ("block-" +++ t2 +++ "-" +++ r2));
                     ("style", jstr "normal");
                     ("children",
                      JArray
                        [ JObject
                            [ ("_type", jstr "span");
                              ("_key", jstr ("span-" +++ t3 +++ "-" +++ r3));
                              ("text", jstr "AI-indholdet kunne ikke genereres korrekt. Prøv venligst igen med en anden model eller justér dine indstillinger.");
                              ("marks", JArray []) ] ]);
                     ("markDefs", JArray []) ] ]) ]))%monad.

Definition failure (msg : string) : GenerationResponse :=
  {| success := false; data := None; error := Some msg; usage := None |}.

(** The [catch] clause, for an error that is no HTTP error. *)
Definition caught (e : exn) : GenerationResponse :=
  failure (if String.eqb (message_of e) EmptyString
           then "Request failed" else message_of e).

(** The part of the [try] block after the reply arrived. *)
Definition process_reply (request : GenerationRequest) (content : string)
    (u : Usage) : M GenerationResponse :=
  let blocks := blocks_of (extractJSON content) in
  (_ <- (if existsb is_null blocks
         then raise (null_read "_type") else ret tt) ;;
   fixed0 <- applyAutoFixes host blocks (schema request) ;;
   fixedBlocks <- (if Nat.eqb (length fixed0) 0
                   then (fb <- fallbackBlock ;; ret [fb])
                   else ret fixed0) ;;
   postFixValidation <- lift (validateContentBlocks host fixedBlocks (schema request)) ;;
   if negb (fst postFixValidation)
   then ret (failure ("Auto-fix failed: " +++ Str.join "; " (snd postFixValidation)))
   else ret {| success := true; data := Some fixedBlocks;
               error := None; usage := Some u |})%monad.

(** [generateContent(request, config)] when the provider answered
    [content] with the token counts [u]; [st] is the number of reads of
    the host before the call. *)
Definition generateContent (request : GenerationRequest) (content : string)
    (u : Usage) (st : nat) : GenerationResponse :=
  let validation := validateGenerationRequest request in
  if negb (fst validation)
  then failure ("Validation failed: " +++ Str.join "; " (snd validation))
  else
    match process_reply request content u st with
    | inl e => caught e
    | inr (response, _) => response
    end.

End Orchestrator.

(** ** The second copy of the pipeline that the repository carries

    It parses the reply directly, repairs with hard-coded field lists and
    has no fail-safe block. *)

Module Legacy.

Section WithHost.
Variable host : Host.

Definition STRING_FIELDS_MAP : list (string * list string) :=
  [ ("renewableEnergyForecast", ["leadingText"]);
    ("monthlyProductionChart", ["leadingText"]);
    ("realPriceComparisonTable", ["leadingText"]);
    ("priceExampleTable", []);
    ("hero", ["headline"; "subheadline"]);
    ("pageSection", ["title"]);
    ("featureList", ["title"]);
    ("featureItem", ["title"; "description"]);
    ("valueProposition", ["title"]);
    ("providerList", ["title"]);
    ("livePriceGraph", ["title"; "subtitle"]);
    ("videoSection", ["title"]);
    ("faqItem", ["question"]);
    ("callToActionSection", ["title"; "buttonText"; "buttonUrl"]) ].

Definition placeholder_faqItem (t1 t2 t3 : string) : json :=
  JObject
    [ ("_type", jstr "faqItem");
      ("_key", jstr ("faq-" +++ t1));
      ("question", jstr "Placeholder question");
      ("answer",
       JArray
         [ JObject
             [ ("_type", jstr "block");
               ("_key", jstr ("answer-" +++ t2));
               ("style", jstr "normal");
               ("children",
                JArray
                  [ JObject
                      [ ("_type", jstr "span");
                        ("_key", jstr ("span-" +++ t3));
                        ("text", jstr "Placeholder answer");
                        ("marks", JArray []) ] ]);
               ("markDefs", JArray []) ] ]) ].

(** The faqGroup step of the block loop. *)
Definition fix_faqGroup (b : object) : M object :=
  let faqItems := alist_get b "faqItems" in
  (items <- (match faqItems with
             | Some (JArray l) => ret l
             | Some v => if Js.truthy v
                         then raise (not_a_function "(b.faqItems || []).filter")
                         else ret []
             | None => ret []
             end) ;;
   let kept :=
     filter (fun it => match it with
                       | JNull => false
                       | _ => Js.is_str (Js.prop it "_type") "faqItem"
                       end) items in
   if Nat.eqb (length kept) 0 then
     (t1 <- now host ;; t2 <- now host ;; t3 <- now host ;;
      ret (alist_set b "faqItems" (JArray [placeholder_faqItem t1 t2 t3])))
   else ret (alist_set b "faqItems" (JArray kept)))%monad.

(** The providerList step of the block loop. *)
Definition fix_providerList (b : object) : M object :=
  (needsfix <- lift (providers_need_fix b) ;;
   if needsfix then
     let n := Nat.min 4 (length PROVIDER_WHITELIST) in
     ret (alist_set b "providers"
            (JArray (map (fun id => JObject [ ("_type", jstr "reference");
                                             ("_ref", jstr id) ])
                         (firstn n PROVIDER_WHITELIST))))
   else ret b)%monad.

(** [items.forEach(item => { if (item.icon && typeof item.icon === 'string')
    delete item.icon })] *)
Definition drop_string_icons (b : object) (field : string) : result object :=
  match alist_get b field with
  | Some (JArray items) =>
      rbind
        (rmap (fun item =>
                 rbind (js_get item "icon") (fun icon =>
                   match item, icon with
                   | JObject o, Some (JString s) =>
                       if negb (String.eqb s EmptyString)
                       then ok (JObject (alist_del o "icon"))
                       else ok item
                   | _, _ => ok item
                   end)) items)
        (fun items' => ok (alist_set b field (JArray items')))
  | _ => ok b
  end.

Definition fix_block (idx : nat) (blk : json) : M json :=
  let b := spread blk in
  let ty := alist_get b "_type" in
  (b1 <- (if negb (Js.truthy_opt (alist_get b "_key"))
          then (t <- now host ;;
                r <- random36 host 2 6 ;;
                ret (alist_set b "_key"
                       (jstr (String_of_opt host ty +++ "-" +++ t +++ "-" +++ r))))
          else ret b) ;;
   let b2 := match alist_get b1 "icon" with
             | Some (JString s) =>
                 if negb (String.eqb s EmptyString) then alist_del b1 "icon" else b1
             | _ => b1
             end in
   let b3 := if Js.is_str ty "featureItem" && alist_has b2 "icon"
             then alist_del b2 "icon" else b2 in
   let b4 := if Js.is_str ty "videoSection" && alist_has b3 "customThumbnail"
             then alist_del b3 "customThumbnail" else b3 in
   let stringFields := match alist_get STRING_FIELDS_MAP (String_of_opt host ty) with
                       | Some fs => fs
                       | None => []
                       end in
   b5 <- foldM (fun (b : object) field =>
                  match alist_get b field with
                  | Some (JArray l) =>
                      flattened <- lift (_toPlainString host (JArray l)) ;;
                      ret (alist_set b field (JString flattened))
                  | _ => ret b
                  end) stringFields b4 ;;
   b6 <- (if Js.is_str ty "faqGroup" then fix_faqGroup b5 else ret b5) ;;
   b7 <- (if Js.is_str ty "providerList" then fix_providerList b6 else ret b6) ;;
   b8 <- (if Js.is_str ty "valueProposition"
          then lift (drop_string_icons b7 "items") else ret b7) ;;
   b9 <- (if Js.is_str ty "featureList"
          then lift (drop_string_icons b8 "features") else ret b8) ;;
   ret (JObject b9))%monad.

(** The local [sanitizeReferences] of this copy: it keeps a [_ref] that
    is no string. *)
Definition sanitize_reference (o : object) : object * nat :=
  let invalidKeys :=
    filter (fun key => negb (existsb (String.eqb key) allowedKeys)) (map fst o) in
  let o1 := fold_left (fun acc key => alist_del acc key) invalidKeys o in
  let c1 := if (0 <? length invalidKeys)%nat then 1 else 0 in
  let fix_type :=
    Js.truthy_opt (alist_get o1 "_ref")
    && negb (Js.is_str (alist_get o1 "_type") "reference") in
  ((if fix_type then alist_set o1 "_type" (jstr "reference") else o1),
   c1 + (if fix_type then 1 else 0)).

Fixpoint sanitizeReferences (obj : json) : json * nat :=
  match obj with
  | JArray l =>
      let rs := map sanitizeReferences l in
      (JArray (map fst rs), list_sum (map snd rs))
  | JObject o =>
      if is_reference o then
        let (o', n) := sanitize_reference o in (JObject o', n)
      else
        let rs :=
          map (fun kv : string * json =>
                 let (k, x) := kv in (k, sanitizeReferences x)) o in
        (JObject (map (fun kr : string * (json * nat) => (fst kr, fst (snd kr))) rs),
         list_sum (map (fun kr : string * (json * nat) => snd (snd kr)) rs))
  | _ => (obj, 0)
  end.

Definition applyAutoFixes (contentBlocks : list json) (s : option SchemaManifest)
  : M (list json) :=
  (fixedBlocks <- mapM_from fix_block 0 contentBlocks ;;
   ret (map (fun block => fst (sanitizeReferences block)) fixedBlocks))%monad.

Definition process_reply (request : GenerationRequest) (content : string)
    (u : Usage) : M GenerationResponse :=
  let parsed := match JSON_parse host content with
                | Some v => v
                | None => empty_payload
                end in
  let blocks := blocks_of parsed in
  (fixedBlocks <- applyAutoFixes blocks (schema request) ;;
   postFixValidation <- lift (validateContentBlocks host fixedBlocks (schema request)) ;;
   if negb (fst postFixValidation)
   then ret (failure ("Auto-fix failed: " +++ Str.join "; " (snd postFixValidation)))
   else ret {| success := true; data := Some fixedBlocks;
               error := None; usage := Some u |})%monad.

Definition generateContent (request : GenerationRequest) (content : string)
    (u : Usage) (st : nat) : GenerationResponse :=
  let validation := validateGenerationRequest request in
  if negb (fst validation)
  then failure ("Validation failed: " +++ Str.join "; " (snd validation))
  else
    match process_reply request content u st with
    | inl e => caught e
    | inr (response, _) => response
    end.

End WithHost.

End Legacy.

(** ** Predicates of the specification and inputs of the examples *)

(** A value that already has the shape its declared type asks for: a
    string for a string field, an array for an array field, a number for a
    number field. *)
Definition already_valid (expectedType : string) (v : json) : bool :=
  (String.eqb expectedType "string" && Js.is_string (Some v))
  || (Str.includes "array" expectedType && Js.isArray (Some v))
  || (String.eqb expectedType "number"
      && match v with JNumber _ => true | _ => false end).

(** An entry that is a reference object, not an inline record. *)
Definition bare_reference (v : json) : bool :=
  Js.is_str (Js.prop v "_type") "reference".

(** The [_ref] of every entry of a provider array. *)
Definition provider_refs (l : list json) : list (option json) :=
  map (fun p => Js.prop p "_ref") l.

Module Samples.

Definition q (s : string) : string := Str.dq +++ s +++ Str.dq.

Definition providerList_null_entry : object :=
  [ ("_type", jstr "providerList"); ("providers", JArray [ JNull ]) ].

(** Two replies of the provider, as texts. *)
Definition reply_empty : string := "{" +++ q "contentBlocks" +++ ":[]}".

Definition reply_null_provider : string :=
  "{" +++ q "contentBlocks" +++ ":[{" +++ q "_type" +++ ":" +++ q "providerList"
  +++ "," +++ q "providers" +++ ":[null]}]}".

(** A host for closed examples: a fixed clock and random source, the two
    replies above as the only texts it parses, no numerals. *)
Definition host : Host :=
  {| Date_now := fun _ => "1735000000000";
     Math_random36 := fun _ => "0.k3x9p2m7";
     Number_toString := fun _ => "NaN";
     Number_ofString := fun _ => PrimFloat.nan;
     JSON_parse := fun s =>
       if String.eqb s reply_empty then Some empty_payload
       else if String.eqb s reply_null_provider
       then Some (JObject [("contentBlocks",
                            JArray [JObject providerList_null_entry])])
       else None;
     JSON_stringify := fun _ => "null" |}.

Definition spec_of (ty : string) (required : list string) : BlockTypeSpec :=
  {| type := ty; requiredFields := Some required; fieldTypes := None;
     fieldEnums := None; description := EmptyString |}.

Definition manifest : SchemaManifest :=
  {| contentBlockTypes :=
       Some [ spec_of "hero" ["headline"]; spec_of "pageSection" ["title"] ] |}.

Definition hero : json :=
  JObject [ ("_type", jstr "hero"); ("_key", jstr "h1"); ("headline", jstr "X") ].

Definition pageSection : json :=
  JObject [ ("_type", jstr "pageSection"); ("_key", jstr "p1"); ("title", jstr "T") ].

Definition unknown_block : json := JObject [ ("_type", jstr "bogus") ].

Definition ref_to (id : string) : json :=
  JObject [ ("_type", jstr "reference"); ("_ref", jstr id) ].

Definition faqGroup_two_refs : object :=
  [ ("_type", jstr "faqGroup");
    ("faqItems", JArray [ ref_to "faq-1"; ref_to "faq-2" ]) ].

Definition request : GenerationRequest :=
  {| topic := "elpriser"; keywords := ["el"]; schema := Some manifest;
     optionalBlocks := [] |}.

Definition request_no_manifest_no_topic : GenerationRequest :=
  {| topic := EmptyString; keywords := ["el"]; schema := None;
     optionalBlocks := [] |}.

Definition usage0 : Usage :=
  {| promptTokens := 0; completionTokens := 0; totalTokens := 0 |}.

(** A JSON object whose braces nest four deep, between two pieces of
    prose, and the inner object that nests three deep. *)
Definition depth3_object : string :=
  "{" +++ q "b" +++ ":{" +++ q "c" +++ ":{" +++ q "d" +++ ":1}}}".

Definition depth4_object : string :=
  "{" +++ q "a" +++ ":" +++ depth3_object +++ "}".

Definition depth4_reply : string :=
  "Here is the page: " +++ depth4_object +++ " Hope it helps!".


End Samples.

(** * Properties *)

(** ** Association lists *)

Section AlistFacts.
Variable A : Type.
Implicit Types (o : list (string * A)) (k : string).

Lemma alist_get_set_same o k (v : A) : alist_get (alist_set o k v) k = Some v.
Proof.
  induction o as [|[k' v'] o IH]; simpl.
  - now rewrite String.eqb_refl.
  - destruct (String.eqb k' k) eqn:E; simpl.
    + now rewrite String.eqb_refl.
    + now rewrite E.
Qed.

Lemma alist_get_set_other o k k' (v : A) :
  k <> k' -> alist_get (alist_set o k v) k' = alist_get o k'.
Proof.
  intros Hne. induction o as [|[k0 v0] o IH]; simpl.
  - apply String.eqb_neq in Hne. now rewrite Hne.
  - destruct (String.eqb k0 k) eqn:E; simpl.
    + apply String.eqb_eq in E. subst k0.
      apply String.eqb_neq in Hne. now rewrite Hne.
    + now rewrite IH.
Qed.

Lemma alist_get_filter o k (keep : string -> bool) :
  keep k = true ->
  alist_get (filter (fun kv => keep (fst kv)) o) k = alist_get o k.
Proof.
  intros Hk. induction o as [|[k0 v0] o IH]; simpl; [reflexivity|].
  destruct (keep k0) eqn:E0; simpl.
  - now rewrite IH.
  - destruct (String.eqb k0 k) eqn:E; [|exact IH].
    apply String.eqb_eq in E. congruence.
Qed.

Lemma alist_get_del_same o k : alist_get (alist_del o k) k = None.
Proof.
  unfold alist_del. induction o as [|[k0 v0] o IH]; simpl; [reflexivity|].
  destruct (String.eqb k0 k) eqn:E; simpl; [exact IH|].
  now rewrite E.
Qed.

Lemma alist_get_del_other o k k' :
  k <> k' -> alist_get (alist_del o k) k' = alist_get o k'.
Proof.
  intros Hne. unfold alist_del.
  apply alist_get_filter with (keep := fun x => negb (String.eqb x k)).
  apply Bool.negb_true_iff, String.eqb_neq. congruence.
Qed.

Lemma alist_del_fold o (ks : list string) :
  fold_left (fun acc key => alist_del acc key) ks o
  = filter (fun kv => negb (existsb (String.eqb (fst kv)) ks)) o.
Proof.
  revert o. induction ks as [|k ks IH]; intros o; simpl.
  - induction o as [|kv o IHo]; simpl; [reflexivity|]. now rewrite <- IHo.
  - rewrite IH. unfold alist_del.
    induction o as [|kv o IHo]; simpl; [reflexivity|].
    destruct (String.eqb (fst kv) k); simpl; [exact IHo|].
    destruct (existsb (String.eqb (fst kv)) ks); simpl; [exact IHo|].
    now rewrite IHo.
Qed.

End AlistFacts.

(** ** Field coercion *)

Lemma includes_array_string : Str.includes "array" "string" = false.
Proof. reflexivity. Qed.

Lemma includes_array_number : Str.includes "array" "number" = false.
Proof. reflexivity. Qed.

(** C4: on a value that already has the shape of its declared type,
    [enforceFieldType] reports neither a fix nor a drop and returns no
    replacement, without reading the host; the loop of [applyAutoFixes]
    then leaves the block as it is. *)
Theorem enforceFieldType_noop_on_valid :
  forall host fieldName v expectedType blockType blockIndex st,
    already_valid expectedType v = true ->
    (exists w,
       enforceFieldType host fieldName v expectedType blockType blockIndex st
       = inr ({| fixed := false; dropped := false; value := None; wasType := w |}, st))
    /\
    (forall blockSchema b,
       alist_get blockSchema fieldName = Some expectedType ->
       alist_get b fieldName = Some v ->
       enforce_field host blockSchema blockType blockIndex b fieldName st = inr (b, st)).
Proof.
  intros host fieldName v expectedType blockType blockIndex st Hv.
  assert (Hnoop : exists w,
       enforceFieldType host fieldName v expectedType blockType blockIndex st
       = inr ({| fixed := false; dropped := false; value := None; wasType := w |}, st)).
  { unfold already_valid in Hv. unfold enforceFieldType.
    destruct (String.eqb expectedType "string") eqn:Es.
    - apply String.eqb_eq in Es. subst expectedType.
      rewrite includes_array_string in Hv. simpl in Hv.
      rewrite Bool.orb_false_r in Hv.
      destruct v; simpl in Hv; try discriminate. eexists; reflexivity.
    - simpl in Hv.
      destruct (Str.includes "array" expectedType) eqn:Ea.
      + simpl in Hv. apply Bool.orb_true_iff in Hv as [Hv|Hv].
        * destruct v; simpl in Hv; try discriminate. eexists; reflexivity.
        * apply Bool.andb_true_iff in Hv as [En _].
          apply String.eqb_eq in En. subst expectedType.
          rewrite includes_array_number in Ea. discriminate.
      + simpl in Hv.
        destruct (String.eqb expectedType "number") eqn:En; [|discriminate].
        destruct v; simpl in Hv; try discriminate. eexists; reflexivity. }
  split; [exact Hnoop|].
  intros blockSchema b Hs Hb. destruct Hnoop as [w Hw].
  unfold enforce_field. rewrite Hs, Hb.
  destruct (Str.startsWith "_" fieldName); [reflexivity|].
  destruct (String.eqb expectedType EmptyString); [reflexivity|].
  unfold bind. rewrite Hw. reflexivity.
Qed.

Lemma enforceFieldType_noop_on_valid_witness :
  exists w,
    enforceFieldType Samples.host "title" (JString "T") "string" "pageSection" 1 0
    = inr ({| fixed := false; dropped := false; value := None; wasType := w |}, 0).
Proof.
  exact (proj1 (enforceFieldType_noop_on_valid Samples.host "title" (JString "T")
                  "string" "pageSection" 1 0 eq_refl)).
Defined.

(** ** The FAQ repairer *)

Lemma filter_none {A} (f : A -> bool) (l : list A) :
  Forall (fun x => f x = false) l -> filter f l = [].
Proof.
  induction 1 as [|x l Hx _ IH]; simpl; [reflexivity|]. now rewrite Hx.
Qed.

Lemma bare_reference_not_inline r :
  bare_reference r = true -> valid_inline_faqItem r = false.
Proof.
  unfold bare_reference, valid_inline_faqItem. intros H.
  destruct (negb (Js.truthy r) || negb (String.eqb (Js.typeof r) "object"));
    [reflexivity|].
  destruct (Js.prop r "_type") as [[| | |s| |]|]; simpl in *; try discriminate.
  apply String.eqb_eq in H. subst s. reflexivity.
Qed.

(** C5: [fixFaqGroup] always returns, and leaves in [faqItems] a non-empty
    array of valid inline records; when the array held two bare references
    and nothing else, both are dropped (two violations) and the array is
    exactly the one placeholder record, whose question is a string and
    whose answer is an array. *)
Theorem fixFaqGroup_leaves_an_entry :
  forall host block blockIndex st,
    exists block' counts st' items,
      fixFaqGroup host block blockIndex st = inr (block', counts, st')
      /\ alist_get block' "faqItems" = Some (JArray items)
      /\ 1 <= length items
      /\ Forall (fun item => valid_inline_faqItem item = true) items
      /\ (forall r1 r2,
            bare_reference r1 = true -> bare_reference r2 = true ->
            alist_get block "faqItems" = Some (JArray [r1; r2]) ->
            violationsDetected counts = 2
            /\ exists ts newKey, items = [placeholder_faqItem ts newKey]).
Proof.
  intros host block blockIndex st. unfold fixFaqGroup.
  set (isArr := Js.isArray (alist_get block "faqItems")).
  set (block1 := if isArr then block else alist_set block "faqItems" (JArray [])).
  set (items0 := match alist_get block1 "faqItems" with
                 | Some (JArray l) => l
                 | _ => []
                 end).
  set (kept := filter valid_inline_faqItem items0).
  destruct (Nat.eqb (length kept) 0) eqn:Ek.
  - apply Nat.eqb_eq in Ek. apply length_zero_iff_nil in Ek.
    unfold bind, now, random36, ret. simpl.
    do 4 eexists. split; [reflexivity|].
    rewrite alist_get_set_same. split; [reflexivity|].
    rewrite Ek. simpl. split; [lia|]. split.
    + constructor; [reflexivity|constructor].
    + intros r1 r2 H1 H2 Hget. split; [|do 2 eexists; reflexivity].
      subst items0 block1 isArr. rewrite Hget. simpl. rewrite Hget.
      simpl. rewrite (bare_reference_not_inline _ H1).
      rewrite (bare_reference_not_inline _ H2). reflexivity.
  - unfold ret. do 4 eexists. split; [reflexivity|].
    rewrite alist_get_set_same. split; [reflexivity|].
    apply Nat.eqb_neq in Ek. split; [lia|]. split.
    + apply Forall_forall. intros x Hx. subst kept.
      apply filter_In in Hx. tauto.
    + intros r1 r2 H1 H2 Hget. exfalso. apply Ek.
      subst kept items0 block1 isArr. rewrite Hget. simpl. rewrite Hget.
      simpl. rewrite (bare_reference_not_inline _ H1).
      rewrite (bare_reference_not_inline _ H2). reflexivity.
Qed.

Lemma fixFaqGroup_leaves_an_entry_witness :
  exists block' counts st' items,
    fixFaqGroup Samples.host Samples.faqGroup_two_refs 0 0 = inr (block', counts, st')
    /\ alist_get block' "faqItems" = Some (JArray items)
    /\ length items = 1
    /\ violationsDetected counts = 2.
Proof.
  destruct (fixFaqGroup_leaves_an_entry Samples.host Samples.faqGroup_two_refs 0 0)
    as (block' & counts & st' & items & Hrun & Hget & _ & _ & Htwo).
  destruct (Htwo (Samples.ref_to "faq-1") (Samples.ref_to "faq-2")
              eq_refl eq_refl eq_refl) as [Hv (ts & newKey & Hitems)].
  exists block', counts, st', items.
  repeat split; try assumption. rewrite Hitems. reflexivity.
Defined.

(** ** The provider repairer *)

Definition preferred_id : string := "63c05ca2-cd1e-4f00-b544-6a2077d4031a".

Lemma PROVIDER_WHITELIST_head : nth_error PROVIDER_WHITELIST 0 = Some preferred_id.
Proof. reflexivity. Qed.

(** What holds of an entry that the predicate of [some] lets pass. *)
Definition provider_entry_ok (i : nat) (p : json) : Prop :=
  bare_reference p = true
  /\ isValidProviderId (Js.prop p "_ref") = true
  /\ (i = 0 -> Js.prop p "_ref" = Some (JString preferred_id)).

Lemma provider_invalid_false i p :
  provider_invalid i p = ok false -> provider_entry_ok i p.
Proof.
  unfold provider_invalid, provider_entry_ok, bare_reference.
  destruct (negb (String.eqb (Js.typeof p) "object")); [discriminate|].
  destruct p; simpl; try discriminate; intros H; injection H as H;
    repeat (apply Bool.orb_false_iff in H; destruct H as [H ?]);
    try discriminate.
  apply Bool.negb_false_iff in H.
  repeat split; try assumption.
  - now apply Bool.negb_false_iff.
  - intros ->. simpl in *.
    unfold differs_from_preferred in *. rewrite PROVIDER_WHITELIST_head in *.
    destruct (alist_get props "_ref") as [[| | |s| |]|]; try discriminate.
    f_equal. f_equal. apply String.eqb_eq. now apply Bool.negb_false_iff.
Qed.

Lemma some_from_false i l :
  some_from provider_invalid i l = ok false ->
  forall k p, nth_error l k = Some p -> provider_entry_ok (i + k) p.
Proof.
  revert i. induction l as [|a l IH]; intros i H k p Hk.
  - destruct k; discriminate.
  - simpl in H. destruct (provider_invalid i a) as [e|[|]] eqn:Ea; try discriminate.
    destruct k as [|k]; simpl in Hk.
    + injection Hk as <-. rewrite Nat.add_0_r. now apply provider_invalid_false.
    + replace (i + S k) with (S i + k) by lia. now apply (IH (S i)).
Qed.

(** When [fixProviderList] returns, the providers are a non-empty array of
    allow-listed references with the preferred identifier first. *)
Lemma fixProviderList_post host block blockIndex st block' counts st' :
  fixProviderList host block blockIndex st = inr (block', counts, st') ->
  exists l,
    alist_get block' "providers" = Some (JArray l)
    /\ l <> []
    /\ forall k p, nth_error l k = Some p -> provider_entry_ok k p.
Proof.
  unfold fixProviderList, bind, lift.
  destruct (providers_need_fix block) as [e|[|]] eqn:En; [discriminate| |].
  - unfold now, random36, ret. simpl. intros H. injection H as <- _ _.
    rewrite alist_get_set_same. eexists. split; [reflexivity|].
    split; [discriminate|].
    intros k p Hk.
    do 4 (destruct k as [|k];
          [injection Hk as <-; repeat split; intros;
           first [reflexivity | discriminate]|]).
    destruct k; discriminate.
  - unfold ret. intros H. injection H as <- _ _.
    unfold providers_need_fix in En.
    destruct (alist_get block "providers") as [[| | | |l|]|]; try discriminate.
    destruct (Nat.eqb (length l) 0) eqn:El; [discriminate|].
    exists l. split; [reflexivity|]. split.
    + intros ->. discriminate.
    + intros k p Hk. exact (some_from_false 0 l En k Hk).
Qed.

Lemma provider_invalid_returns i p :
  p <> JNull -> exists b, provider_invalid i p = ok b.
Proof.
  intros Hp. unfold provider_invalid.
  destruct p; simpl; try (eexists; reflexivity). congruence.
Qed.

Lemma some_from_returns l :
  Forall (fun p => p <> JNull) l ->
  forall i, exists b, some_from provider_invalid i l = ok b.
Proof.
  induction 1 as [|p l Hp _ IH]; intros i; simpl; [eexists; reflexivity|].
  destruct (provider_invalid_returns i Hp) as [b ->]. simpl.
  destruct b; [eexists; reflexivity|apply IH].
Qed.

(** The repairer returns on every provider value that holds no [null]
    entry: a non-array, an empty array, strings, invalid objects. *)
Lemma fixProviderList_returns host block blockIndex st :
  (forall l, alist_get block "providers" = Some (JArray l) ->
             Forall (fun p => p <> JNull) l) ->
  exists r st', fixProviderList host block blockIndex st = inr (r, st').
Proof.
  intros Hnn. unfold fixProviderList, bind, lift.
  assert (Hneed : exists b, providers_need_fix block = ok b).
  { unfold providers_need_fix.
    destruct (alist_get block "providers") as [[| | | |l|]|];
      try (eexists; reflexivity).
    destruct (Nat.eqb (length l) 0); [eexists; reflexivity|].
    apply some_from_returns. now apply Hnn. }
  destruct Hneed as [b ->]. destruct b; do 2 eexists; reflexivity.
Qed.

(** C2: on a provider array whose entry is [null] the repairer throws
    where every other pre-repair value is repaired: [typeof null] is
    ['object'], so the predicate goes on to read [p._type]. *)
Theorem fixProviderList_throws_on_null_entry :
  forall host blockIndex st,
    fixProviderList host Samples.providerList_null_entry blockIndex st
    = inl (null_read "_type").
Proof. reflexivity. Qed.

(** ** The request check *)

Definition manifest_missing (request : GenerationRequest) : Prop :=
  match schema request with
  | Some m => contentBlockTypes m = None
  | None => True
  end.

Definition topic_blank (request : GenerationRequest) : bool :=
  Nat.eqb (String.length (Str.trim (topic request))) 0.

Definition keywords_blank (request : GenerationRequest) : bool :=
  Nat.eqb (length (keywords request)) 0
  || forallb (fun k => Nat.eqb (String.length (Str.trim k)) 0) (keywords request).

Definition invalid_optional_blocks (specs : list BlockTypeSpec)
    (request : GenerationRequest) : list string :=
  filter (fun blockType => negb (existsb (String.eqb blockType) (map type specs)))
         (optionalBlocks request).

Definition invalid_blocks_message (specs : list BlockTypeSpec)
    (request : GenerationRequest) : string :=
  "Invalid block types requested: "
  +++ Str.join ", " (invalid_optional_blocks specs request)
  +++ ". Available types: " +++ Str.join ", " (map type specs).

(** C8 (as the code has it): without a manifest the check stops at once
    and reports that alone, whatever the topic and the keywords are; with
    a manifest the error list names every violated precondition: one
    message that lists every selected block name absent from the manifest,
    one for a blank topic, one for blank keywords, and nothing else. *)
Theorem validateGenerationRequest_enumerates :
  forall request,
    (manifest_missing request ->
     validateGenerationRequest request
     = (false, ["Schema manifest not loaded - ensure elportal-schema-manifest.json is available"]))
    /\
    (forall m specs,
       schema request = Some m -> contentBlockTypes m = Some specs ->
       let errors := snd (validateGenerationRequest request) in
       (In (invalid_blocks_message specs request) errors
        <-> invalid_optional_blocks specs request <> [])
       /\ (In "Topic is required" errors <-> topic_blank request = true)
       /\ (In "At least one keyword is required" errors
           <-> keywords_blank request = true)
       /\ (fst (validateGenerationRequest request) = true
           <-> invalid_optional_blocks specs request = []
               /\ topic_blank request = false
               /\ keywords_blank request = false)).
Proof.
  intros request. split.
  - unfold manifest_missing, validateGenerationRequest.
    destruct (schema request) as [[[specs|]]|]; simpl; intros H;
      try reflexivity; discriminate.
  - intros m specs Hs Hc. unfold validateGenerationRequest.
    rewrite Hs. destruct m as [c]. simpl in Hc. subst c.
    fold (invalid_optional_blocks specs request).
    fold (invalid_blocks_message specs request).
    fold (topic_blank request). fold (keywords_blank request).
    cbv zeta.
    destruct (invalid_optional_blocks specs request) as [|x xs] eqn:Ei;
      destruct (topic_blank request) eqn:Et;
      destruct (keywords_blank request) eqn:Ek; simpl;
      unfold invalid_blocks_message; rewrite ?Ei; simpl;
      repeat split; intros; try discriminate; try tauto; try congruence;
      repeat match goal with
             | H : _ \/ _ |- _ => destruct H
             | H : False |- _ => destruct H
             | H : _ /\ _ |- _ => destruct H
             end;
      try discriminate; try congruence; auto.
Qed.

Lemma validateGenerationRequest_enumerates_witness :
  validateGenerationRequest Samples.request_no_manifest_no_topic
  = (false, ["Schema manifest not loaded - ensure elportal-schema-manifest.json is available"]).
Proof.
  exact (proj1 (validateGenerationRequest_enumerates
                  Samples.request_no_manifest_no_topic) I).
Defined.

(** C8, as stated, fails: with no manifest and an empty topic the error
    list does not mention the topic. *)
Lemma missing_manifest_hides_empty_topic :
  topic_blank Samples.request_no_manifest_no_topic = true
  /\ manifest_missing Samples.request_no_manifest_no_topic
  /\ ~ In "Topic is required"
         (snd (validateGenerationRequest Samples.request_no_manifest_no_topic)).
Proof.
  split; [reflexivity|]. split; [exact I|].
  simpl. intros [H|[]]. discriminate.
Qed.

(** ** The compliance validator *)

(** C10: with a manifest that has a [contentBlockTypes] array, the empty
    block list is reported compliant, with no warning. *)
Theorem validateContentBlocks_empty_is_compliant :
  forall host m specs,
    contentBlockTypes m = Some specs ->
    validateContentBlocks host [] (Some m) = ok (true, []).
Proof.
  intros host [c] specs H. simpl in H. subst c. reflexivity.
Qed.

Lemma validateContentBlocks_empty_is_compliant_witness :
  validateContentBlocks Samples.host [] (Some Samples.manifest) = ok (true, []).
Proof.
  exact (validateContentBlocks_empty_is_compliant Samples.host Samples.manifest eq_refl).
Defined.






(** *** The verdict does not depend on the position of a block *)

(** Two runs that differ in the block index only: both throw, or both
    return the same number of warnings. *)
Definition same_outcome (r1 r2 : result (list string)) : Prop :=
  match r1, r2 with
  | inl _, inl _ => True
  | inr l1, inr l2 => length l1 = length l2
  | _, _ => False
  end.

Lemma same_outcome_cons (r1 r2 r1' r2' : result (list string)) :
  same_outcome r1 r2 -> same_outcome r1' r2' ->
  same_outcome (rbind r1 (fun w => rbind r1' (fun ws => ok (w ++ ws))))
               (rbind r2 (fun w => rbind r2' (fun ws => ok (w ++ ws)))).
Proof.
  destruct r1, r2, r1', r2'; simpl; try tauto.
  intros H1 H2. rewrite !length_app. lia.
Qed.

Lemma forEach_from_outcome {A} (f g : nat -> A -> result (list string)) l :
  (forall i a, same_outcome (f i a) (g i a)) ->
  forall n, same_outcome (forEach_from f n l) (forEach_from g n l).
Proof.
  intros H. induction l as [|a l IH]; intros n; simpl; [reflexivity|].
  apply same_outcome_cons; auto.
Qed.

Ltac outcome_cases :=
  repeat match goal with
         | |- context [if ?c then _ else _] => destruct c
         | |- context [match ?x with _ => _ end] => destruct x
         end;
  simpl; try reflexivity; try exact I; rewrite ?length_app; simpl;
  try reflexivity.

Lemma validateFieldType_outcome host fieldName v fieldType blockType i j :
  same_outcome (validateFieldType host fieldName v fieldType blockType i)
               (validateFieldType host fieldName v fieldType blockType j).
Proof.
  unfold validateFieldType.
  destruct (String.eqb fieldType "array of strings").
  { destruct v; try reflexivity. apply forEach_from_outcome.
    intros k a. unfold validate_string_item. destruct a; simpl; outcome_cases. }
  destruct (String.eqb fieldType "array of references").
  { destruct v; try reflexivity. apply forEach_from_outcome.
    intros k a. unfold validate_reference_item. destruct a; simpl; outcome_cases. }
  destruct (String.eqb fieldType "array of Portable Text blocks").
  { destruct v; try reflexivity. apply forEach_from_outcome.
    intros k a. unfold validate_block_item. destruct a; simpl; outcome_cases. }
  destruct (String.eqb fieldType "icon.manager").
  { destruct v; simpl; outcome_cases. }
  destruct (String.eqb fieldType "image" || String.eqb fieldType "image?"
            || String.eqb fieldType "Sanity image object with valid asset reference").
  { destruct v; simpl; outcome_cases. }
  destruct (String.eqb fieldType "number"); [destruct v; reflexivity|].
  destruct (String.eqb fieldType "string"); [destruct v; reflexivity|].
  reflexivity.
Qed.

Lemma fieldType_warnings_outcome host t block entries i j :
  same_outcome (fieldType_warnings host t i block entries)
               (fieldType_warnings host t j block entries).
Proof.
  induction entries as [|[fieldName fieldType] rest IH]; simpl; [reflexivity|].
  apply same_outcome_cons; [|exact IH].
  destruct (Js.prop block fieldName) as [[| | | | |]|];
    try reflexivity; apply validateFieldType_outcome.
Qed.

Lemma required_warnings_length lbl lbl' block fields :
  length (required_warnings lbl block fields)
  = length (required_warnings lbl' block fields).
Proof.
  induction fields as [|f fields IH]; simpl; [reflexivity|].
  rewrite !length_app, IH. f_equal.
  destruct (Js.prop block f) as [[| | |s| |]|]; try reflexivity.
  destruct (String.eqb s EmptyString); reflexivity.
Qed.

Lemma enum_warnings_length host lbl lbl' block entries :
  length (enum_warnings host lbl block entries)
  = length (enum_warnings host lbl' block entries).
Proof.
  induction entries as [|[f vs] entries IH]; simpl; [reflexivity|].
  rewrite !length_app, IH. f_equal.
  destruct (Js.prop block f) as [[| | |s| |]|]; try reflexivity.
  destruct (negb (existsb (String.eqb s) vs)); reflexivity.
Qed.

Lemma validate_block_outcome host specs block i j :
  same_outcome (validate_block host specs i block)
               (validate_block host specs j block).
Proof.
  unfold validate_block.
  destruct (js_get block "_type") as [e|ty]; simpl; [exact I|].
  destruct (negb (Js.truthy_opt ty)); [reflexivity|].
  destruct ty as [[| | |t| |]|]; simpl;
    try (destruct (negb (Js.truthy_opt (Js.prop block "_key"))); reflexivity).
  destruct (negb (existsb (String.eqb t) (map type specs))).
  { destruct (negb (Js.truthy_opt (Js.prop block "_key"))); reflexivity. }
  destruct (manifest_block specs t) as [[ty' rf ft fe d]|]; simpl.
  - assert (Hk : forall (a b : string),
               length (if negb (Js.truthy_opt (Js.prop block "_key"))
                       then [a] else [])
               = length (if negb (Js.truthy_opt (Js.prop block "_key"))
                         then [b] else [])).
    { intros a b. destruct (negb (Js.truthy_opt (Js.prop block "_key")));
        reflexivity. }
    assert (Hr : length match rf with
                        | Some fields => required_warnings (block_label i t) block fields
                        | None => []
                        end
                 = length match rf with
                          | Some fields => required_warnings (block_label j t) block fields
                          | None => []
                          end).
    { destruct rf; [apply required_warnings_length|reflexivity]. }
    assert (He : length match fe with
                        | Some entries => enum_warnings host (block_label i t) block entries
                        | None => []
                        end
                 = length match fe with
                          | Some entries => enum_warnings host (block_label j t) block entries
                          | None => []
                          end).
    { destruct fe; [apply enum_warnings_length|reflexivity]. }
    pose proof (fieldType_warnings_outcome host t block) as Hft.
    destruct ft as [entries|]; simpl.
    + specialize (Hft entries i j).
      destruct (fieldType_warnings host t i block entries),
               (fieldType_warnings host t j block entries);
        simpl in *; try tauto.
      rewrite !length_app, Hft, Hr, He. f_equal. apply Hk.
    + rewrite !length_app, Hr, He. f_equal. apply Hk.
  - rewrite !length_app. simpl.
    destruct (negb (Js.truthy_opt (Js.prop block "_key"))); reflexivity.
Qed.

Lemma validate_block_clean host specs block i j :
  validate_block host specs i block = ok [] ->
  validate_block host specs j block = ok [].
Proof.
  intros H. pose proof (validate_block_outcome host specs block i j) as Ho.
  rewrite H in Ho. destruct (validate_block host specs j block) as [e|l];
    simpl in Ho; [tauto|].
  destruct l; [reflexivity|discriminate].
Qed.

Lemma forEach_clean host specs blocks n :
  forEach_from (validate_block host specs) n blocks = ok []
  <-> Forall (fun b => validate_block host specs 0 b = ok []) blocks.
Proof.
  revert n. induction blocks as [|b blocks IH]; intros n; simpl.
  - split; [constructor|reflexivity].
  - split.
    + intros H.
      destruct (validate_block host specs n b) as [e|w] eqn:Eb; [discriminate|].
      simpl in H.
      destruct (forEach_from (validate_block host specs) (S n) blocks)
        as [e|ws] eqn:Er; [discriminate|].
      simpl in H. injection H as H. apply app_eq_nil in H as [-> ->].
      constructor.
      * exact (validate_block_clean _ _ _ _ 0 Eb).
      * now apply (IH (S n)).
    + intros H. inversion H as [|? ? Hb Hr]; subst.
      rewrite (validate_block_clean _ _ _ 0 n Hb). simpl.
      apply (IH (S n)) in Hr. rewrite Hr. reflexivity.
Qed.

(** C9 (as the code has it): the validator checks every block on its own
    and never looks at the order of the blocks, so a list that it reports
    compliant stays compliant under every reordering. *)
Theorem compliance_ignores_block_order :
  forall host s blocks blocks' warnings,
    Permutation blocks blocks' ->
    validateContentBlocks host blocks s = ok (true, warnings) ->
    validateContentBlocks host blocks' s = ok (true, []).
Proof.
  intros host s blocks blocks' warnings Hp.
  unfold validateContentBlocks.
  destruct s as [[[specs|]]|]; try discriminate.
  destruct (forEach_from (validate_block host specs) 0 blocks) as [e|ws] eqn:E;
    simpl; [discriminate|].
  intros H. injection H as Hlen _.
  apply Nat.eqb_eq, length_zero_iff_nil in Hlen. subst ws.
  apply forEach_clean in E.
  assert (E' : forEach_from (validate_block host specs) 0 blocks' = ok []).
  { apply forEach_clean. exact (Permutation_Forall Hp E). }
  rewrite E'. reflexivity.
Qed.

Lemma compliance_ignores_block_order_witness :
  validateContentBlocks Samples.host [Samples.pageSection; Samples.hero]
    (Some Samples.manifest) = ok (true, []).
Proof.
  apply (@compliance_ignores_block_order Samples.host (Some Samples.manifest)
           [Samples.hero; Samples.pageSection]
           [Samples.pageSection; Samples.hero] []).
  - apply perm_swap.
  - reflexivity.
Defined.

(** C9, as stated, fails: a list with pageSection before hero is reported
    compliant. *)
Lemma pageSection_before_hero_is_compliant :
  validateContentBlocks Samples.host [Samples.pageSection; Samples.hero]
    (Some Samples.manifest) = ok (true, [])
  /\ Js.prop Samples.pageSection "_type" = Some (JString "pageSection")
  /\ Js.prop Samples.hero "_type" = Some (JString "hero").
Proof. repeat split. Qed.

(** ** Reference sanitization *)

Definition allowed (k : string) : bool := existsb (String.eqb k) allowedKeys.

Definition all_allowed (o : object) : Prop :=
  Forall (fun kv => allowed (fst kv) = true) o.

Lemma invalid_keys_filter (o : object) :
  fold_left (fun acc key => alist_del acc key)
    (filter (fun key => negb (existsb (String.eqb key) allowedKeys)) (map fst o)) o
  = filter (fun kv => allowed (fst kv)) o.
Proof.
  rewrite alist_del_fold. apply filter_ext_in. intros [k v] Hin. cbn [fst].
  destruct (allowed k) eqn:Ea; cbn [negb].
  - apply Bool.negb_true_iff.
    destruct (existsb (String.eqb k) _) eqn:Ex; [|reflexivity].
    apply existsb_exists in Ex as (k' & Hk' & Heq).
    apply String.eqb_eq in Heq. subst k'.
    apply filter_In in Hk' as [_ Hk']. unfold allowed in Ea.
    rewrite Ea in Hk'. discriminate.
  - apply Bool.negb_false_iff. apply existsb_exists. exists k. split.
    + apply filter_In. split.
      * apply in_map_iff. exists (k, v). auto.
      * unfold allowed in Ea. now rewrite Ea.
    + apply String.eqb_refl.
Qed.

Lemma all_allowed_no_invalid_keys (o : object) :
  all_allowed o ->
  filter (fun key => negb (existsb (String.eqb key) allowedKeys)) (map fst o) = [].
Proof.
  induction 1 as [|[k v] o Hk _ IH]; cbn [filter map fst]; [reflexivity|].
  cbn [fst] in Hk. unfold allowed in Hk. rewrite Hk. exact IH.
Qed.

Lemma all_allowed_filter (o : object) :
  all_allowed (filter (fun kv => allowed (fst kv)) o).
Proof.
  apply Forall_forall. intros kv Hin. apply filter_In in Hin. tauto.
Qed.

Lemma all_allowed_set_type (o : object) v :
  all_allowed o -> all_allowed (alist_set o "_type" v).
Proof.
  induction 1 as [|[k x] o Hk Ho IH]; simpl.
  - constructor; [reflexivity|constructor].
  - destruct (String.eqb k "_type"); constructor; auto.
Qed.

Lemma all_allowed_del (o : object) k :
  all_allowed o -> all_allowed (alist_del o k).
Proof.
  intros H. apply Forall_forall. intros kv Hin.
  apply filter_In in Hin as [Hin _].
  exact (proj1 (Forall_forall _ _) H kv Hin).
Qed.

(** The last two steps of the reference branch, on an object whose keys
    are all allowed. *)
Definition needs_type (o : object) : bool :=
  Js.truthy_opt (alist_get o "_ref")
  && negb (Js.is_str (alist_get o "_type") "reference").

Definition needs_ref_drop (o : object) : bool :=
  Js.truthy_opt (alist_get o "_ref") && negb (Js.is_string (alist_get o "_ref")).

Definition retype (o : object) : object :=
  if needs_type o then alist_set o "_type" (jstr "reference") else o.

Definition unref (o : object) : object :=
  if needs_ref_drop o then alist_del o "_ref" else o.

Lemma sanitize_reference_unfold (o : object) :
  let o1 := filter (fun kv => allowed (fst kv)) o in
  fst (sanitize_reference o) = unref (retype o1).
Proof.
  unfold sanitize_reference. simpl. rewrite invalid_keys_filter. reflexivity.
Qed.

Lemma sanitize_reference_allowed (o : object) :
  all_allowed o ->
  sanitize_reference o
  = (unref (retype o),
     (if needs_type o then 1 else 0)
     + (if needs_ref_drop (retype o) then 1 else 0)).
Proof.
  intros Ha. unfold sanitize_reference.
  rewrite (all_allowed_no_invalid_keys Ha). simpl. reflexivity.
Qed.

Lemma retype_ref (o : object) : alist_get (retype o) "_ref" = alist_get o "_ref".
Proof.
  unfold retype. destruct (needs_type o); [|reflexivity].
  apply alist_get_set_other. discriminate.
Qed.

Lemma retype_settles (o : object) :
  Js.truthy_opt (alist_get o "_ref") = true ->
  Js.is_str (alist_get (retype o) "_type") "reference" = true.
Proof.
  intros Ht. unfold retype, needs_type. rewrite Ht. simpl.
  destruct (Js.is_str (alist_get o "_type") "reference") eqn:E; simpl.
  - exact E.
  - now rewrite alist_get_set_same.
Qed.

Lemma retype_keeps_reference (o : object) :
  Js.is_str (alist_get o "_type") "reference" = true -> retype o = o.
Proof.
  intros H. unfold retype, needs_type. rewrite H.
  now rewrite Bool.andb_false_r.
Qed.

Lemma unref_type (o : object) : alist_get (unref o) "_type" = alist_get o "_type".
Proof.
  unfold unref. destruct (needs_ref_drop o); [|reflexivity].
  apply alist_get_del_other. discriminate.
Qed.

Lemma unref_settles (o : object) : needs_ref_drop (unref o) = false.
Proof.
  unfold unref. destruct (needs_ref_drop o) eqn:E; [|exact E].
  unfold needs_ref_drop. now rewrite alist_get_del_same.
Qed.

Lemma unref_truthy (o : object) :
  Js.truthy_opt (alist_get (unref o) "_ref") = true ->
  Js.truthy_opt (alist_get o "_ref") = true.
Proof.
  unfold unref. destruct (needs_ref_drop o); [|tauto].
  rewrite alist_get_del_same. discriminate.
Qed.

(** After one pass a reference is still a reference and needs no change. *)
Lemma sanitize_reference_stable (o : object) :
  is_reference o = true ->
  let o' := fst (sanitize_reference o) in
  is_reference o' = true /\ sanitize_reference o' = (o', 0).
Proof.
  intros Href. cbv zeta. rewrite sanitize_reference_unfold. cbv zeta.
  set (o1 := filter (fun kv => allowed (fst kv)) o).
  assert (Ha1 : all_allowed o1) by apply all_allowed_filter.
  assert (Href1 : is_reference o1 = true).
  { unfold is_reference in *. subst o1.
    rewrite !(@alist_get_filter _ o _ allowed) by reflexivity. exact Href. }
  assert (Ha2 : all_allowed (retype o1)).
  { unfold retype. destruct (needs_type o1); [|exact Ha1].
    now apply all_allowed_set_type. }
  assert (Ha3 : all_allowed (unref (retype o1))).
  { unfold unref. destruct (needs_ref_drop (retype o1)); [|exact Ha2].
    now apply all_allowed_del. }
  assert (Hty : Js.is_str (alist_get (unref (retype o1)) "_type") "reference" = true).
  { rewrite unref_type. unfold is_reference in Href1.
    apply Bool.orb_true_iff in Href1 as [Ht|Ht].
    - now apply retype_settles.
    - now rewrite retype_keeps_reference. }
  split.
  - unfold is_reference. rewrite Hty. apply Bool.orb_true_r.
  - rewrite (sanitize_reference_allowed Ha3).
    assert (Hn : needs_type (unref (retype o1)) = false).
    { unfold needs_type. rewrite Hty. apply Bool.andb_false_r. }
    rewrite Hn. unfold retype at 1 3. rewrite Hn.
    rewrite unref_settles. unfold unref at 1. rewrite unref_settles.
    reflexivity.
Qed.

Lemma sanitize_array (l : list json) :
  sanitizeAllReferences (JArray l)
  = (JArray (map (fun x => fst (sanitizeAllReferences x)) l),
     list_sum (map (fun x => snd (sanitizeAllReferences x)) l)).
Proof. simpl. rewrite !map_map. reflexivity. Qed.

Lemma sanitize_plain_object (o : object) :
  is_reference o = false ->
  sanitizeAllReferences (JObject o)
  = (JObject (map (fun kv => (fst kv, fst (sanitizeAllReferences (snd kv)))) o),
     list_sum (map (fun kv => snd (sanitizeAllReferences (snd kv))) o)).
Proof.
  intros H. simpl. rewrite H. rewrite !map_map. f_equal.
  - f_equal. apply map_ext. intros [k x]. reflexivity.
  - f_equal. apply map_ext. intros [k x]. reflexivity.
Qed.

Lemma sanitize_reference_object (o : object) :
  is_reference o = true ->
  sanitizeAllReferences (JObject o)
  = (JObject (fst (sanitize_reference o)), snd (sanitize_reference o)).
Proof.
  intros H. simpl. rewrite H. now destruct (sanitize_reference o).
Qed.

(** A pass keeps the kind of every value: what was falsy stays falsy and
    what was the string ['reference'] stays so. *)
Lemma sanitize_truthy (v : json) :
  Js.truthy (fst (sanitizeAllReferences v)) = Js.truthy v.
Proof.
  destruct v; try reflexivity. simpl.
  destruct (is_reference props); [destruct (sanitize_reference props)|]; reflexivity.
Qed.

Lemma sanitize_is_str (v : json) lit :
  Js.is_str (Some (fst (sanitizeAllReferences v))) lit = Js.is_str (Some v) lit.
Proof.
  destruct v; try reflexivity. simpl.
  destruct (is_reference props); [destruct (sanitize_reference props)|]; reflexivity.
Qed.

Lemma alist_get_map_values (o : object) (f : json -> json) k :
  alist_get (map (fun kv => (fst kv, f (snd kv))) o) k
  = option_map f (alist_get o k).
Proof.
  induction o as [|[k0 v0] o IH]; simpl; [reflexivity|].
  destruct (String.eqb k0 k); [reflexivity|exact IH].
Qed.

Lemma sanitize_plain_stays_plain (o : object) :
  is_reference o = false ->
  is_reference
    (map (fun kv => (fst kv, fst (sanitizeAllReferences (snd kv)))) o) = false.
Proof.
  unfold is_reference. intros H.
  rewrite !(alist_get_map_values o (fun x => fst (sanitizeAllReferences x))).
  destruct (alist_get o "_ref") as [r|]; destruct (alist_get o "_type") as [t|];
    cbn [option_map Js.truthy_opt] in *;
    rewrite ?sanitize_truthy, ?sanitize_is_str; exact H.
Qed.

(** C3: a second pass of [sanitizeAllReferences] returns the graph that
    the first pass left and counts no change. *)
Theorem sanitizeAllReferences_idempotent :
  forall obj,
    sanitizeAllReferences (fst (sanitizeAllReferences obj))
    = (fst (sanitizeAllReferences obj), 0).
Proof.
  induction obj as [| b | n | s | l IH | o IH] using json_induction;
    try reflexivity.
  - rewrite sanitize_array. cbn [fst]. rewrite sanitize_array.
    rewrite !map_map. f_equal.
    + f_equal. apply map_ext_in. intros x Hx.
      rewrite (proj1 (Forall_forall _ _) IH x Hx). reflexivity.
    + induction IH as [|x l Hx _ IHl]; simpl; [reflexivity|].
      rewrite Hx. simpl. exact IHl.
  - destruct (is_reference o) eqn:Href.
    + rewrite (sanitize_reference_object _ Href). cbn [fst].
      destruct (sanitize_reference_stable _ Href) as [Href' Hstable].
      rewrite (sanitize_reference_object _ Href'), Hstable. reflexivity.
    + rewrite (sanitize_plain_object _ Href). cbn [fst].
      rewrite (sanitize_plain_object _ (sanitize_plain_stays_plain _ Href)).
      rewrite !map_map. cbn [fst snd]. f_equal.
      * f_equal. apply map_ext_in. intros kv Hkv.
        rewrite (proj1 (Forall_forall _ _) IH kv Hkv). reflexivity.
      * clear Href. induction IH as [|kv o' Hkv _ IHo]; simpl; [reflexivity|].
        rewrite Hkv. simpl. exact IHo.
Qed.

(** ** The orchestrator *)

Lemma validateContentBlocks_valid_no_warnings host blocks s warnings :
  validateContentBlocks host blocks s = ok (true, warnings) -> warnings = [].
Proof.
  unfold validateContentBlocks.
  destruct s as [[[specs|]]|]; try discriminate.
  destruct (forEach_from (validate_block host specs) 0 blocks) as [e|ws];
    simpl; [discriminate|].
  intros H. injection H as Hlen <-.
  now apply Nat.eqb_eq, length_zero_iff_nil in Hlen.
Qed.

Lemma fallbackBlock_returns host st :
  exists fb st', fallbackBlock host st = inr (fb, st').
Proof. do 2 eexists. reflexivity. Qed.

(** The pipeline with the fail-safe block: whatever the reply was, a
    success carries a non-empty block list that the validator reports
    compliant. *)
Lemma generateContent_success_is_compliant host request content u st :
  success (generateContent host request content u st) = true ->
  exists blocks,
    data (generateContent host request content u st) = Some blocks
    /\ blocks <> []
    /\ validateContentBlocks host blocks (schema request) = ok (true, []).
Proof.
  unfold generateContent.
  destruct (negb (fst (validateGenerationRequest request))); [discriminate|].
  unfold process_reply, bind.
  destruct (existsb is_null (blocks_of (extractJSON host content)));
    [discriminate|].
  cbn [ret].
  destruct (applyAutoFixes host (blocks_of (extractJSON host content))
              (schema request) st) as [e|[fixed0 st0]]; [discriminate|].
  assert (Htail : forall fixedBlocks st1,
             fixedBlocks <> [] ->
             success
               match
                 match lift (validateContentBlocks host fixedBlocks (schema request)) st1 with
                 | inl e => inl e
                 | inr (a0, st'0) =>
                     (if negb (fst a0)
                      then ret (failure ("Auto-fix failed: " +++ Str.join "; " (snd a0)))
                      else ret {| success := true; data := Some fixedBlocks;
                                  error := None; usage := Some u |}) st'0
                 end
               with
               | inl e => caught e
               | inr (response, _) => response
               end = true ->
             exists blocks,
               data
                 match
                   match lift (validateContentBlocks host fixedBlocks (schema request)) st1 with
                   | inl e => inl e
                   | inr (a0, st'0) =>
                       (if negb (fst a0)
                        then ret (failure ("Auto-fix failed: " +++ Str.join "; " (snd a0)))
                        else ret {| success := true; data := Some fixedBlocks;
                                    error := None; usage := Some u |}) st'0
                   end
                 with
                 | inl e => caught e
                 | inr (response, _) => response
                 end = Some blocks
               /\ blocks <> []
               /\ validateContentBlocks host blocks (schema request) = ok (true, [])).
  { intros fixedBlocks st1 Hne. unfold lift.
    destruct (validateContentBlocks host fixedBlocks (schema request))
      as [e|[valid warnings]] eqn:Ev; [discriminate|].
    destruct valid; simpl; [|discriminate].
    intros _. exists fixedBlocks. repeat split; try assumption.
    now rewrite (validateContentBlocks_valid_no_warnings _ _ _ Ev) in Ev. }
  destruct (Nat.eqb (length fixed0) 0) eqn:El.
  - destruct (fallbackBlock_returns host st0) as (fb & st' & Hfb).
    rewrite Hfb. cbn [ret]. apply Htail. discriminate.
  - cbn [ret]. apply Htail. intros ->. discriminate.
Qed.

(** C1: the second copy of the pipeline has no fail-safe block.  For a
    valid request and a reply that [JSON.parse] rejects (the empty string,
    unbalanced braces, no brace at all) it returns a success whose block
    list is empty. *)
Theorem legacy_generateContent_empty_success :
  forall host request content u st,
    fst (validateGenerationRequest request) = true ->
    JSON_parse host content = None ->
    Legacy.generateContent host request content u st
    = {| success := true; data := Some []; error := None; usage := Some u |}.
Proof.
  intros host request content u st Hvalid Hparse.
  unfold Legacy.generateContent. rewrite Hvalid. cbn [negb].
  unfold Legacy.process_reply. rewrite Hparse.
  unfold validateGenerationRequest in Hvalid.
  destruct (schema request) as [[[specs|]]|]; try discriminate.
  reflexivity.
Qed.

Lemma legacy_generateContent_empty_success_witness :
  Legacy.generateContent Samples.host Samples.request "not json at all"
    Samples.usage0 0
  = {| success := true; data := Some []; error := None;
       usage := Some Samples.usage0 |}.
Proof.
  exact (legacy_generateContent_empty_success Samples.host Samples.request
           "not json at all" Samples.usage0 0 eq_refl eq_refl).
Defined.

(** ** The regular expression engine on expressions without groups,
    lookahead, lazy stars and anchors *)

Module RegexFacts.
Import Regex.

Inductive plain : regex -> Prop :=
| plain_eps : plain Eps
| plain_chr p : plain (Chr p)
| plain_seq r1 r2 : plain r1 -> plain r2 -> plain (Seq r1 r2)
| plain_alt r1 r2 : plain r1 -> plain r2 -> plain (Alt r1 r2)
| plain_star r : plain r -> plain (Star r).

(** The language of a plain expression. *)
Inductive matches : regex -> input -> Prop :=
| m_eps : matches Eps []
| m_chr p a : p a = true -> matches (Chr p) [a]
| m_seq r1 r2 w1 w2 :
    matches r1 w1 -> matches r2 w2 -> matches (Seq r1 r2) (w1 ++ w2)
| m_alt_l r1 r2 w : matches r1 w -> matches (Alt r1 r2) w
| m_alt_r r1 r2 w : matches r2 w -> matches (Alt r1 r2) w
| m_star_nil r : matches (Star r) []
| m_star_cons r w1 w2 :
    w1 <> [] -> matches r w1 -> matches (Star r) w2 ->
    matches (Star r) (w1 ++ w2).

Section Star.
Variable A : Type.
Variable r : regex.
Variable step : input -> captures -> (input -> captures -> option A) -> option A.

Hypothesis step_sound :
  forall s c k x,
    step s c k = Some x ->
    exists w s', s = w ++ s' /\ matches r w /\ k s' c = Some x.

Lemma star_loop_sound n :
  forall s c k x,
    star_loop step true n s c k = Some x ->
    exists w s', s = w ++ s' /\ matches (Star r) w /\ k s' c = Some x.
Proof.
  induction n as [|n IH]; intros s c k x H; simpl in H.
  - exists [], s. repeat split; [constructor|exact H].
  - destruct (step s c _) as [y|] eqn:Es.
    + injection H as ->.
      apply step_sound in Es as (w1 & s1 & -> & Hw1 & Hk).
      destruct (length s1 <? length (w1 ++ s1))%nat eqn:El; [|discriminate].
      apply IH in Hk as (w2 & s2 & -> & Hw2 & Hk).
      exists (w1 ++ w2), s2. split; [now rewrite app_assoc|]. split; [|exact Hk].
      apply m_star_cons; try assumption.
      intros ->. apply Nat.ltb_lt in El. simpl in El. lia.
    + exists [], s. repeat split; [constructor|exact H].
Qed.

Hypothesis step_complete :
  forall w, matches r w ->
  forall s' c k, k s' c <> None -> step (w ++ s') c k <> None.


End Star.

Lemma rmatch_sound r :
  plain r ->
  forall A s c (k : input -> captures -> option A) x,
    rmatch r s c k = Some x ->
    exists w s', s = w ++ s' /\ matches r w /\ k s' c = Some x.
Proof.
  induction 1 as [|p|r1 r2 _ IH1 _ IH2|r1 r2 _ IH1 _ IH2|r1 _ IH1];
    intros A s c k x H; simpl in H.
  - exists [], s. repeat split; [constructor|exact H].
  - destruct s as [|a s]; [discriminate|].
    destruct (p a) eqn:Ep; [|discriminate].
    exists [a], s. repeat split; [now constructor|exact H].
  - apply IH1 in H as (w1 & s1 & -> & Hw1 & H).
    apply IH2 in H as (w2 & s2 & -> & Hw2 & H).
    exists (w1 ++ w2), s2. split; [now rewrite app_assoc|].
    split; [now constructor|exact H].
  - destruct (rmatch r1 s c k) as [y|] eqn:E1.
    + injection H as ->. apply IH1 in E1 as (w & s' & -> & Hw & Hk).
      exists w, s'. repeat split; [now apply m_alt_l|exact Hk].
    + apply IH2 in H as (w & s' & -> & Hw & Hk).
      exists w, s'. repeat split; [now apply m_alt_r|exact Hk].
  - apply star_loop_sound with (r := r1) in H; [exact H|].
    intros s0 c0 k0 x0. apply IH1.
Qed.


End RegexFacts.

(** ** The boundary scan of the extractor *)

Module BoundaryFacts.
Import Regex RegexFacts BraceScan.

Definition is_brace (c : ascii) : bool := Ascii.eqb c "{" || Ascii.eqb c "}".







(** [scan] reads through a balanced run without a change of depth. *)
Definition prepend (g : input) (x : option (input * input)) : option (input * input) :=
  match x with
  | Some (m, r) => Some (g ++ m, r)
  | None => None
  end.

Definition transparent (g : input) : Prop :=
  forall d t, scan d (g ++ t) = prepend g (scan d t).

Lemma transparent_nil : transparent [].
Proof. intros d t. simpl. now destruct (scan d t) as [[m r]|]. Qed.

Lemma transparent_app g1 g2 :
  transparent g1 -> transparent g2 -> transparent (g1 ++ g2).
Proof.
  intros H1 H2 d t. rewrite <- app_assoc, H1, H2.
  destruct (scan d t) as [[m r]|]; simpl; [|reflexivity].
  now rewrite app_assoc.
Qed.

Lemma transparent_chr c : is_brace c = false -> transparent [c].
Proof.
  unfold is_brace. intros Hc d t. apply Bool.orb_false_iff in Hc as [Ho Hc].
  simpl. rewrite Ho, Hc. now destruct (scan d t) as [[m r]|].
Qed.

Lemma transparent_group g :
  transparent g -> transparent ("{"%char :: g ++ ["}"%char]).
Proof.
  intros Hg d t. simpl. rewrite <- app_assoc, Hg. simpl.
  destruct (scan d t) as [[m r]|]; simpl; [|reflexivity].
  now rewrite <- app_assoc.
Qed.

Lemma star_transparent r g :
  (forall w, matches r w -> transparent w) ->
  matches (Star r) g -> transparent g.
Proof.
  intros Hr Hm. remember (Star r) as sr eqn:E.
  induction Hm; try discriminate; injection E as ->.
  - apply transparent_nil.
  - apply transparent_app; auto.
Qed.

Lemma not_brace_transparent w : matches not_brace w -> transparent w.
Proof.
  unfold not_brace. intros H. inversion H; subst.
  apply transparent_chr. unfold is_brace.
  now apply Bool.negb_true_iff.
Qed.

Lemma braces_inv inner w :
  matches (braces inner) w ->
  exists g, w = "{"%char :: g ++ ["}"%char] /\ matches (Star inner) g.
Proof.
  unfold braces, chr. intros H.
  inversion H as [| |? ? w1 w23 H1 H23| | | |]; subst.
  inversion H23 as [| |? ? w2 w3 H2 H3| | | |]; subst.
  inversion H1 as [|? a Ha| | | | |]; subst.
  inversion H3 as [|? b Hb| | | | |]; subst.
  apply Ascii.eqb_eq in Ha, Hb. subst a b.
  exists w2. split; [reflexivity|assumption].
Qed.

Lemma braces_transparent inner :
  (forall x, matches inner x -> transparent x) ->
  forall w, matches (braces inner) w -> transparent w.
Proof.
  intros Hin w H. apply braces_inv in H as (g & -> & Hg).
  apply transparent_group. now apply star_transparent with (r := inner).
Qed.

Lemma alt_transparent r1 r2 :
  (forall x, matches r1 x -> transparent x) ->
  (forall x, matches r2 x -> transparent x) ->
  forall w, matches (Alt r1 r2) w -> transparent w.
Proof. intros H1 H2 w H. inversion H; subst; auto. Qed.

(** Every text that [jsonBoundaryRe] matches is an opening brace, a
    balanced run and the closing brace. *)
Lemma jsonBoundaryRe_sound w :
  matches jsonBoundaryRe w ->
  exists g, w = "{"%char :: g ++ ["}"%char] /\ transparent g.
Proof.
  unfold jsonBoundaryRe. intros H.
  apply braces_inv in H as (g & -> & Hg). exists g. split; [reflexivity|].
  apply star_transparent with (2 := Hg).
  apply alt_transparent; [apply not_brace_transparent|].
  apply braces_transparent.
  apply alt_transparent; [apply not_brace_transparent|].
  apply braces_transparent. apply not_brace_transparent.
Qed.






Lemma jsonBoundaryRe_plain : plain jsonBoundaryRe.
Proof. unfold jsonBoundaryRe, braces, chr, not_brace. repeat constructor. Qed.




Lemma firstn_matched (o rest : input) :
  firstn (length (o ++ rest) - length rest) (o ++ rest) = o.
Proof.
  rewrite length_app, Nat.add_sub. rewrite firstn_app, Nat.sub_diag.
  rewrite firstn_all. simpl. apply app_nil_r.
Qed.


End BoundaryFacts.




(** The third attempt of the cascade is [boundaryDetection] whenever the
    attempts before it left [parsed] empty. *)
Lemma attempt_boundary host content :
  attempt host None (boundaryText content) = boundaryDetection host content.
Proof.
  unfold attempt, boundaryDetection. simpl.
  destruct (boundaryText content) as [text|]; [|reflexivity].
  now destruct (JSON_parse host text).
Qed.

(** ** The pipelines on a reply that is no JSON at all *)

Example generateContent_falls_back :
  exists fb,
    generateContent Samples.host Samples.request "not json at all" Samples.usage0 0
    = {| success := true; data := Some [fb]; error := None;
         usage := Some Samples.usage0 |}
    /\ Js.prop fb "_type" = Some (JString "pageSection").
Proof. eexists. split; reflexivity. Qed.

Example generateContent_rejects_null_entry :
  generateContent Samples.host Samples.request Samples.reply_null_provider
    Samples.usage0 0
  = failure "Cannot read properties of null (reading '_type')".
Proof. reflexivity. Qed.

Example legacy_generateContent_accepts_no_block :
  Legacy.generateContent Samples.host Samples.request Samples.reply_empty
    Samples.usage0 0
  = {| success := true; data := Some []; error := None;
       usage := Some Samples.usage0 |}.
Proof. reflexivity. Qed.

(** * Further properties of the repair functions *)

(** ** What the reference sanitizer leaves behind *)

(** A normalised reference: only the allowed keys and, when [_ref] is
    truthy, a string [_ref] under [_type: 'reference']. *)
Definition reference_ok (o : object) : Prop :=
  all_allowed o
  /\ (Js.truthy_opt (alist_get o "_ref") = true ->
      Js.is_string (alist_get o "_ref") = true
      /\ Js.is_str (alist_get o "_type") "reference" = true).

(** Every object that the traversal reaches and takes for a reference is
    normalised. *)
Inductive refs_clean : json -> Prop :=
| clean_null : refs_clean JNull
| clean_bool b : refs_clean (JBool b)
| clean_number n : refs_clean (JNumber n)
| clean_string s : refs_clean (JString s)
| clean_array l : Forall refs_clean l -> refs_clean (JArray l)
| clean_ref o : is_reference o = true -> reference_ok o -> refs_clean (JObject o)
| clean_plain o :
    is_reference o = false -> Forall (fun kv => refs_clean (snd kv)) o ->
    refs_clean (JObject o).

Lemma sanitize_reference_ok (o : object) :
  reference_ok (fst (sanitize_reference o)).
Proof.
  rewrite sanitize_reference_unfold. cbv zeta.
  set (o1 := filter (fun kv => allowed (fst kv)) o).
  assert (Ha2 : all_allowed (retype o1)).
  { unfold retype. destruct (needs_type o1); [|apply all_allowed_filter].
    apply all_allowed_set_type, all_allowed_filter. }
  split.
  - unfold unref. destruct (needs_ref_drop (retype o1)); [|exact Ha2].
    now apply all_allowed_del.
  - intros Ht. pose proof (unref_truthy _ Ht) as Ht2. split.
    + pose proof (unref_settles (retype o1)) as Hs. unfold needs_ref_drop in Hs.
      rewrite Ht in Hs. simpl in Hs. now apply Bool.negb_false_iff in Hs.
    + rewrite unref_type. apply retype_settles. now rewrite retype_ref in Ht2.
Qed.

(** X1: after [sanitizeAllReferences] every reference object that the
    traversal reaches carries only [_type], [_ref], [_key], [_weak], and a
    truthy [_ref] is a string under [_type: 'reference']. *)
Theorem sanitizeAllReferences_normalises :
  forall obj, refs_clean (fst (sanitizeAllReferences obj)).
Proof.
  induction obj as [| b | n | s | l IH | o IH] using json_induction;
    try solve [simpl; constructor].
  - rewrite sanitize_array. cbn [fst]. constructor.
    apply Forall_forall. intros x Hx. apply in_map_iff in Hx as (y & <- & Hy).
    exact (proj1 (Forall_forall _ _) IH y Hy).
  - destruct (is_reference o) eqn:Href.
    + rewrite (sanitize_reference_object _ Href). cbn [fst].
      apply clean_ref.
      * exact (proj1 (sanitize_reference_stable _ Href)).
      * apply sanitize_reference_ok.
    + rewrite (sanitize_plain_object _ Href). cbn [fst].
      apply clean_plain; [now apply sanitize_plain_stays_plain|].
      apply Forall_forall. intros kv Hkv.
      apply in_map_iff in Hkv as (kv0 & <- & Hin). cbn [snd].
      exact (proj1 (Forall_forall _ _) IH kv0 Hin).
Qed.

Lemma list_sum_zero (l : list nat) :
  list_sum l = 0 -> Forall (fun n => n = 0) l.
Proof.
  induction l as [|n l IH]; simpl; [constructor|].
  intros H. constructor; [lia|apply IH; lia].
Qed.

Lemma sanitize_reference_zero (o : object) :
  snd (sanitize_reference o) = 0 -> fst (sanitize_reference o) = o.
Proof.
  unfold sanitize_reference. cbv zeta. cbn [fst snd].
  set (invalidKeys := filter _ (map fst o)).
  destruct invalidKeys as [|k ks] eqn:Ek; [|simpl; discriminate].
  cbn [fold_left length Nat.ltb Nat.leb].
  destruct (Js.truthy_opt (alist_get o "_ref")
            && negb (Js.is_str (alist_get o "_type") "reference"));
    [simpl; discriminate|].
  destruct (Js.truthy_opt (alist_get o "_ref")
            && negb (Js.is_string (alist_get o "_ref")));
    [simpl; discriminate|reflexivity].
Qed.

(** X2: a count of zero means that the graph was not touched: when
    [sanitizeAllReferences] returns 0, the graph after the call is the
    graph before it. *)
Theorem sanitizeAllReferences_zero_is_identity :
  forall obj,
    snd (sanitizeAllReferences obj) = 0 ->
    fst (sanitizeAllReferences obj) = obj.
Proof.
  induction obj as [| b | n | s | l IH | o IH] using json_induction;
    try reflexivity.
  - rewrite sanitize_array. cbn [fst snd]. intros H. f_equal.
    apply list_sum_zero in H.
    induction IH as [|x l Hx _ IHl]; [reflexivity|].
    simpl in H. inversion H; subst. simpl. f_equal; auto.
  - destruct (is_reference o) eqn:Href.
    + rewrite (sanitize_reference_object _ Href). cbn [fst snd].
      intros H. f_equal. now apply sanitize_reference_zero.
    + rewrite (sanitize_plain_object _ Href). cbn [fst snd]. intros H. f_equal.
      apply list_sum_zero in H. clear Href.
      induction IH as [|[k x] o' Hx _ IHo]; [reflexivity|].
      simpl in H. inversion H; subst. simpl. f_equal; [|auto].
      f_equal. now apply Hx.
Qed.

Lemma sanitizeAllReferences_zero_is_identity_witness :
  fst (sanitizeAllReferences Samples.hero) = Samples.hero.
Proof.
  exact (sanitizeAllReferences_zero_is_identity Samples.hero eq_refl).
Defined.

(** ** removeProblematicFields *)

Lemma alist_del_absent {A} (o : list (string * A)) k :
  alist_has o k = false -> alist_del o k = o.
Proof.
  unfold alist_has, alist_del.
  induction o as [|[k0 v0] o IH]; simpl; [reflexivity|].
  destruct (String.eqb k0 k); simpl; [discriminate|].
  intros H. now rewrite IH.
Qed.

Lemma removeProblematicFields_fold (fields : list string) :
  forall (obj : object) (n : nat),
    fst (fold_left
           (fun (acc : object * nat) field =>
              if alist_has (fst acc) field
              then (alist_del (fst acc) field, S (snd acc))
              else acc)
           fields (obj, n))
    = fold_left (fun acc key => alist_del acc key) fields obj
    /\ snd (fold_left
              (fun (acc : object * nat) field =>
                 if alist_has (fst acc) field
                 then (alist_del (fst acc) field, S (snd acc))
                 else acc)
              fields (obj, n)) <= n + length fields.
Proof.
  induction fields as [|f fields IH]; intros obj n; simpl; [split; [reflexivity|lia]|].
  destruct (alist_has obj f) eqn:Eh.
  - destruct (IH (alist_del obj f) (S n)) as [H1 H2]. split; [exact H1|].
    rewrite Nat.add_succ_r. exact H2.
  - destruct (IH obj n) as [H1 H2]. rewrite (alist_del_absent _ _ Eh).
    split; [exact H1|]. rewrite Nat.add_succ_r. now apply Nat.le_le_succ_r.
Qed.

Lemma alist_get_filter_out {A} (o : list (string * A)) k (keep : string -> bool) :
  keep k = false ->
  alist_get (filter (fun kv => keep (fst kv)) o) k = None.
Proof.
  intros Hk. induction o as [|[k0 v0] o IH]; simpl; [reflexivity|].
  destruct (keep k0) eqn:E0; simpl; [|exact IH].
  destruct (String.eqb k0 k) eqn:E; [|exact IH].
  apply String.eqb_eq in E. congruence.
Qed.

(** X3: after [removeProblematicFields] none of the listed fields is in
    the object, every other property keeps its value, and the returned
    count is at most the number of listed fields. *)
Theorem removeProblematicFields_removes_only_listed :
  forall obj fieldsToRemove,
    let r := removeProblematicFields obj fieldsToRemove in
    (forall f, In f fieldsToRemove -> alist_has (fst r) f = false)
    /\ (forall k, ~ In k fieldsToRemove -> alist_get (fst r) k = alist_get obj k)
    /\ snd r <= length fieldsToRemove.
Proof.
  intros obj fields. cbv zeta. unfold removeProblematicFields.
  destruct (removeProblematicFields_fold fields obj 0) as [Hf Hc].
  rewrite Hf, alist_del_fold. repeat split.
  - intros f Hin. unfold alist_has.
    rewrite (@alist_get_filter_out _ obj f
               (fun k => negb (existsb (String.eqb k) fields))); [reflexivity|].
    apply Bool.negb_false_iff, existsb_exists. exists f.
    split; [exact Hin|apply String.eqb_refl].
  - intros k Hk.
    apply alist_get_filter with (keep := fun k => negb (existsb (String.eqb k) fields)).
    apply Bool.negb_true_iff.
    destruct (existsb (String.eqb k) fields) eqn:E; [|reflexivity].
    apply existsb_exists in E as (x & Hx & Hxk). apply String.eqb_eq in Hxk.
    now subst x.
  - exact Hc.
Qed.

(** ** sanitizeReferenceOnlyArray *)

(** A reference as [sanitizeReferenceOnlyArray] rebuilds it. *)
Definition rebuilt_reference (r : json) : Prop :=
  exists s K W,
    r = JObject ([("_type", jstr "reference"); ("_ref", JString s)] ++ K ++ W)
    /\ s <> EmptyString
    /\ (K = [] \/ exists k, K = [("_key", k)] /\ Js.truthy k = true)
    /\ (W = [] \/ exists w, W = [("_weak", w)] /\ Js.truthy w = true).

(** What a caller can rely on: a reference object with only allowed keys
    and a non-empty string [_ref]. *)
Definition reference_entry (r : json) : Prop :=
  bare_reference r = true
  /\ (exists s, Js.prop r "_ref" = Some (JString s) /\ s <> EmptyString)
  /\ (exists o, r = JObject o /\ all_allowed o).

Lemma clean_reference_rebuilt item r :
  clean_reference item = Some r -> rebuilt_reference r.
Proof.
  unfold clean_reference.
  destruct (negb (Js.truthy item) || negb (String.eqb (Js.typeof item) "object"));
    [discriminate|].
  destruct (Js.prop item "_ref") as [[| | |s| |]|]; try discriminate.
  assert (Hshape : forall K W,
            K = match Js.prop item "_key" with
                | Some k => if Js.truthy k then [("_key", k)] else []
                | None => []
                end ->
            W = match Js.prop item "_weak" with
                | Some w => if Js.truthy w then [("_weak", w)] else []
                | None => []
                end ->
            s <> EmptyString ->
            rebuilt_reference
              (JObject ([("_type", jstr "reference"); ("_ref", JString s)] ++ K ++ W))).
  { intros K W HK HW Hs. exists s, K, W. repeat split; try assumption.
    - destruct (Js.prop item "_key") as [k|]; [|now left].
      destruct (Js.truthy k) eqn:Ek; [right; eauto|now left].
    - destruct (Js.prop item "_weak") as [w|]; [|now left].
      destruct (Js.truthy w) eqn:Ew; [right; eauto|now left]. }
  destruct (Js.is_str (Js.prop item "_type") "reference"
            && negb (String.eqb (Str.trim s) EmptyString)) eqn:Ea.
  - intros H. injection H as <-. apply Hshape; try reflexivity.
    intros ->. apply Bool.andb_true_iff in Ea as [_ Ea]. discriminate.
  - destruct (negb (String.eqb s EmptyString)) eqn:Es; [|discriminate].
    intros H. injection H as <-. apply Hshape; try reflexivity.
    intros ->. discriminate.
Qed.

Lemma rebuilt_reference_fixpoint r :
  rebuilt_reference r -> clean_reference r = Some r.
Proof.
  intros (s & K & W & -> & Hs & HK & HW).
  apply String.eqb_neq in Hs.
  unfold clean_reference.
  destruct HK as [->|(k & -> & Hk)]; destruct HW as [->|(w & -> & Hw)];
    cbn; rewrite ?Hk, ?Hw, Hs; cbn;
    destruct (negb (String.eqb (Str.trim s) EmptyString)); reflexivity.
Qed.

Lemma rebuilt_reference_entry r : rebuilt_reference r -> reference_entry r.
Proof.
  intros (s & K & W & -> & Hs & HK & HW). repeat split.
  - exists s. split; [reflexivity|exact Hs].
  - eexists. split; [reflexivity|].
    destruct HK as [->|(k & -> & Hk)]; destruct HW as [->|(w & -> & Hw)];
      repeat constructor.
Qed.

Lemma rebuilt_reference_sanitized r :
  rebuilt_reference r -> sanitizeAllReferences r = (r, 0).
Proof.
  intros Hr. destruct (rebuilt_reference_entry Hr) as (Hb & (s & Hs & _) & (o & -> & Ha)).
  unfold bare_reference in Hb. simpl in Hb, Hs.
  assert (Href : is_reference o = true).
  { unfold is_reference. rewrite Hb. apply Bool.orb_true_r. }
  rewrite (sanitize_reference_object _ Href), (sanitize_reference_allowed Ha).
  unfold needs_type, retype, needs_type. rewrite Hb, Bool.andb_false_r.
  unfold unref, needs_ref_drop. rewrite Hs. simpl.
  rewrite Bool.andb_false_r. reflexivity.
Qed.

Definition kept_references (cleaned : list (option json)) : list json :=
  flat_map (fun c => match c with Some r => [r] | None => [] end) cleaned.

Definition dropped_entries (cleaned : list (option json)) : nat :=
  length (filter (fun c => match c with Some _ => false | None => true end) cleaned).

Lemma kept_plus_dropped (cleaned : list (option json)) :
  length (kept_references cleaned) + dropped_entries cleaned = length cleaned.
Proof.
  unfold kept_references, dropped_entries.
  induction cleaned as [|[r|] cleaned IH]; simpl; lia.
Qed.

Lemma kept_references_rebuilt (l : list json) :
  Forall rebuilt_reference (kept_references (map clean_reference l)).
Proof.
  unfold kept_references. induction l as [|x l IH]; simpl; [constructor|].
  destruct (clean_reference x) as [r|] eqn:E; simpl; [|exact IH].
  constructor; [exact (clean_reference_rebuilt _ E)|exact IH].
Qed.

Lemma kept_references_fixpoint (refs : list json) :
  Forall rebuilt_reference refs ->
  map clean_reference refs = map Some refs.
Proof.
  induction 1 as [|r refs Hr _ IH]; simpl; [reflexivity|].
  now rewrite (rebuilt_reference_fixpoint Hr), IH.
Qed.

Lemma kept_references_map_Some (refs : list json) :
  kept_references (map Some refs) = refs
  /\ dropped_entries (map Some refs) = 0.
Proof.
  unfold kept_references, dropped_entries.
  induction refs as [|r refs [IH1 IH2]]; simpl; [split; reflexivity|].
  rewrite IH1. split; [reflexivity|exact IH2].
Qed.

(** X4: on an array, [sanitizeReferenceOnlyArray] returns only reference
    objects with allowed keys and a non-empty string [_ref]; kept and
    dropped entries add up to the original count; and [fixed] is set
    exactly when an entry was dropped, so that an array whose entries were
    only rebuilt is reported as not fixed.  On anything else it reports
    nothing fixed and returns no value. *)
Theorem sanitizeReferenceOnlyArray_counts :
  forall v,
    let r := sanitizeReferenceOnlyArray v in
    (forall l, v = JArray l ->
       exists refs,
         ref_value r = Some refs
         /\ Forall reference_entry refs
         /\ originalCount r = length l
         /\ validCount r = length refs
         /\ validCount r + droppedCount r = originalCount r
         /\ (ref_fixed r = true <-> 0 < droppedCount r))
    /\ (Js.isArray (Some v) = false ->
        ref_fixed r = false /\ ref_value r = None).
Proof.
  intros v. cbv zeta. split.
  - intros l ->. unfold sanitizeReferenceOnlyArray.
    fold (kept_references (map clean_reference l)).
    fold (dropped_entries (map clean_reference l)).
    cbn [ref_value ref_fixed originalCount validCount droppedCount].
    pose proof (kept_plus_dropped (map clean_reference l)) as Hsum.
    rewrite length_map in Hsum.
    eexists. split; [reflexivity|]. split.
    { eapply Forall_impl; [|apply kept_references_rebuilt].
      intros a. apply rebuilt_reference_entry. }
    repeat split; try reflexivity; try assumption.
    + intros H. apply Bool.orb_true_iff in H as [H|H].
      * apply Bool.negb_true_iff, Nat.eqb_neq in H. lia.
      * now apply Nat.ltb_lt in H.
    + intros H. apply Bool.orb_true_iff. right. now apply Nat.ltb_lt.
  - destruct v; simpl; try discriminate; intros _; split; reflexivity.
Qed.

(** X5: the array that [sanitizeReferenceOnlyArray] returns is settled: a
    second call returns the same array with nothing dropped and nothing
    fixed, and the deep sanitizer [sanitizeAllReferences] changes nothing
    in it. *)
Theorem sanitizeReferenceOnlyArray_settled :
  forall l refs,
    ref_value (sanitizeReferenceOnlyArray (JArray l)) = Some refs ->
    sanitizeReferenceOnlyArray (JArray refs)
    = {| ref_fixed := false; ref_value := Some refs;
         originalCount := length refs; validCount := length refs;
         droppedCount := 0 |}
    /\ sanitizeAllReferences (JArray refs) = (JArray refs, 0).
Proof.
  intros l refs H. simpl in H. injection H as <-.
  fold (kept_references (map clean_reference l)).
  pose proof (kept_references_rebuilt l) as Hr.
  set (refs := kept_references (map clean_reference l)) in *.
  split.
  - unfold sanitizeReferenceOnlyArray.
    fold (kept_references (map clean_reference refs)).
    fold (dropped_entries (map clean_reference refs)).
    rewrite (kept_references_fixpoint Hr).
    destruct (kept_references_map_Some refs) as [-> ->].
    rewrite Nat.eqb_refl. reflexivity.
  - rewrite sanitize_array. f_equal.
    + f_equal. induction Hr as [|r rs Hr1 _ IH]; simpl; [reflexivity|].
      now rewrite (rebuilt_reference_sanitized Hr1), IH.
    + induction Hr as [|r rs Hr1 _ IH]; simpl; [reflexivity|].
      now rewrite (rebuilt_reference_sanitized Hr1), IH.
Qed.

Lemma sanitizeReferenceOnlyArray_settled_witness :
  sanitizeAllReferences (JArray [Samples.ref_to "faq-1"])
  = (JArray [Samples.ref_to "faq-1"], 0).
Proof.
  exact (proj2 (@sanitizeReferenceOnlyArray_settled
                  [Samples.ref_to "faq-1"; JNull] [Samples.ref_to "faq-1"]
                  eq_refl)).
Defined.

Lemma reference_entry_validates host fieldName blockType lbl itemIndex r :
  reference_entry r ->
  String.eqb blockType "providerList" && String.eqb fieldName "providers" = false ->
  validate_reference_item host fieldName blockType lbl itemIndex r = ok [].
Proof.
  intros (Hb & (s & Hs & Hne) & (o & -> & _)) Hp.
  unfold bare_reference in Hb. unfold validate_reference_item.
  cbn [Js.is_string Js.typeof String.eqb negb js_get rbind ok].
  simpl in Hb, Hs. cbn [Js.prop]. rewrite Hb, Hs, Hp. simpl.
  apply String.eqb_neq in Hne. now rewrite Hne.
Qed.

Lemma forEach_from_all_clean {A} (f : nat -> A -> result (list string)) l :
  (forall i a, In a l -> f i a = ok []) ->
  forall n, forEach_from f n l = ok [].
Proof.
  induction l as [|a l IH]; intros H n; simpl; [reflexivity|].
  rewrite (H n a (or_introl eq_refl)). simpl.
  rewrite IH; [reflexivity|]. intros i x Hx. apply H. now right.
Qed.

(** X6: the array that [sanitizeReferenceOnlyArray] returns passes the
    validator's check of an 'array of references' field without a warning
    (the provider rules of providerList.providers apart). *)
Theorem sanitized_reference_array_validates :
  forall host l refs fieldName blockType blockIndex,
    ref_value (sanitizeReferenceOnlyArray (JArray l)) = Some refs ->
    String.eqb blockType "providerList" && String.eqb fieldName "providers" = false ->
    validateFieldType host fieldName (JArray refs) "array of references"
      blockType blockIndex = ok [].
Proof.
  intros host l refs fieldName blockType blockIndex H Hp.
  simpl in H. injection H as <-.
  unfold validateFieldType. cbn [String.eqb Ascii.eqb Bool.eqb].
  apply forEach_from_all_clean. intros i a Ha.
  apply reference_entry_validates; [|exact Hp].
  apply rebuilt_reference_entry.
  exact (proj1 (Forall_forall _ _) (kept_references_rebuilt l) a Ha).
Qed.

Lemma sanitized_reference_array_validates_witness :
  validateFieldType Samples.host "items" (JArray [Samples.ref_to "faq-1"])
    "array of references" "faqGroup" 0 = ok [].
Proof.
  exact (@sanitized_reference_array_validates Samples.host
           [JString "x"; Samples.ref_to "faq-1"] [Samples.ref_to "faq-1"]
           "items" "faqGroup" 0 eq_refl eq_refl).
Defined.

(** ** enforceFieldType *)

Definition unchanged_result (r : FixResult) : Prop :=
  fixed r = false /\ dropped r = false /\ value r = None.

(** X7: coercion settles in one step: whenever [enforceFieldType] reports
    a fix, it returns a replacement value, does not drop the field, and a
    second call on the replacement under the same declared type reports
    neither a fix nor a drop and reads no clock. *)
Theorem enforceFieldType_settles :
  forall host fieldName v expectedType blockType blockIndex st r st',
    enforceFieldType host fieldName v expectedType blockType blockIndex st
    = inr (r, st') ->
    fixed r = true ->
    dropped r = false
    /\ exists x,
         value r = Some x
         /\ forall st2,
              exists r2,
                enforceFieldType host fieldName x expectedType blockType blockIndex st2
                = inr (r2, st2)
                /\ unchanged_result r2.
Proof.
  intros host fieldName v expectedType blockType blockIndex st r st'.
  unfold enforceFieldType.
  destruct (String.eqb expectedType "string") eqn:Es.
  { apply String.eqb_eq in Es. subst expectedType.
    destruct v; cbn [ret]; unfold bind, lift;
      try (destruct (_toPlainString host (JArray items)) as [e|flattened];
           [discriminate|];
           destruct (negb (String.eqb flattened EmptyString)
                     && negb (String.eqb (Str.trim flattened) EmptyString)));
      intros H; injection H as <- _; cbn [fixed dropped value];
      try discriminate; intros _;
      (split; [reflexivity|]); eexists; (split; [reflexivity|]);
      intros st2; eexists; (split; [reflexivity|]); repeat split. }
  destruct (Str.includes "array" expectedType) eqn:Ea.
  { destruct v; cbn [ret]; unfold bind;
      try destruct (Str.includes "Portable Text" expectedType);
      try destruct (Str.includes "strings" expectedType);
      cbn [portableTextBlock now random36 ret bind];
      intros H; injection H as <- _; cbn [fixed dropped value];
      try discriminate; intros _;
      (split; [reflexivity|]); eexists; (split; [reflexivity|]);
      intros st2; eexists; (split; [reflexivity|]); repeat split. }
  destruct (String.eqb expectedType "number") eqn:En.
  { destruct v; cbn [ret];
      try destruct (negb (PrimFloat.is_nan (Number_ofString host s)));
      intros H; injection H as <- _; cbn [fixed dropped value];
      try discriminate; intros _;
      (split; [reflexivity|]); eexists; (split; [reflexivity|]);
      intros st2; eexists; (split; [reflexivity|]); repeat split. }
  cbn [ret]. intros H. injection H as <- _. discriminate.
Qed.

Lemma enforceFieldType_settles_witness :
  exists x,
    x = JArray [JString "DK1"]
    /\ exists r2,
         enforceFieldType Samples.host "regions" x "array of strings" "livePriceGraph" 0 7
         = inr (r2, 7)
         /\ unchanged_result r2.
Proof.
  destruct (@enforceFieldType_settles Samples.host "regions" (JString "DK1")
              "array of strings" "livePriceGraph" 0 0 _ _ eq_refl eq_refl)
    as [_ (x & Hx & Hsettled)].
  injection Hx as <-. eexists. split; [reflexivity|]. exact (Hsettled 7).
Defined.

(** The value of a field after the loop of [applyAutoFixes] applied a
    result that did not drop it. *)
Definition coerced_value (v : json) (r : FixResult) : json :=
  match value r with Some x => x | None => v end.

(** X8: under the declared types 'string' and 'number' coercion and
    validation agree: when [enforceFieldType] returns without dropping the
    field, the value the field then has passes [validateFieldType] for
    that type without a warning. *)
Theorem enforced_scalar_validates :
  forall host fieldName v expectedType blockType blockIndex st r st',
    expectedType = "string" \/ expectedType = "number" ->
    enforceFieldType host fieldName v expectedType blockType blockIndex st
    = inr (r, st') ->
    dropped r = false ->
    validateFieldType host fieldName (coerced_value v r) expectedType
      blockType blockIndex = ok [].
Proof.
  intros host fieldName v expectedType blockType blockIndex st r st' [->| ->];
    unfold enforceFieldType; cbn [String.eqb Ascii.eqb Bool.eqb Str.includes
                                  String.prefix orb ret];
    destruct v; unfold bind, lift, ret;
    try (destruct (_toPlainString host (JArray items)) as [e|flattened];
         [discriminate|];
         destruct (negb (String.eqb flattened EmptyString)
                   && negb (String.eqb (Str.trim flattened) EmptyString)));
    try destruct (negb (PrimFloat.is_nan (Number_ofString host s)));
    intros H; injection H as <- _; cbn [dropped]; intros Hd;
    try discriminate; reflexivity.
Qed.

Lemma enforced_scalar_validates_witness :
  validateFieldType Samples.host "title" (JString "true") "string" "hero" 0 = ok [].
Proof.
  exact (@enforced_scalar_validates Samples.host "title" (JBool true) "string"
           "hero" 0 0 _ _ (or_introl eq_refl) eq_refl eq_refl).
Defined.

(** ** fixFaqGroup, continued *)

Lemma alist_set_same_value {A} (o : list (string * A)) k v :
  alist_get o k = Some v -> alist_set o k v = o.
Proof.
  induction o as [|[k0 v0] o IH]; simpl; [discriminate|].
  destruct (String.eqb k0 k) eqn:E.
  - intros H. injection H as ->. apply String.eqb_eq in E. now subst k0.
  - intros H. now rewrite IH.
Qed.

Lemma filter_all {A} (f : A -> bool) (l : list A) :
  Forall (fun x => f x = true) l -> filter f l = l.
Proof.
  induction 1 as [|x l Hx _ IH]; simpl; [reflexivity|]. now rewrite Hx, IH.
Qed.

Lemma filter_all_none {A} (f : A -> bool) (l : list A) :
  Forall (fun x => f x = true) l -> filter (fun x => negb (f x)) l = [].
Proof.
  induction 1 as [|x l Hx _ IH]; simpl; [reflexivity|]. now rewrite Hx.
Qed.

Lemma filter_split_length {A} (f : A -> bool) (l : list A) :
  length (filter (fun x => negb (f x)) l) = length l - length (filter f l).
Proof.
  induction l as [|x l IH]; cbn [filter length]; [reflexivity|].
  pose proof (filter_length_le f l).
  destruct (f x); cbn [negb length]; lia.
Qed.

(** What [fixFaqGroup] leaves in the block. *)
Lemma fixFaqGroup_post host block blockIndex st block' counts st' :
  fixFaqGroup host block blockIndex st = inr (block', counts, st') ->
  exists items,
    alist_get block' "faqItems" = Some (JArray items)
    /\ items <> []
    /\ Forall (fun item => valid_inline_faqItem item = true) items.
Proof.
  unfold fixFaqGroup.
  set (block1 := if Js.isArray (alist_get block "faqItems") then block
                 else alist_set block "faqItems" (JArray [])).
  set (items0 := match alist_get block1 "faqItems" with
                 | Some (JArray l) => l
                 | _ => []
                 end).
  set (kept := filter valid_inline_faqItem items0).
  destruct (Nat.eqb (length kept) 0) eqn:Ek.
  - unfold bind, now, random36, ret. intros H. injection H as <- _ _.
    rewrite alist_get_set_same. eexists. split; [reflexivity|].
    apply Nat.eqb_eq, length_zero_iff_nil in Ek. rewrite Ek.
    split; [discriminate|]. constructor; [reflexivity|constructor].
  - unfold ret. intros H. injection H as <- _ _.
    rewrite alist_get_set_same. exists kept. split; [reflexivity|]. split.
    + intros E. rewrite E in Ek. discriminate.
    + apply Forall_forall. intros x Hx. subst kept.
      apply filter_In in Hx. tauto.
Qed.

(** X9: when [faqItems] holds at least one valid inline record,
    [fixFaqGroup] keeps exactly the valid inline records, in their order,
    adds no placeholder, reads no clock, and counts one violation for each
    entry it dropped. *)
Theorem fixFaqGroup_keeps_valid_records :
  forall host block blockIndex st l,
    alist_get block "faqItems" = Some (JArray l) ->
    filter valid_inline_faqItem l <> [] ->
    exists counts,
      fixFaqGroup host block blockIndex st
      = inr (alist_set block "faqItems" (JArray (filter valid_inline_faqItem l)),
             counts, st)
      /\ violationsDetected counts = length l - length (filter valid_inline_faqItem l)
      /\ (fixesApplied counts = 0 <-> filter valid_inline_faqItem l = l).
Proof.
  intros host block blockIndex st l Hget Hne. unfold fixFaqGroup.
  rewrite Hget. cbn [Js.isArray]. rewrite Hget.
  destruct (Nat.eqb (length (filter valid_inline_faqItem l)) 0) eqn:Ek.
  { apply Nat.eqb_eq, length_zero_iff_nil in Ek. contradiction. }
  unfold ret. eexists. split; [reflexivity|]. cbn [violationsDetected fixesApplied].
  split; [apply filter_split_length|].
  destruct (Nat.eqb (length (filter valid_inline_faqItem l)) (length l)) eqn:El;
    cbn [negb Nat.add]; split; intros H; try discriminate; try reflexivity.
  - apply Nat.eqb_eq in El. clear -El.
    induction l as [|x l IH]; simpl in *; [reflexivity|].
    pose proof (filter_length_le valid_inline_faqItem l).
    destruct (valid_inline_faqItem x); simpl in El; [f_equal; apply IH; lia|lia].
  - rewrite H, Nat.eqb_refl in El. discriminate.
Qed.

Lemma fixFaqGroup_keeps_valid_records_witness :
  exists counts,
    fixFaqGroup Samples.host
      [("_type", jstr "faqGroup");
       ("faqItems", JArray [Samples.ref_to "faq-1";
                            JObject [("_type", jstr "faqItem");
                                     ("question", jstr "Q");
                                     ("answer", JArray [])]])] 0 0
    = inr ([("_type", jstr "faqGroup");
            ("faqItems", JArray [JObject [("_type", jstr "faqItem");
                                          ("question", jstr "Q");
                                          ("answer", JArray [])]])],
           counts, 0)
    /\ violationsDetected counts = 1.
Proof.
  destruct (@fixFaqGroup_keeps_valid_records Samples.host
              [("_type", jstr "faqGroup");
               ("faqItems", JArray [Samples.ref_to "faq-1";
                                    JObject [("_type", jstr "faqItem");
                                             ("question", jstr "Q");
                                             ("answer", JArray [])]])]
              0 0 _ eq_refl) as (counts & Hrun & Hv & _).
  - discriminate.
  - exists counts. split; [exact Hrun|exact Hv].
Defined.

(** X10: [fixFaqGroup] is idempotent: on the block that it returned, a
    second call returns the same block, applies no fix, detects no
    violation and reads no clock. *)
Theorem fixFaqGroup_idempotent :
  forall host block blockIndex st block' counts st',
    fixFaqGroup host block blockIndex st = inr (block', counts, st') ->
    forall blockIndex2 st2,
      fixFaqGroup host block' blockIndex2 st2
      = inr (block', {| fixesApplied := 0; violationsDetected := 0 |}, st2).
Proof.
  intros host block blockIndex st block' counts st' H blockIndex2 st2.
  apply fixFaqGroup_post in H as (items & Hget & Hne & Hvalid).
  unfold fixFaqGroup. rewrite Hget. cbn [Js.isArray]. rewrite Hget.
  rewrite (filter_all _ Hvalid), (filter_all_none _ Hvalid).
  rewrite (alist_set_same_value _ _ Hget), Nat.eqb_refl.
  destruct items as [|x items]; [congruence|]. reflexivity.
Qed.

Lemma fixFaqGroup_idempotent_witness :
  exists block',
    fixFaqGroup Samples.host block' 3 9
    = inr (block', {| fixesApplied := 0; violationsDetected := 0 |}, 9).
Proof.
  eexists.
  refine (@fixFaqGroup_idempotent Samples.host Samples.faqGroup_two_refs 0 0
            _ _ _ _ 3 9).
  vm_compute. reflexivity.
Defined.

(** ** fixProviderList, continued *)

Lemma provider_entry_ok_passes i p :
  provider_entry_ok i p -> provider_invalid i p = ok false.
Proof.
  intros (Hb & Hv & H0). unfold bare_reference in Hb.
  destruct p; simpl in Hb; try discriminate.
  unfold provider_invalid. cbn [Js.typeof String.eqb Ascii.eqb Bool.eqb negb js_get rbind ok].
  cbn [Js.prop] in *. rewrite Hb, Hv. cbn [negb orb].
  unfold isValidProviderId, Js.includes in Hv.
  destruct (alist_get props "_ref") as [[| | |s| |]|] eqn:Er; try discriminate.
  assert (Hs : Js.truthy_opt (Some (JString s)) = true).
  { simpl. destruct (String.eqb s EmptyString) eqn:E; [|reflexivity].
    apply String.eqb_eq in E. subst s. discriminate. }
  rewrite Hs. cbn [negb orb]. f_equal.
  destruct (Nat.eqb i 0) eqn:Ei; [|reflexivity].
  apply Nat.eqb_eq in Ei. specialize (H0 Ei). injection H0 as ->.
  reflexivity.
Qed.

Lemma some_from_all_pass l :
  forall i,
    (forall k p, nth_error l k = Some p -> provider_entry_ok (i + k) p) ->
    some_from provider_invalid i l = ok false.
Proof.
  induction l as [|p l IH]; intros i H; simpl; [reflexivity|].
  rewrite (provider_entry_ok_passes (i := i) (p := p)).
  - simpl. apply IH. intros k q Hk.
    replace (S i + k) with (i + S k) by lia. now apply H.
  - specialize (H 0 p eq_refl). now rewrite Nat.add_0_r in H.
Qed.

(** X11: [fixProviderList] is idempotent: on the block that it returned, a
    second call finds nothing to fix, returns the same block with both
    counts zero and reads no clock. *)
Theorem fixProviderList_idempotent :
  forall host block blockIndex st block' counts st',
    fixProviderList host block blockIndex st = inr (block', counts, st') ->
    forall blockIndex2 st2,
      fixProviderList host block' blockIndex2 st2
      = inr (block', {| fixesApplied := 0; violationsDetected := 0 |}, st2).
Proof.
  intros host block blockIndex st block' counts st' H blockIndex2 st2.
  apply fixProviderList_post in H as (l & Hget & Hne & Hok).
  unfold fixProviderList, bind, lift, providers_need_fix. rewrite Hget.
  destruct l as [|p l]; [congruence|]. cbn [length Nat.eqb].
  rewrite (some_from_all_pass (p :: l) 0 Hok). reflexivity.
Qed.

Lemma fixProviderList_idempotent_witness :
  exists block',
    fixProviderList Samples.host block' 3 9
    = inr (block', {| fixesApplied := 0; violationsDetected := 0 |}, 9).
Proof.
  eexists.
  refine (@fixProviderList_idempotent Samples.host
            [("_type", jstr "providerList"); ("providers", JArray [JString "Norlys"])]
            0 0 _ _ _ _ 3 9).
  vm_compute. reflexivity.
Defined.

Lemma provider_entry_validates host lbl k p :
  provider_entry_ok k p ->
  validate_reference_item host "providers" "providerList" lbl k p = ok [].
Proof.
  intros (Hb & Hv & H0). unfold bare_reference in Hb.
  destruct p; simpl in Hb; try discriminate.
  unfold validate_reference_item.
  cbn [Js.is_string Js.typeof String.eqb Ascii.eqb Bool.eqb negb js_get rbind ok andb].
  cbn [Js.prop] in *. rewrite Hb, Hv.
  unfold isValidProviderId, Js.includes in Hv.
  destruct (alist_get props "_ref") as [[| | |s| |]|] eqn:Er; try discriminate.
  assert (Hs : Js.truthy_opt (Some (JString s)) = true).
  { simpl. destruct (String.eqb s EmptyString) eqn:E; [|reflexivity].
    apply String.eqb_eq in E. subst s. discriminate. }
  rewrite Hs. cbn [negb orb app].
  destruct (Nat.eqb k 0) eqn:Ek; [|reflexivity].
  apply Nat.eqb_eq in Ek. specialize (H0 Ek). injection H0 as ->.
  reflexivity.
Qed.

Lemma forEach_from_providers host lbl l :
  forall i,
    (forall k p, nth_error l k = Some p -> provider_entry_ok (i + k) p) ->
    forEach_from (validate_reference_item host "providers" "providerList" lbl) i l
    = ok [].
Proof.
  induction l as [|p l IH]; intros i H; simpl; [reflexivity|].
  rewrite (provider_entry_validates host lbl (k := i) (p := p)).
  - simpl. rewrite IH; [reflexivity|]. intros k q Hk.
    replace (S i + k) with (i + S k) by lia. now apply H.
  - specialize (H 0 p eq_refl). now rewrite Nat.add_0_r in H.
Qed.

(** X12: the repairer and the validator agree on providers: the array
    that [fixProviderList] leaves in the block passes the validator's
    check of providerList.providers (reference shape, Vindstød first,
    every identifier allow-listed) without a warning. *)
Theorem fixed_providers_validate :
  forall host block blockIndex st block' counts st' index,
    fixProviderList host block blockIndex st = inr (block', counts, st') ->
    exists l,
      alist_get block' "providers" = Some (JArray l)
      /\ validateFieldType host "providers" (JArray l) "array of references"
           "providerList" index = ok [].
Proof.
  intros host block blockIndex st block' counts st' index H.
  apply fixProviderList_post in H as (l & Hget & Hne & Hok).
  exists l. split; [exact Hget|].
  unfold validateFieldType. cbn [String.eqb Ascii.eqb Bool.eqb].
  now apply forEach_from_providers.
Qed.

Lemma fixed_providers_validate_witness :
  exists l,
    validateFieldType Samples.host "providers" (JArray l) "array of references"
      "providerList" 0 = ok []
    /\ length l = 4.
Proof.
  destruct (@fixed_providers_validate Samples.host
              [("_type", jstr "providerList")] 0 0 _ _ _ 0 eq_refl)
    as (l & Hget & Hval).
  exists l. split; [exact Hval|].
  simpl in Hget. injection Hget as <-. reflexivity.
Defined.

(** ** applyAutoFixes: what every returned block has *)

(** The two system properties that the validator asks of every block. *)
Definition sys_key (k : string) : Prop := k = "_type" \/ k = "_key".

(** A block as [applyAutoFixes] returns it: an object whose [_type] and
    [_key] are non-empty strings. *)
Definition typed_and_keyed (b : json) : Prop :=
  exists o ty key,
    b = JObject o
    /\ alist_get o "_type" = Some (JString ty) /\ ty <> EmptyString
    /\ alist_get o "_key" = Some (JString key) /\ key <> EmptyString.

(** A block that the loop of [applyAutoFixes] does not drop. *)
Definition typed_block (blk : json) : bool :=
  match blk with
  | JObject o =>
      match alist_get o "_type" with
      | Some (JString ty) => negb (String.eqb ty EmptyString)
      | _ => false
      end
  | _ => false
  end.

Lemma sys_key_underscore k : sys_key k -> Str.startsWith "_" k = true.
Proof. intros [->| ->]; reflexivity. Qed.

Lemma startsWith_differs k f :
  Str.startsWith "_" k = true -> Str.startsWith "_" f = false -> f <> k.
Proof. intros Hk Hf ->. congruence. Qed.

Lemma enforce_field_system host blockSchema ty idx b fieldName st b' st' k :
  enforce_field host blockSchema ty idx b fieldName st = inr (b', st') ->
  Str.startsWith "_" k = true ->
  alist_get b' k = alist_get b k.
Proof.
  unfold enforce_field. intros H Hk.
  destruct (Str.startsWith "_" fieldName) eqn:Ef.
  { injection H as <- _. reflexivity. }
  pose proof (startsWith_differs Hk Ef) as Hne.
  destruct (alist_get blockSchema fieldName) as [expectedType|];
    [|injection H as <- _; reflexivity].
  destruct (alist_get b fieldName) as [currentValue|];
    [|injection H as <- _; reflexivity].
  destruct (String.eqb expectedType EmptyString);
    [injection H as <- _; reflexivity|].
  unfold bind in H.
  destruct (enforceFieldType host fieldName currentValue expectedType ty idx st)
    as [e|[r st1]]; [discriminate|].
  destruct (fixed r).
  - destruct (value r); injection H as <- _;
      [now apply alist_get_set_other|reflexivity].
  - destruct (dropped r); injection H as <- _;
      [now apply alist_get_del_other|reflexivity].
Qed.

Lemma enforce_fields_system host blockSchema ty idx keys :
  forall b st b' st' k,
    foldM (enforce_field host blockSchema ty idx) keys b st = inr (b', st') ->
    Str.startsWith "_" k = true ->
    alist_get b' k = alist_get b k.
Proof.
  induction keys as [|f keys IH]; intros b st b' st' k H Hk; simpl in H.
  - injection H as <- _. reflexivity.
  - unfold bind in H.
    destruct (enforce_field host blockSchema ty idx b f st) as [e|[b1 st1]] eqn:E;
      [discriminate|].
    rewrite (IH _ _ _ _ _ H Hk). eapply enforce_field_system; eassumption.
Qed.

Lemma sanitize_reference_fields_string fields :
  forall (b : object) k s,
    alist_get b k = Some (JString s) ->
    alist_get (sanitize_reference_fields fields b) k = Some (JString s).
Proof.
  unfold sanitize_reference_fields.
  induction fields as [|f fields IH]; intros b k s H; simpl; [exact H|].
  apply IH.
  destruct (alist_get b f) as [v|] eqn:Ef; [|exact H].
  destruct (ref_fixed (sanitizeReferenceOnlyArray v)) eqn:Efix; [|exact H].
  destruct (ref_value (sanitizeReferenceOnlyArray v)) as [refs|]; [|exact H].
  destruct (String.eqb f k) eqn:Efk.
  - apply String.eqb_eq in Efk. subst f. rewrite H in Ef. injection Ef as <-.
    discriminate.
  - apply String.eqb_neq in Efk. now rewrite alist_get_set_other.
Qed.

Lemma fixFaqGroup_other host block blockIndex st block' counts st' k :
  fixFaqGroup host block blockIndex st = inr (block', counts, st') ->
  k <> "faqItems" ->
  alist_get block' k = alist_get block k.
Proof.
  unfold fixFaqGroup. intros H Hk.
  assert (Hne : "faqItems" <> k) by congruence.
  assert (H1 : alist_get (if Js.isArray (alist_get block "faqItems") then block
                          else alist_set block "faqItems" (JArray [])) k
               = alist_get block k).
  { destruct (Js.isArray (alist_get block "faqItems")); [reflexivity|].
    now apply alist_get_set_other. }
  destruct (Nat.eqb _ 0).
  - unfold bind, now, random36, ret in H. injection H as <- _ _.
    now rewrite !alist_get_set_other.
  - unfold ret in H. injection H as <- _ _. now rewrite alist_get_set_other.
Qed.

Lemma fixProviderList_other host block blockIndex st block' counts st' k :
  fixProviderList host block blockIndex st = inr (block', counts, st') ->
  k <> "providers" ->
  alist_get block' k = alist_get block k.
Proof.
  unfold fixProviderList, bind, lift. intros H Hk.
  destruct (providers_need_fix block) as [e|[|]]; [discriminate| |].
  - destruct (mapM _ _ st) as [e|[refs st1]]; [discriminate|].
    unfold ret in H. injection H as <- _ _.
    apply alist_get_set_other. congruence.
  - unfold ret in H. injection H as <- _ _. reflexivity.
Qed.

Lemma clean_nested_other (b : object) field k :
  k <> field -> alist_get (clean_nested b field) k = alist_get b k.
Proof.
  intros Hk. unfold clean_nested.
  destruct (alist_get b field) as [[| | | |items|]|]; try reflexivity.
  destruct (negb _); [|reflexivity].
  apply alist_get_set_other. congruence.
Qed.

Lemma remove_icon_other (b : object) k :
  k <> "icon" ->
  alist_get (fst (removeProblematicFields b ["icon"])) k = alist_get b k.
Proof.
  intros Hk. unfold removeProblematicFields. cbn [fold_left fst snd].
  destruct (alist_has b "icon"); [|reflexivity].
  apply alist_get_del_other. congruence.
Qed.

Lemma append_nonempty (s t : string) : s <> EmptyString -> s +++ t <> EmptyString.
Proof. destruct s; [congruence|discriminate]. Qed.

Lemma key_fixed host b ty st b1 st1 :
  ty <> EmptyString ->
  (if key_needs_fix b
   then (fun st : nat =>
           match now host st with
           | inl e => inl e
           | inr (a, st') =>
               match random36 host 2 6 st' with
               | inl e => inl e
               | inr (a0, st'0) =>
                   ret (alist_set b "_key" (jstr (ty +++ "-" +++ a +++ "-" +++ a0))) st'0
               end
           end)
   else ret b) st = inr (b1, st1) ->
  alist_get b1 "_type" = alist_get b "_type"
  /\ exists key, alist_get b1 "_key" = Some (JString key) /\ key <> EmptyString.
Proof.
  intros Hty. unfold key_needs_fix.
  destruct (alist_get b "_key") as [[| | |k| |]|] eqn:Ek;
    try (unfold now, random36, ret; intros H; injection H as <- _;
         split; [now apply alist_get_set_other|];
         rewrite alist_get_set_same; eexists; split; [reflexivity|];
         now apply append_nonempty).
  destruct (String.eqb k EmptyString) eqn:Ee; cbn [orb].
  - unfold now, random36, ret. intros H. injection H as <- _.
    split; [now apply alist_get_set_other|].
    rewrite alist_get_set_same. eexists. split; [reflexivity|].
    now apply append_nonempty.
  - destruct (String.eqb (Str.trim k) EmptyString).
    + unfold now, random36, ret. intros H. injection H as <- _.
      split; [now apply alist_get_set_other|].
      rewrite alist_get_set_same. eexists. split; [reflexivity|].
      now apply append_nonempty.
    + unfold ret. intros H. injection H as <- _. split; [reflexivity|].
      exists k. split; [exact Ek|]. now apply String.eqb_neq.
Qed.

(** The block loop keeps the string value of [_type] and of [_key]. *)
Lemma fix_block_typed_and_keyed host sft rof idx blk st b' st' :
  fix_block host sft rof idx blk st = inr (Some b', st') ->
  typed_and_keyed b'.
Proof.
  unfold fix_block.
  destruct (negb (Js.truthy blk) || negb (String.eqb (Js.typeof blk) "object"));
    [discriminate|].
  destruct (deep_copy blk) as [| | | | |b] eqn:Edc; try discriminate.
  destruct (alist_get b "_type") as [[| | |ty| |]|] eqn:Ety; try discriminate.
  destruct (String.eqb ty EmptyString) eqn:Ee; [discriminate|].
  apply String.eqb_neq in Ee.
  unfold bind. intros H.
  match type of H with
  | match ?m st with _ => _ end = _ =>
      destruct (m st) as [e|[b1 st1]] eqn:E1; [discriminate|]
  end.
  apply (@key_fixed host b ty st b1 st1 Ee) in E1 as [Ht1 (key & Hk1 & Hkey)].
  rewrite Ety in Ht1.
  match type of H with
  | match enforce_fields host ?bs ty idx ?b3 st1 with _ => _ end = _ =>
      destruct (enforce_fields host bs ty idx b3 st1) as [e|[b4 st4]] eqn:E4;
      [discriminate|];
      assert (H3 : forall k s, sys_key k ->
                     alist_get b1 k = Some (JString s) ->
                     alist_get b3 k = Some (JString s))
  end.
  { intros k s Hsys Hget.
    assert (Hk_icon : k <> "icon") by (destruct Hsys as [->| ->]; discriminate).
    assert (Hk_thumb : "customThumbnail" <> k)
      by (destruct Hsys as [->| ->]; discriminate).
    destruct (String.eqb ty "videoSection"
              && alist_has (fst (removeProblematicFields b1 ["icon"])) "customThumbnail").
    - rewrite alist_get_del_other by exact Hk_thumb.
      now rewrite remove_icon_other.
    - now rewrite remove_icon_other. }
  assert (H4 : forall k s, sys_key k ->
                 alist_get b1 k = Some (JString s) ->
                 alist_get b4 k = Some (JString s)).
  { intros k s Hsys Hget. unfold enforce_fields in E4.
    erewrite enforce_fields_system;
      [now apply H3|exact E4|now apply sys_key_underscore]. }
  clear H3 E4.
  set (b5 := sanitize_reference_fields _ b4) in H.
  assert (H5 : forall k s, sys_key k ->
                 alist_get b1 k = Some (JString s) ->
                 alist_get b5 k = Some (JString s)).
  { intros k s Hsys Hget. apply sanitize_reference_fields_string. now apply H4. }
  clearbody b5. clear H4.
  match type of H with
  | match ?m st4 with _ => _ end = _ =>
      destruct (m st4) as [e|[b6 st6]] eqn:E6; [discriminate|]
  end.
  assert (H6 : forall k s, sys_key k ->
                 alist_get b1 k = Some (JString s) ->
                 alist_get b6 k = Some (JString s)).
  { intros k s Hsys Hget. destruct (String.eqb ty "faqGroup").
    - destruct (fixFaqGroup host b5 idx st4) as [e|[[b6' c6] st6']] eqn:Ef;
        [discriminate|].
      unfold ret in E6. injection E6 as <- _. cbn [fst].
      erewrite fixFaqGroup_other; [now apply H5|exact Ef|].
      destruct Hsys as [->| ->]; discriminate.
    - unfold ret in E6. injection E6 as <- _. now apply H5. }
  clear H5 E6.
  match type of H with
  | match ?m st6 with _ => _ end = _ =>
      destruct (m st6) as [e|[b7 st7]] eqn:E7; [discriminate|]
  end.
  assert (H7 : forall k s, sys_key k ->
                 alist_get b1 k = Some (JString s) ->
                 alist_get b7 k = Some (JString s)).
  { intros k s Hsys Hget. destruct (String.eqb ty "providerList").
    - destruct (fixProviderList host b6 idx st6) as [e|[[b7' c7] st7']] eqn:Ef;
        [discriminate|].
      unfold ret in E7. injection E7 as <- _. cbn [fst].
      erewrite fixProviderList_other; [now apply H6|exact Ef|].
      destruct Hsys as [->| ->]; discriminate.
    - unfold ret in E7. injection E7 as <- _. now apply H6. }
  clear H6 E7.
  unfold ret in H. injection H as <- _.
  eexists _, ty, key. split; [reflexivity|].
  assert (H9 : forall k s, sys_key k ->
                 alist_get b1 k = Some (JString s) ->
                 alist_get
                   (if String.eqb ty "featureList"
                    then clean_nested
                           (if String.eqb ty "valueProposition"
                            then clean_nested b7 "items" else b7) "features"
                    else if String.eqb ty "valueProposition"
                         then clean_nested b7 "items" else b7) k
                 = Some (JString s)).
  { intros k s Hsys Hget.
    assert (Hi : k <> "items") by (destruct Hsys as [->| ->]; discriminate).
    assert (Hf : k <> "features") by (destruct Hsys as [->| ->]; discriminate).
    destruct (String.eqb ty "featureList"), (String.eqb ty "valueProposition");
      rewrite ?clean_nested_other by assumption; now apply H7. }
  repeat split; try assumption.
  - apply H9; [now left|exact Ht1].
  - apply H9; [now right|exact Hk1].
Qed.

Lemma alist_get_deep_copy (o : object) k :
  alist_get
    (map (fun kv : string * json => let (k, x) := kv in (k, deep_copy x)) o) k
  = option_map deep_copy (alist_get o k).
Proof.
  induction o as [|[k0 v0] o IH]; simpl; [reflexivity|].
  destruct (String.eqb k0 k); [reflexivity|exact IH].
Qed.

(** A block leaves the loop exactly when it is an object whose [_type] is
    a non-empty string. *)
Lemma fix_block_kept host sft rof idx blk st r st' :
  fix_block host sft rof idx blk st = inr (r, st') ->
  (if typed_block blk then exists b', r = Some b' else r = None).
Proof.
  unfold fix_block, typed_block.
  destruct blk as [|flag|n|s| |o];
    try (cbn; unfold ret; intros H; injection H as <- _; reflexivity).
  { destruct flag; cbn; unfold ret; intros H; injection H as <- _; reflexivity. }
  { cbn [Js.truthy Js.typeof negb orb].
    destruct (negb _ || negb _); cbn [deep_copy];
      [unfold ret; intros H; injection H as <- _; reflexivity|].
    destruct (PrimFloat.is_nan n || PrimFloat.is_infinity n);
      [|destruct (PrimFloat.is_zero n)];
      unfold ret; intros H; injection H as <- _; reflexivity. }
  { cbn [Js.truthy Js.typeof negb orb].
    destruct (negb _ || negb _); cbn [deep_copy];
      unfold ret; intros H; injection H as <- _; reflexivity. }
  cbn [Js.truthy Js.typeof negb orb String.eqb Ascii.eqb Bool.eqb deep_copy].
  rewrite alist_get_deep_copy.
  destruct (alist_get o "_type") as [[|flag|n|ty| |]|]; cbn [option_map deep_copy];
    try (unfold ret; intros H; injection H as <- _; reflexivity).
  { destruct (PrimFloat.is_nan n || PrimFloat.is_infinity n);
      [|destruct (PrimFloat.is_zero n)];
      unfold ret; intros H; injection H as <- _; reflexivity. }
  destruct (String.eqb ty EmptyString); cbn [negb];
    [unfold ret; intros H; injection H as <- _; reflexivity|].
  unfold bind. intros H.
  repeat match type of H with
         | match ?m ?s with _ => _ end = _ =>
             destruct (m s) as [?|[? ?]]; [discriminate|]
         end.
  unfold ret in H. injection H as <- _. eexists. reflexivity.
Qed.

Definition kept_blocks (mapped : list (option json)) : list json :=
  flat_map (fun b : option json => match b with Some b => [b] | None => [] end)
    mapped.

Lemma fix_blocks_kept host sft rof (blocks : list json) :
  forall idx st mapped st',
    mapM_from (fix_block host sft rof) idx blocks st = inr (mapped, st') ->
    Forall typed_and_keyed (kept_blocks mapped)
    /\ length (kept_blocks mapped) = length (filter typed_block blocks).
Proof.
  induction blocks as [|blk blocks IH]; intros idx st mapped st' H; simpl in H.
  - unfold ret in H. injection H as <- _. split; [constructor|reflexivity].
  - unfold bind in H.
    destruct (fix_block host sft rof idx blk st) as [e|[r st1]] eqn:E;
      [discriminate|].
    destruct (mapM_from (fix_block host sft rof) (S idx) blocks st1)
      as [e|[rs st2]] eqn:Es; [discriminate|].
    unfold ret in H. injection H as <- _.
    destruct (IH _ _ _ _ Es) as [Hall Hlen].
    pose proof (fix_block_kept _ _ _ _ _ _ E) as Hkept.
    cbn [filter]. destruct (typed_block blk).
    + destruct Hkept as [b' ->]. cbn [kept_blocks flat_map app length].
      split; [|now f_equal].
      constructor; [|exact Hall].
      eapply fix_block_typed_and_keyed; eassumption.
    + subst r. cbn [kept_blocks flat_map app]. now split.
Qed.

Lemma allowed_system k : sys_key k -> allowed k = true.
Proof. intros [->| ->]; reflexivity. Qed.

(** The final reference pass leaves a block typed and keyed: it may
    overwrite [_type] by ['reference'], and never touches [_key]. *)
Lemma sanitize_typed_and_keyed (b : json) :
  typed_and_keyed b -> typed_and_keyed (fst (sanitizeAllReferences b)).
Proof.
  intros (o & ty & key & -> & Hty & Hne & Hkey & Hkne).
  destruct (is_reference o) eqn:Eref.
  - rewrite (sanitize_reference_object _ Eref). cbn [fst].
    pose proof (sanitize_reference_unfold o) as Hu. cbn zeta in Hu.
    rewrite Hu.
    set (o1 := filter (fun kv => allowed (fst kv)) o).
    assert (Hty1 : alist_get o1 "_type" = Some (JString ty)).
    { unfold o1. rewrite alist_get_filter with (keep := allowed); auto. }
    assert (Hkey1 : alist_get o1 "_key" = Some (JString key)).
    { unfold o1. rewrite alist_get_filter with (keep := allowed); auto. }
    assert (Hr : exists ty', alist_get (retype o1) "_type" = Some (JString ty')
                             /\ ty' <> EmptyString).
    { unfold retype. destruct (needs_type o1).
      - exists "reference". rewrite alist_get_set_same. split; [reflexivity|discriminate].
      - now exists ty. }
    destruct Hr as (ty' & Hty' & Hne').
    assert (Hkey2 : alist_get (retype o1) "_key" = Some (JString key)).
    { unfold retype. destruct (needs_type o1); [|exact Hkey1].
      rewrite alist_get_set_other by discriminate. exact Hkey1. }
    exists (unref (retype o1)), ty', key. split; [reflexivity|].
    unfold unref. destruct (needs_ref_drop (retype o1)).
    + rewrite !alist_get_del_other by discriminate. now repeat split.
    + now repeat split.
  - rewrite (sanitize_plain_object _ Eref). cbn [fst].
    eexists _, ty, key. split; [reflexivity|].
    rewrite !(alist_get_map_values o (fun x => fst (sanitizeAllReferences x))).
    rewrite Hty, Hkey. now repeat split.
Qed.

(** What a run of the repair pass that returns has done. *)
Lemma applyAutoFixes_post host blocks s st out st' :
  applyAutoFixes host blocks s st = inr (out, st') ->
  Forall typed_and_keyed out
  /\ length out = length (filter typed_block blocks).
Proof.
  unfold applyAutoFixes, bind. intros H.
  destruct (mapM_from _ 0 blocks st) as [e|[mapped st1]] eqn:E; [discriminate|].
  unfold ret in H. injection H as <- _.
  destruct (fix_blocks_kept _ _ _ _ _ _ E) as [Hall Hlen].
  fold (kept_blocks mapped). split; [|now rewrite length_map].
  apply Forall_map. revert Hall. apply Forall_impl. exact sanitize_typed_and_keyed.
Qed.

(** X13: every block that the repair pass returns is an object whose
    [_type] and [_key] are non-empty strings. *)
Theorem applyAutoFixes_typed_and_keyed host blocks s st out st' :
  applyAutoFixes host blocks s st = inr (out, st') ->
  Forall typed_and_keyed out.
Proof. intros H. exact (proj1 (applyAutoFixes_post _ _ _ _ H)). Qed.

Lemma applyAutoFixes_typed_and_keyed_witness :
  exists out st',
    applyAutoFixes Samples.host
      [JNull; Samples.unknown_block; JObject Samples.faqGroup_two_refs;
       JString "hero"]
      (Some Samples.manifest) 0 = inr (out, st')
    /\ length out = 2
    /\ Forall typed_and_keyed out.
Proof.
  eexists _, _. split; [vm_compute; reflexivity|]. split; [reflexivity|].
  apply (@applyAutoFixes_typed_and_keyed Samples.host
           [JNull; Samples.unknown_block; JObject Samples.faqGroup_two_refs;
            JString "hero"]
           (Some Samples.manifest) 0 _ 6).
  vm_compute. reflexivity.
Defined.

(** X14: the repair pass drops exactly the blocks that are not objects
    with a non-empty string [_type]: it returns as many blocks as the
    reply had of that kind. *)
Theorem applyAutoFixes_drops_only_untyped host blocks s st out st' :
  applyAutoFixes host blocks s st = inr (out, st') ->
  length out = length (filter typed_block blocks).
Proof. intros H. exact (proj2 (applyAutoFixes_post _ _ _ _ H)). Qed.

Lemma applyAutoFixes_drops_only_untyped_witness :
  exists out st',
    applyAutoFixes Samples.host
      [JArray []; Samples.hero; JObject [("_type", JNumber PrimFloat.one)];
       Samples.pageSection; JObject [("_type", JString EmptyString)]]
      (Some Samples.manifest) 0 = inr (out, st')
    /\ length out = 2.
Proof.
  eexists _, _. split; [vm_compute; reflexivity|].
  apply (@applyAutoFixes_drops_only_untyped Samples.host
           [JArray []; Samples.hero; JObject [("_type", JNumber PrimFloat.one)];
            Samples.pageSection; JObject [("_type", JString EmptyString)]]
           (Some Samples.manifest) 0 _ 0).
  vm_compute. reflexivity.
Defined.

(** ** generateContent: the shape of every response *)

Lemma fallbackBlock_typed_and_keyed host st fb st' :
  fallbackBlock host st = inr (fb, st') -> typed_and_keyed fb.
Proof.
  unfold fallbackBlock, bind, now, random36, ret. intros H. injection H as <- _.
  eexists _, "pageSection", _. split; [reflexivity|].
  repeat split; try reflexivity; discriminate.
Qed.

Lemma caught_message e :
  exists msg, error (caught e) = Some msg /\ msg <> EmptyString.
Proof.
  unfold caught, failure. cbn [error].
  destruct (String.eqb (message_of e) EmptyString) eqn:E.
  - eexists. split; [reflexivity|discriminate].
  - eexists. split; [reflexivity|]. now apply String.eqb_neq.
Qed.

(** A response of one of the two shapes that [generateContent] builds. *)
Definition success_response host (request : GenerationRequest) (u : Usage)
    (r : GenerationResponse) : Prop :=
  success r = true /\ error r = None /\ usage r = Some u
  /\ exists blocks,
       data r = Some blocks /\ blocks <> []
       /\ Forall typed_and_keyed blocks
       /\ validateContentBlocks host blocks (schema request) = ok (true, []).

Definition failure_response (r : GenerationResponse) : Prop :=
  success r = false /\ data r = None /\ usage r = None
  /\ exists msg, error r = Some msg /\ msg <> EmptyString.

(** X15: whatever the request and the reply, [generateContent] answers
    with one of two shapes.  A success has no error, the usage of the
    call, and a non-empty list of blocks that all carry a non-empty
    string [_type] and [_key] and that the validator reports compliant
    without a warning.  A failure has no data and no usage, and an error
    message that is not empty. *)
Theorem generateContent_response_shape host request content u st :
  success_response host request u (generateContent host request content u st)
  \/ failure_response (generateContent host request content u st).
Proof.
  assert (Hfail : forall msg, msg <> EmptyString -> failure_response (failure msg)).
  { intros msg Hmsg. repeat split. now exists msg. }
  assert (Hcaught : forall e, failure_response (caught e)).
  { intros e. repeat split. apply caught_message. }
  unfold generateContent.
  destruct (negb (fst (validateGenerationRequest request))).
  { right. apply Hfail. discriminate. }
  unfold process_reply, bind.
  destruct (existsb is_null (blocks_of (extractJSON host content))).
  { right. apply Hcaught. }
  cbn [ret].
  destruct (applyAutoFixes host (blocks_of (extractJSON host content))
              (schema request) st) as [e|[fixed0 st0]] eqn:Efix.
  { right. apply Hcaught. }
  apply applyAutoFixes_post in Efix as [Hall _].
  assert (Htail : forall fixedBlocks st1,
             fixedBlocks <> [] -> Forall typed_and_keyed fixedBlocks ->
             let r :=
               match
                 match lift (validateContentBlocks host fixedBlocks (schema request)) st1 with
                 | inl e => inl e
                 | inr (a0, st'0) =>
                     (if negb (fst a0)
                      then ret (failure ("Auto-fix failed: " +++ Str.join "; " (snd a0)))
                      else ret {| success := true; data := Some fixedBlocks;
                                  error := None; usage := Some u |}) st'0
                 end
               with
               | inl e => caught e
               | inr (response, _) => response
               end in
             success_response host request u r \/ failure_response r).
  { intros fixedBlocks st1 Hne Hkeyed. unfold lift.
    destruct (validateContentBlocks host fixedBlocks (schema request))
      as [e|[valid warnings]] eqn:Ev; cbn zeta.
    { right. apply Hcaught. }
    destruct valid; cbn [fst snd negb ret].
    - left. repeat split. exists fixedBlocks. repeat split; try assumption.
      now rewrite (validateContentBlocks_valid_no_warnings _ _ _ Ev) in Ev.
    - right. apply Hfail. discriminate. }
  destruct (Nat.eqb (length fixed0) 0) eqn:El.
  - destruct (fallbackBlock host st0) as [e|[fb st1]] eqn:Efb.
    { right. apply Hcaught. }
    cbn [ret]. apply Htail; [discriminate|].
    constructor; [|constructor]. eapply fallbackBlock_typed_and_keyed; eassumption.
  - cbn [ret]. apply Htail; [|exact Hall]. intros ->. discriminate.
Qed.

(** ** Boundary detection: what the located text is *)

Module BoundarySound.
Import Regex RegexFacts BraceScan BoundaryFacts.

(** [shallow n g]: reading [g] raises the nesting by at most [n]. *)
Definition shallow (n : nat) (g : input) : Prop :=
  forall d t, depth_from d (g ++ t) <= Nat.max (d + n) (depth_from d t).

Lemma shallow_nil n : shallow n [].
Proof. intros d t. simpl. lia. Qed.

Lemma shallow_app n g1 g2 : shallow n g1 -> shallow n g2 -> shallow n (g1 ++ g2).
Proof.
  intros H1 H2 d t. rewrite <- app_assoc.
  specialize (H1 d (g2 ++ t)). specialize (H2 d t). lia.
Qed.

Lemma shallow_chr n c : is_brace c = false -> shallow n [c].
Proof.
  unfold is_brace. intros Hc d t. apply Bool.orb_false_iff in Hc as [Ho Hc].
  simpl. rewrite Ho, Hc. lia.
Qed.

Lemma shallow_group n g : shallow n g -> shallow (S n) ("{"%char :: g ++ ["}"%char]).
Proof.
  intros Hg d t. simpl. rewrite <- app_assoc.
  specialize (Hg (S d) (["}"%char] ++ t)).
  change (depth_from (S d) (["}"%char] ++ t))
    with (Nat.max (S d) (depth_from d t)) in Hg.
  lia.
Qed.

Lemma star_shallow n r g :
  (forall w, matches r w -> shallow n w) ->
  matches (Star r) g -> shallow n g.
Proof.
  intros Hr Hm. remember (Star r) as sr eqn:E.
  induction Hm; try discriminate; injection E as ->.
  - apply shallow_nil.
  - apply shallow_app; auto.
Qed.

Lemma not_brace_shallow n w : matches not_brace w -> shallow n w.
Proof.
  unfold not_brace. intros H. inversion H; subst.
  apply shallow_chr. unfold is_brace.
  now apply Bool.negb_true_iff.
Qed.

Lemma braces_shallow n inner :
  (forall x, matches inner x -> shallow n x) ->
  forall w, matches (braces inner) w -> shallow (S n) w.
Proof.
  intros Hin w H. apply braces_inv in H as (g & -> & Hg).
  apply shallow_group. now apply star_shallow with (r := inner).
Qed.

Lemma alt_shallow n r1 r2 :
  (forall x, matches r1 x -> shallow n x) ->
  (forall x, matches r2 x -> shallow n x) ->
  forall w, matches (Alt r1 r2) w -> shallow n w.
Proof. intros H1 H2 w H. inversion H; subst; auto. Qed.

(** The pattern follows braces three levels deep and no further. *)
Lemma jsonBoundaryRe_depth w :
  matches jsonBoundaryRe w -> depth_from 0 w <= 3.
Proof.
  intros H.
  assert (Hs : shallow 3 w).
  { revert w H. unfold jsonBoundaryRe.
    apply braces_shallow.
    apply alt_shallow; [apply not_brace_shallow|].
    apply braces_shallow.
    apply alt_shallow; [apply not_brace_shallow|].
    apply braces_shallow. apply not_brace_shallow. }
  specialize (Hs 0 []). rewrite app_nil_r in Hs. simpl in Hs. lia.
Qed.

(** A match of the leftmost search lies in the text that was searched. *)
Lemma exec_from_inv r s :
  forall skipped m,
    exec_from r skipped s = Some m ->
    exists pre s1,
      s = pre ++ s1
      /\ match_here r s1 = Some (after m, groups m)
      /\ matched m = firstn (length s1 - length (after m)) s1.
Proof.
  induction s as [|a s IH]; intros skipped m H; cbn [exec_from] in H.
  - destruct (match_here r []) as [[s' c]|] eqn:E; [|discriminate].
    injection H as <-. exists [], []. now repeat split.
  - destruct (match_here r (a :: s)) as [[s' c]|] eqn:E.
    + injection H as <-. exists [], (a :: s). now repeat split.
    + apply IH in H as (pre & s1 & -> & Hm & Hw).
      exists (a :: pre), s1. now repeat split.
Qed.

Lemma string_of_list_ascii_app (a b : list ascii) :
  string_of_list_ascii (a ++ b)
  = string_of_list_ascii a +++ string_of_list_ascii b.
Proof. induction a as [|c a IH]; simpl; [reflexivity|now rewrite IH]. Qed.

End BoundarySound.

(** X16: the text that the third stage locates is a piece of the reply;
    it is a balanced object (its first character is an opening brace, and
    the brace that balances it is its last character), and its braces nest
    at most three deep. *)
Theorem boundaryText_locates_shallow_object content text :
  boundaryText content = Some text ->
  (exists before after, content = before +++ text +++ after)
  /\ BraceScan.first_balanced_object text = Some text
  /\ BraceScan.brace_depth text <= 3.
Proof.
  unfold boundaryText, String_match, Regex.exec. intros H.
  destruct (Regex.exec_from Regex.jsonBoundaryRe [] (list_ascii_of_string content))
    as [m|] eqn:E; [|discriminate].
  cbn [option_map fst] in H. injection H as <-.
  apply BoundarySound.exec_from_inv in E as (pre & s1 & Hs & Hm & Hw).
  unfold Regex.match_here in Hm.
  apply (RegexFacts.rmatch_sound BoundaryFacts.jsonBoundaryRe_plain) in Hm
    as (w & s' & -> & Hmatch & Hk).
  injection Hk as Hafter _. rewrite <- Hafter in Hw.
  rewrite BoundaryFacts.firstn_matched in Hw. rewrite Hw.
  split; [|split].
  - exists (string_of_list_ascii pre), (string_of_list_ascii s').
    rewrite <- !BoundarySound.string_of_list_ascii_app, <- Hs.
    now rewrite string_of_list_ascii_of_string.
  - unfold BraceScan.first_balanced_object.
    rewrite list_ascii_of_string_of_list_ascii.
    destruct (BoundaryFacts.jsonBoundaryRe_sound Hmatch) as (g & -> & Hg).
    cbn [BraceScan.first_balanced Ascii.eqb Bool.eqb andb].
    specialize (Hg 0 ["}"%char]). cbn in Hg.
    unfold BoundaryFacts.prepend in Hg.
    rewrite Hg. reflexivity.
  - unfold BraceScan.brace_depth. rewrite list_ascii_of_string_of_list_ascii.
    now apply BoundarySound.jsonBoundaryRe_depth.
Qed.

Lemma boundaryText_locates_shallow_object_witness :
  boundaryText Samples.depth4_reply = Some Samples.depth3_object
  /\ BraceScan.first_balanced_object Samples.depth3_object
     = Some Samples.depth3_object
  /\ BraceScan.brace_depth Samples.depth3_object <= 3.
Proof.
  assert (H : boundaryText Samples.depth4_reply = Some Samples.depth3_object)
    by reflexivity.
  split; [exact H|].
  exact (proj2 (boundaryText_locates_shallow_object _ H)).
Defined.

(** ** The field types that the repair pass reads from the manifest *)

Definition typed_spec (ty : string) (spec : BlockTypeSpec) : bool :=
  String.eqb (type spec) ty
  && match fieldTypes spec with Some _ => true | None => false end
  && negb (String.eqb (type spec) EmptyString).

Lemma find_last {A} (p : A -> bool) (l : list A) (a : A) :
  find p (l ++ [a])
  = match find p l with
    | Some x => Some x
    | None => if p a then Some a else None
    end.
Proof.
  induction l as [|x l IH]; simpl; [reflexivity|].
  destruct (p x); [reflexivity|exact IH].
Qed.

Lemma find_narrower {A} (p q : A -> bool) (l : list A) (x : A) :
  (forall y, q y = true -> p y = true) ->
  find p l = Some x -> q x = true -> find q l = Some x.
Proof.
  intros Hqp. induction l as [|y l IH]; simpl; [discriminate|].
  destruct (p y) eqn:Ep.
  - intros H Hq. injection H as ->. now rewrite Hq.
  - intros H Hq. destruct (q y) eqn:Eq; [|now apply IH].
    apply Hqp in Eq. congruence.
Qed.

(** The table holds, for a type, the field types of the last manifest
    entry of that type that has field types. *)
Lemma extractSchemaFieldTypes_lookup (specs : list BlockTypeSpec) ty :
  alist_get
    (extractSchemaFieldTypes (Some {| contentBlockTypes := Some specs |})) ty
  = match find (typed_spec ty) (rev specs) with
    | Some spec => fieldTypes spec
    | None => None
    end.
Proof.
  unfold extractSchemaFieldTypes.
  set (step := fun (acc : list (string * list (string * string))) blockType =>
                 match fieldTypes blockType with
                 | Some ft =>
                     if negb (String.eqb (type blockType) EmptyString)
                     then alist_set acc (type blockType) ft
                     else acc
                 | None => acc
                 end).
  assert (H : forall acc,
             alist_get (fold_left step specs acc) ty
             = match find (typed_spec ty) (rev specs) with
               | Some spec => fieldTypes spec
               | None => alist_get acc ty
               end).
  { induction specs as [|a l IH]; intros acc; [reflexivity|].
    cbn [fold_left rev]. rewrite IH, find_last.
    destruct (find (typed_spec ty) (rev l)); [reflexivity|].
    unfold step, typed_spec.
    destruct (fieldTypes a) as [ft|] eqn:Eft;
      [|now rewrite Bool.andb_false_r].
    rewrite Bool.andb_true_r.
    destruct (String.eqb (type a) EmptyString); cbn [negb];
      [now rewrite Bool.andb_false_r|].
    rewrite Bool.andb_true_r.
    destruct (String.eqb (type a) ty) eqn:E.
    - apply String.eqb_eq in E. rewrite <- E, Eft. apply alist_get_set_same.
    - apply String.eqb_neq in E. now apply alist_get_set_other. }
  rewrite H. now destruct (find (typed_spec ty) (rev specs)).
Qed.

(** X17: the repair pass and the validator read the same field types.
    When the manifest entry that the validator uses for a block type has
    field types, [extractSchemaFieldTypes] holds exactly these for the
    type, also when the manifest names the type more than once. *)
Theorem extractSchemaFieldTypes_agrees_with_validator :
  forall (specs : list BlockTypeSpec) ty spec ft,
    ty <> EmptyString ->
    manifest_block specs ty = Some spec ->
    fieldTypes spec = Some ft ->
    alist_get
      (extractSchemaFieldTypes (Some {| contentBlockTypes := Some specs |})) ty
    = Some ft.
Proof.
  intros specs ty spec ft Hty Hfind Hft.
  rewrite extractSchemaFieldTypes_lookup.
  unfold manifest_block in Hfind.
  pose proof (find_some _ _ Hfind) as [_ Htype].
  rewrite (find_narrower (fun spec => String.eqb (type spec) ty)
             (typed_spec ty) (rev specs) (x := spec)); [exact Hft| |exact Hfind|].
  - unfold typed_spec. intros y Hy.
    now apply Bool.andb_true_iff in Hy as [Hy _];
      apply Bool.andb_true_iff in Hy as [Hy _].
  - unfold typed_spec. rewrite Htype, Hft. cbn [andb].
    apply String.eqb_eq in Htype. rewrite Htype.
    now apply Bool.negb_true_iff, String.eqb_neq.
Qed.

Lemma extractSchemaFieldTypes_agrees_with_validator_witness :
  let first := {| type := "hero"; requiredFields := None;
                  fieldTypes := Some [("headline", "array")];
                  fieldEnums := None; description := EmptyString |} in
  let second := {| type := "hero"; requiredFields := None;
                   fieldTypes := Some [("headline", "string")];
                   fieldEnums := None; description := EmptyString |} in
  alist_get
    (extractSchemaFieldTypes
       (Some {| contentBlockTypes := Some [first; second] |})) "hero"
  = Some [("headline", "string")].
Proof.
  intros first second.
  apply (@extractSchemaFieldTypes_agrees_with_validator
           [first; second] "hero" second [("headline", "string")]).
  - discriminate.
  - reflexivity.
  - reflexivity.
Defined.

(** * The NDJSON export *)

(** ** The slug that [buildNDJSON] derives from the page title *)

Module Slug.

(** [[a-z0-9]] *)
Definition is_slug_char (c : ascii) : bool :=
  let n := nat_of_ascii c in
  (((97 <=? n) && (n <=? 122)) || ((48 <=? n) && (n <=? 57)))%nat.

(** [s.replace(/[x]/g, repl)] for a letter [x] that is the two bytes
    [b1 b2] of the text. *)
Fixpoint replace_letter (b1 b2 : ascii) (repl : string) (s : string) : string :=
  match s with
  | EmptyString => EmptyString
  | String c s' =>
      match s' with
      | String c' s'' =>
          if Ascii.eqb c b1 && Ascii.eqb c' b2
          then repl +++ replace_letter b1 b2 repl s''
          else String c (replace_letter b1 b2 repl s')
      | EmptyString => String c EmptyString
      end
  end.

(** [s.replace(/[^a-z0-9]+/g, '-')]: [in_run] tells that the previous
    character was part of a run already replaced. *)
Fixpoint dash_runs (in_run : bool) (s : string) : string :=
  match s with
  | EmptyString => EmptyString
  | String c s' =>
      if is_slug_char c then String c (dash_runs false s')
      else if in_run then dash_runs true s'
           else String "-" (dash_runs true s')
  end.

(** [s.replace(/(^-|-$)/g, '')]: the dash at the start, then the dash at
    the end of what remains. *)
Definition strip_start (s : string) : string :=
  match s with
  | String c s' => if Ascii.eqb c "-" then s' else s
  | EmptyString => EmptyString
  end.

Fixpoint strip_end (s : string) : string :=
  match s with
  | EmptyString => EmptyString
  | String c s' =>
      match s' with
      | EmptyString => if Ascii.eqb c "-" then EmptyString else s
      | String _ _ => String c (strip_end s')
      end
  end.

Definition ae : ascii * ascii := (ascii_of_nat 195, ascii_of_nat 166).
Definition oe : ascii * ascii := (ascii_of_nat 195, ascii_of_nat 184).
Definition aa : ascii * ascii := (ascii_of_nat 195, ascii_of_nat 165).

(** The expression of [buildNDJSON]; [toLowerCase] is the host's
    [String.prototype.toLowerCase]. *)
Definition slug_of_title (toLowerCase : string -> string) (title : string) : string :=
  let s0 := toLowerCase title in
  let s1 := replace_letter (fst ae) (snd ae) "ae" s0 in
  let s2 := replace_letter (fst oe) (snd oe) "oe" s1 in
  let s3 := replace_letter (fst aa) (snd aa) "aa" s2 in
  let s4 := dash_runs false s3 in
  strip_end (strip_start s4).

(** A text of slug characters and single dashes; [prev_dash] tells that
    a dash stands before it. *)
Fixpoint dashed (prev_dash : bool) (s : string) : bool :=
  match s with
  | EmptyString => true
  | String c s' =>
      if Ascii.eqb c "-" then negb prev_dash && dashed true s'
      else is_slug_char c && dashed false s'
  end.

End Slug.

Example slug_letters :
  String (fst Slug.ae) (String (snd Slug.ae) EmptyString) = "æ"
  /\ String (fst Slug.oe) (String (snd Slug.oe) EmptyString) = "ø"
  /\ String (fst Slug.aa) (String (snd Slug.aa) EmptyString) = "å".
Proof. repeat split. Qed.

Module SlugFacts.
Import Slug.

Lemma slug_char_no_dash c : is_slug_char c = true -> Ascii.eqb c "-" = false.
Proof.
  intros H. apply Ascii.eqb_neq. intros ->. discriminate.
Qed.

Lemma dashed_weaken s : dashed true s = true -> dashed false s = true.
Proof.
  destruct s as [|c s]; [reflexivity|]. simpl.
  destruct (Ascii.eqb c "-"); [discriminate|auto].
Qed.

Lemma dash_runs_dashed s : forall in_run, dashed in_run (dash_runs in_run s) = true.
Proof.
  induction s as [|c s IH]; intros in_run; [reflexivity|].
  cbn [dash_runs]. destruct (is_slug_char c) eqn:Ec.
  - cbn [dashed]. rewrite (slug_char_no_dash _ Ec), Ec. apply IH.
  - destruct in_run; [apply IH|].
    cbn [dashed]. rewrite Ascii.eqb_refl. apply IH.
Qed.

Lemma strip_start_dashed s :
  dashed false s = true -> dashed true (strip_start s) = true.
Proof.
  destruct s as [|c s]; [reflexivity|]. cbn [strip_start dashed].
  destruct (Ascii.eqb c "-") eqn:Ec; [now intros H|].
  intros H. cbn [dashed]. now rewrite Ec.
Qed.

Lemma strip_end_dashed s : forall p, dashed p s = true -> dashed p (strip_end s) = true.
Proof.
  induction s as [|c s IH]; intros p H; [reflexivity|].
  cbn [strip_end]. destruct s as [|c' s'].
  - destruct (Ascii.eqb c "-"); [reflexivity|exact H].
  - cbn [dashed] in H |- *. destruct (Ascii.eqb c "-").
    + apply Bool.andb_true_iff in H as [-> H]. now apply IH.
    + apply Bool.andb_true_iff in H as [-> H]. now apply IH.
Qed.

Lemma dashed_no_leading s rest : dashed true s = true -> s <> String "-" rest.
Proof. intros H ->. discriminate. Qed.

Lemma strip_end_no_trailing s :
  forall p, dashed p s = true -> forall init, strip_end s <> init +++ "-".
Proof.
  induction s as [|c s IH]; intros p H init E.
  - destruct init; discriminate.
  - cbn [strip_end] in E. destruct s as [|c' s'].
    + destruct (Ascii.eqb c "-") eqn:Ec.
      * destruct init; discriminate.
      * destruct init as [|i init]; simpl in E.
        -- injection E as ->. discriminate.
        -- injection E as _ E. destruct init; discriminate.
    + cbn [dashed] in H.
      assert (Hs : exists q, dashed q (String c' s') = true).
      { destruct (Ascii.eqb c "-");
          apply Bool.andb_true_iff in H as [_ H]; eauto. }
      destruct Hs as [q Hq].
      destruct init as [|i init]; simpl in E.
      * injection E as -> E.
        cbn [strip_end] in E. destruct s'; [|discriminate].
        cbn [dashed] in H. rewrite Ascii.eqb_refl in H.
        apply Bool.andb_true_iff in H as [_ H].
        destruct (Ascii.eqb c' "-") eqn:Ec'; [discriminate|].
        discriminate.
      * injection E as _ E. exact (IH q Hq init E).
Qed.

Lemma dashed_no_double a :
  forall p b, dashed p (a +++ String "-" (String "-" b)) = false.
Proof.
  induction a as [|c a IH]; intros p b.
  - simpl. now rewrite Bool.andb_false_r.
  - cbn [String.append dashed]. destruct (Ascii.eqb c "-").
    + rewrite IH. apply Bool.andb_false_r.
    + rewrite IH. apply Bool.andb_false_r.
Qed.

Lemma dashed_chars s :
  forall p, dashed p s = true ->
  Forall (fun c => is_slug_char c = true \/ c = "-"%char) (list_ascii_of_string s).
Proof.
  induction s as [|c s IH]; intros p H; [constructor|].
  cbn [dashed] in H. cbn [list_ascii_of_string].
  destruct (Ascii.eqb c "-") eqn:Ec;
    apply Bool.andb_true_iff in H as [Hc H].
  - constructor; [right; now apply Ascii.eqb_eq|eauto].
  - constructor; [now left|eauto].
Qed.

End SlugFacts.

(** X18: whatever the title, the slug of the exported page consists of
    the characters a-z, 0-9 and the dash; it neither begins nor ends with
    a dash and holds no two dashes in a row. *)
Theorem slug_of_title_shape (toLowerCase : string -> string) (title : string) :
  let slug := Slug.slug_of_title toLowerCase title in
  Forall (fun c => Slug.is_slug_char c = true \/ c = "-"%char)
    (list_ascii_of_string slug)
  /\ (forall rest, slug <> String "-" rest)
  /\ (forall init, slug <> init +++ "-")
  /\ (forall a b, slug <> a +++ "--" +++ b).
Proof.
  cbn zeta. unfold Slug.slug_of_title.
  set (s3 := Slug.replace_letter _ _ _ _).
  pose proof (SlugFacts.dash_runs_dashed s3 false) as H4.
  apply SlugFacts.strip_start_dashed in H4.
  pose proof (SlugFacts.strip_end_dashed _ _ H4) as H5.
  repeat split.
  - exact (SlugFacts.dashed_chars _ _ H5).
  - intros rest. now apply SlugFacts.dashed_no_leading.
  - now apply SlugFacts.strip_end_no_trailing with (p := true).
  - intros a b E. rewrite E in H5.
    change (a +++ "--" +++ b) with (a +++ String "-" (String "-" b)) in H5.
    now rewrite SlugFacts.dashed_no_double in H5.
Qed.

Example slug_of_danish_title :
  Slug.slug_of_title (fun s => s) "  elpriser i århus: sådan sparer du (2024)!"
  = "elpriser-i-aarhus-saadan-sparer-du-2024".
Proof. reflexivity. Qed.

(** ** createSanityDocument *)

(** The reads of the host that only the export makes. *)
Record ExportHost : Type := {
  (** [uuidv4()] at the given read of the host *)
  uuidv4 : nat -> string;
  (** [new Date().toISOString()] at the given read of the host *)
  Date_toISOString : nat -> string
}.

(** The [metadata] argument of [createSanityDocument]. *)
Record PageMetadata : Type := {
  meta_title : string;
  meta_slug : string;
  meta_topic : string;
  meta_keywords : list string;
  meta_contentGoal : string;
  meta_language : option string
}.

Record NDJSONExportOptions : Type := {
  includeMetadata : option bool;
  generateIds : option bool;
  docType : option string;
  publishedAt : option string
}.

(** [s.replace(/-/g, '')] *)
Fixpoint remove_dashes (s : string) : string :=
  match s with
  | EmptyString => EmptyString
  | String c s' =>
      if Ascii.eqb c "-" then remove_dashes s' else String c (remove_dashes s')
  end.

Definition LF : ascii := ascii_of_nat 10.

(** [text.split('\n\n')]: the first piece and the pieces after it. *)
Fixpoint split_blank (s : string) : string * list string :=
  match s with
  | EmptyString => (EmptyString, [])
  | String c s' =>
      match s' with
      | String c' s'' =>
          if Ascii.eqb c LF && Ascii.eqb c' LF
          then let (p, ps) := split_blank s'' in (EmptyString, p :: ps)
          else let (p, ps) := split_blank s' in (String c p, ps)
      | EmptyString => (String c EmptyString, [])
      end
  end.

Definition split_paragraphs (s : string) : list string :=
  let (p, ps) := split_blank s in p :: ps.

(** [validateContentBlock(block)] *)
Definition validateContentBlock (block : object) : bool :=
  Js.truthy_opt (alist_get block "_type")
  && Js.truthy_opt (alist_get block "_key").

Section SanityExport.
Variable host : Host.
Variable xhost : ExportHost.

Definition uuid : M string :=
  fun st => inr (uuidv4 xhost st, S st).

Definition isoNow : M string :=
  fun st => inr (Date_toISOString xhost st, S st).

(** [generateSanityId()] *)
Definition generateSanityId : M string :=
  (u <- uuid ;; ret (remove_dashes u))%monad.

(** [generateBlockKey(prefix)]; [substr(2, 9)] is [slice(2, 11)]. *)
Definition generateBlockKey (prefix : string) : M string :=
  (t <- now host ;;
   r <- random36 host 2 11 ;;
   ret (prefix +++ "-" +++ t +++ "-" +++ r))%monad.

(** [normalizeContentBlock(block, index)]: the block after the in-place
    update. *)
Definition normalizeContentBlock (block : object) (index : nat) : M object :=
  let b1 := if negb (Js.truthy_opt (alist_get block "_type"))
            then alist_set block "_type" (jstr "textBlock")
            else block in
  if negb (Js.truthy_opt (alist_get b1 "_key"))
  then (key <- generateBlockKey ("block-" +++ Str.of_nat index) ;;
        ret (alist_set b1 "_key" (jstr key)))%monad
  else ret b1.

(** [convertToSanityBlocks(text)] *)
Definition convertToSanityBlocks (text : option json) : M (list json) :=
  match text with
  | Some (JString s) =>
      if String.eqb s EmptyString then ret []
      else
        let paragraphs :=
          filter (fun p => negb (String.eqb (Str.trim p) EmptyString))
            (split_paragraphs s) in
        mapM_from
          (fun index paragraph =>
             (blockKey <- generateBlockKey ("paragraph-" +++ Str.of_nat index) ;;
              spanKey <- generateBlockKey ("span-" +++ Str.of_nat index) ;;
              ret (JObject
                     [ ("_type", jstr "block");
                       ("_key", jstr blockKey);
                       ("style", jstr "normal");
                       ("markDefs", JArray []);
                       ("children",
                        JArray
                          [ JObject
                              [ ("_type", jstr "span");
                                ("_key", jstr spanKey);
                                ("text", jstr (Str.trim paragraph));
                                ("marks", JArray []) ] ]) ]))%monad)
          0 paragraphs
  | _ => ret []
  end.

(** The body of [contentBlocks.map] in [createSanityDocument]. *)
Definition normalize_block (index : nat) (block : object) : M object :=
  (normalized <- normalizeContentBlock block index ;;
   match alist_get normalized "content" with
   | Some (JString s) =>
       if negb (String.eqb s EmptyString)
       then (blocks <- convertToSanityBlocks (Some (JString s)) ;;
             ret (alist_set normalized "content" (JArray blocks)))
       else ret normalized
   | _ => ret normalized
   end)%monad.

(** [createSanityDocument(contentBlocks, metadata, options)] for blocks
    that are objects, as the parameter is typed; which properties a block
    has is open. *)
Definition createSanityDocument (contentBlocks : list object)
    (metadata : PageMetadata) (options : NDJSONExportOptions) : M object :=
  (now <- isoNow ;;
   docId <- (match generateIds options with
             | Some false => ret "generated-page"
             | _ => generateSanityId
             end) ;;
   normalizedBlocks <- mapM_from normalize_block 0 contentBlocks ;;
   let validBlocks := filter validateContentBlock normalizedBlocks in
   ret ([ ("_id", jstr docId);
          ("_type", jstr (match docType options with
                          | Some t => if String.eqb t EmptyString then "page" else t
                          | None => "page"
                          end));
          ("_createdAt", jstr now);
          ("_updatedAt", jstr now);
          ("title", jstr (meta_title metadata));
          ("slug", JObject [ ("_type", jstr "slug");
                             ("current", jstr (meta_slug metadata)) ]);
          ("seoTitle", jstr (meta_title metadata));
          ("seoDescription",
           jstr (meta_topic metadata +++ " - "
                 +++ Str.join ", " (firstn 3 (meta_keywords metadata))));
          ("keywords", JArray (map jstr (meta_keywords metadata)));
          ("contentBlocks", JArray (map JObject validBlocks));
          ("language", jstr (match meta_language metadata with
                             | Some l => if String.eqb l EmptyString then "da" else l
                             | None => "da"
                             end));
          ("contentGoal", jstr (meta_contentGoal metadata));
          ("generatedAt", jstr now) ]
        ++ match publishedAt options with
           | Some p =>
               if String.eqb p EmptyString then []
               else [ ("publishedAt", jstr p); ("_status", jstr "published") ]
           | None => []
           end))%monad.

End SanityExport.

(** A loop whose body always returns, returns: one result per entry. *)
Lemma mapM_from_returns {A B} (f : nat -> A -> M B) (P : B -> Prop) :
  (forall i a st, exists b st', f i a st = inr (b, st') /\ P b) ->
  forall l i st,
    exists bs st',
      mapM_from f i l st = inr (bs, st')
      /\ length bs = length l /\ Forall P bs.
Proof.
  intros Hf. induction l as [|a l IH]; intros i st; cbn [mapM_from].
  - exists [], st. repeat split. constructor.
  - unfold bind. destruct (Hf i a st) as (b & st1 & -> & Hb).
    destruct (IH (S i) st1) as (bs & st2 & -> & Hlen & Hall).
    exists (b :: bs), st2. repeat split; [cbn; now rewrite Hlen|now constructor].
Qed.

Lemma generateBlockKey_returns host prefix st :
  exists key st',
    generateBlockKey host prefix st = inr (key, st')
    /\ (prefix <> EmptyString -> key <> EmptyString).
Proof.
  unfold generateBlockKey, bind, now, random36, ret. do 2 eexists.
  split; [reflexivity|]. intros H. now apply append_nonempty.
Qed.

Lemma normalizeContentBlock_valid host block index st :
  exists b st',
    normalizeContentBlock host block index st = inr (b, st')
    /\ validateContentBlock b = true
    /\ (validateContentBlock block = true -> b = block).
Proof.
  unfold normalizeContentBlock.
  set (b1 := if negb (Js.truthy_opt (alist_get block "_type"))
             then alist_set block "_type" (jstr "textBlock") else block).
  assert (Ht : Js.truthy_opt (alist_get b1 "_type") = true).
  { unfold b1. destruct (Js.truthy_opt (alist_get block "_type")) eqn:E;
      cbn [negb]; [exact E|]. now rewrite alist_get_set_same. }
  assert (Hsame : Js.truthy_opt (alist_get block "_type") = true -> b1 = block).
  { unfold b1. now intros ->. }
  destruct (Js.truthy_opt (alist_get b1 "_key")) eqn:Ek; cbn [negb].
  - exists b1, st. unfold ret, validateContentBlock. rewrite Ht, Ek.
    repeat split. intros H. apply Hsame.
    now apply Bool.andb_true_iff in H as [H _].
  - unfold bind.
    destruct (generateBlockKey_returns host ("block-" +++ Str.of_nat index) st)
      as (key & st1 & -> & Hkey).
    do 2 eexists. unfold ret. split; [reflexivity|]. split.
    + unfold validateContentBlock.
      rewrite alist_get_set_other by discriminate.
      rewrite Ht, alist_get_set_same. cbn.
      apply Bool.negb_true_iff, String.eqb_neq, Hkey. discriminate.
    + intros H. apply Bool.andb_true_iff in H as [Hty Hk].
      rewrite (Hsame Hty) in Ek. congruence.
Qed.

Lemma convertToSanityBlocks_returns host text st :
  exists blocks st', convertToSanityBlocks host text st = inr (blocks, st').
Proof.
  unfold convertToSanityBlocks.
  destruct text as [[| | |s| |]|]; try (now do 2 eexists).
  destruct (String.eqb s EmptyString); [now do 2 eexists|].
  match goal with
  | |- context [mapM_from ?f 0 ?ps st] =>
      assert (Hf : forall i a st0,
                 exists b st', f i a st0 = inr (b, st') /\ True);
      [|destruct (mapM_from_returns f (fun _ => True) Hf ps 0 st)
          as (bs & st' & -> & _)]
  end.
  - intros i a st0. unfold bind.
    destruct (generateBlockKey_returns host ("paragraph-" +++ Str.of_nat i) st0)
      as (k1 & st1 & -> & _).
    destruct (generateBlockKey_returns host ("span-" +++ Str.of_nat i) st1)
      as (k2 & st2 & -> & _).
    now do 2 eexists.
  - now do 2 eexists.
Qed.

(** A block that the export takes as it is: [_type] and [_key] are
    there, and the content is no non-empty string. *)
Definition export_ready (block : object) : bool :=
  validateContentBlock block
  && match alist_get block "content" with
     | Some (JString s) => String.eqb s EmptyString
     | _ => true
     end.

Lemma normalize_block_valid host index block st :
  exists b st',
    normalize_block host index block st = inr (b, st')
    /\ validateContentBlock b = true
    /\ (export_ready block = true -> b = block).
Proof.
  unfold normalize_block, bind.
  destruct (normalizeContentBlock_valid host block index st)
    as (b & st1 & -> & Hvalid & Hsame).
  assert (Hready : export_ready block = true -> b = block).
  { intros H. apply Hsame. now apply Bool.andb_true_iff in H as [H _]. }
  destruct (alist_get b "content") as [[| | |s| |]|] eqn:Ec;
    try (exists b, st1; now repeat split).
  destruct (String.eqb s EmptyString) eqn:Es; cbn [negb].
  - exists b, st1. now repeat split.
  - destruct (convertToSanityBlocks_returns host (Some (JString s)) st1)
      as (blocks & st2 & ->).
    do 2 eexists. unfold ret. split; [reflexivity|]. split.
    + unfold validateContentBlock in *.
      now rewrite !alist_get_set_other by discriminate.
    + intros H. pose proof (Hready H) as ->.
      unfold export_ready in H. rewrite Ec, Es in H.
      now rewrite Bool.andb_false_r in H.
Qed.

Lemma createSanityDocument_blocks host xhost blocks metadata options st :
  exists doc st' normalized,
    createSanityDocument host xhost blocks metadata options st = inr (doc, st')
    /\ alist_get doc "contentBlocks" = Some (JArray (map JObject normalized))
    /\ length normalized = length blocks
    /\ Forall (fun b => validateContentBlock b = true) normalized
    /\ (Forall (fun b => export_ready b = true) blocks -> normalized = blocks).
Proof.
  unfold createSanityDocument, bind, isoNow.
  assert (Hid : exists docId st1,
             match generateIds options with
             | Some false => ret "generated-page"
             | _ => generateSanityId xhost
             end (S st) = inr (docId, st1)).
  { destruct (generateIds options) as [[|]|]; now do 2 eexists. }
  destruct Hid as (docId & st1 & ->).
  assert (Hloop : forall l i st0,
             exists bs st',
               mapM_from (normalize_block host) i l st0 = inr (bs, st')
               /\ length bs = length l
               /\ Forall (fun b => validateContentBlock b = true) bs
               /\ (Forall (fun b => export_ready b = true) l -> bs = l)).
  { induction l as [|a l IH]; intros i st0; cbn [mapM_from].
    - exists [], st0. repeat split. constructor.
    - unfold bind.
      destruct (normalize_block_valid host i a st0) as (b & st2 & -> & Hb & Hsame).
      destruct (IH (S i) st2) as (bs & st3 & -> & Hlen & Hall & Hsames).
      exists (b :: bs), st3. repeat split.
      + cbn. now rewrite Hlen.
      + now constructor.
      + intros H. inversion H; subst. f_equal; auto. }
  destruct (Hloop blocks 0 st1) as (bs & st2 & -> & Hlen & Hall & Hsame).
  do 2 eexists. exists bs. unfold ret. split; [reflexivity|].
  rewrite (filter_all _ Hall). repeat split; try assumption.
Qed.

(** X19: [createSanityDocument] returns a document for every list of
    blocks, and the document holds one block per block given: after the
    normalisation every block has a truthy [_type] and [_key], so that the
    filter of the invalid blocks removes none. *)
Theorem createSanityDocument_keeps_every_block :
  forall host xhost (blocks : list object) metadata options st,
    exists doc st' exported,
      createSanityDocument host xhost blocks metadata options st = inr (doc, st')
      /\ alist_get doc "contentBlocks" = Some (JArray (map JObject exported))
      /\ length exported = length blocks
      /\ Forall (fun b => Js.truthy_opt (alist_get b "_type") = true
                          /\ Js.truthy_opt (alist_get b "_key") = true) exported.
Proof.
  intros host xhost blocks metadata options st.
  destruct (createSanityDocument_blocks host xhost blocks metadata options st)
    as (doc & st' & bs & Hrun & Hget & Hlen & Hall & _).
  exists doc, st', bs. repeat split; try assumption.
  revert Hall. apply Forall_impl. intros b Hb.
  now apply Bool.andb_true_iff in Hb.
Qed.

(** X20: blocks that are ready for the export pass through unchanged.
    When every block has a truthy [_type] and [_key] and no block has a
    non-empty string as its content, the blocks of the document are the
    blocks given, in their order. *)
Theorem createSanityDocument_exports_ready_blocks :
  forall host xhost (blocks : list object) metadata options st,
    Forall (fun b => export_ready b = true) blocks ->
    exists doc st',
      createSanityDocument host xhost blocks metadata options st = inr (doc, st')
      /\ alist_get doc "contentBlocks" = Some (JArray (map JObject blocks)).
Proof.
  intros host xhost blocks metadata options st Hready.
  destruct (createSanityDocument_blocks host xhost blocks metadata options st)
    as (doc & st' & bs & Hrun & Hget & _ & _ & Hsame).
  exists doc, st'. split; [exact Hrun|]. now rewrite <- (Hsame Hready).
Qed.

Lemma createSanityDocument_exports_ready_blocks_witness :
  let xhost := {| uuidv4 := fun _ => "63c05ca2-cd1e-4f00-b544-6a2077d4031a";
                  Date_toISOString := fun _ => "2025-01-01T00:00:00.000Z" |} in
  let metadata := {| meta_title := "Elpriser"; meta_slug := "elpriser";
                     meta_topic := "elpriser"; meta_keywords := ["el"];
                     meta_contentGoal := "inform"; meta_language := None |} in
  let options := {| includeMetadata := None; generateIds := None;
                    docType := None; publishedAt := None |} in
  exists doc st',
    createSanityDocument Samples.host xhost
      [spread Samples.hero; spread Samples.pageSection] metadata options 0
    = inr (doc, st')
    /\ alist_get doc "contentBlocks"
       = Some (JArray [Samples.hero; Samples.pageSection])
    /\ alist_get doc "_id" = Some (JString "63c05ca2cd1e4f00b5446a2077d4031a").
Proof.
  intros xhost metadata options.
  destruct (@createSanityDocument_exports_ready_blocks Samples.host xhost
              [spread Samples.hero; spread Samples.pageSection]
              metadata options 0)
    as (doc & st' & Hrun & Hget).
  - repeat constructor.
  - exists doc, st'. split; [exact Hrun|]. split; [exact Hget|].
    vm_compute in Hrun. injection Hrun as <- _. reflexivity.
Defined.

(** * getProviderSelection *)

(** [getProviderSelection(count)] for a count that is a natural number.
    [sort_random] is [extras.sort(() => 0.5 - Math.random())]: which
    order the engine's sort leaves under a comparator that answers at
    random is not fixed. *)
Definition getProviderSelection (sort_random : list string -> list string)
    (count : nat) : list string :=
  let first := preferred_name in
  let extras := filter (fun id => negb (String.eqb id first)) PROVIDER_WHITELIST in
  let padded := extras ++ repeat first (count - 1 - length extras) in
  let sorted := sort_random padded in
  first :: match count with
           | 0 => firstn (length sorted - 1) sorted
           | S k => firstn k sorted
           end.

Lemma firstn_In {A} (l : list A) n x : In x (firstn n l) -> In x l.
Proof.
  intros H. rewrite <- (firstn_skipn n l). apply in_or_app. now left.
Qed.

Lemma firstn_NoDup {A} (l : list A) n : NoDup l -> NoDup (firstn n l).
Proof.
  intros H. rewrite <- (firstn_skipn n l) in H.
  now apply NoDup_app_remove_r in H.
Qed.

(** The ids other than the preferred one. *)
Definition extras : list string :=
  filter (fun id => negb (String.eqb id preferred_name)) PROVIDER_WHITELIST.

Section ProviderSelection.
Variable sort_random : list string -> list string.
Hypothesis sort_random_permutes : forall l, Permutation l (sort_random l).

Lemma selection_unfold count :
  getProviderSelection sort_random count
  = preferred_name
    :: match count with
       | 0 => firstn (length extras - 1) (sort_random extras)
       | S k =>
           firstn k (sort_random (extras ++ repeat preferred_name (k - length extras)))
       end.
Proof.
  unfold getProviderSelection. fold extras. destruct count as [|k].
  - cbn [Nat.sub repeat]. rewrite app_nil_r.
    now rewrite <- (Permutation_length (sort_random_permutes extras)).
  - now rewrite Nat.sub_succ, Nat.sub_0_r.
Qed.

Lemma selection_valid count :
  Forall (fun id => In id PROVIDER_WHITELIST)
    (getProviderSelection sort_random count).
Proof.
  rewrite selection_unfold. constructor; [now left|].
  assert (Hpad : forall n x,
             In x (sort_random (extras ++ repeat preferred_name n)) ->
             In x PROVIDER_WHITELIST).
  { intros n x Hx.
    apply (Permutation_in _ (Permutation_sym (sort_random_permutes _))) in Hx.
    apply in_app_or in Hx as [Hx|Hx].
    - unfold extras in Hx. now apply filter_In in Hx.
    - apply repeat_spec in Hx. subst x. now left. }
  apply Forall_forall. intros x Hx. destruct count as [|k].
  - apply firstn_In in Hx. apply (Hpad 0). now rewrite app_nil_r.
  - apply firstn_In in Hx. now apply Hpad in Hx.
Qed.

Lemma selection_length count :
  1 <= count -> length (getProviderSelection sort_random count) = count.
Proof.
  intros Hc. rewrite selection_unfold. destruct count as [|k]; [lia|].
  cbn [length]. f_equal. apply firstn_length_le.
  rewrite <- (Permutation_length (sort_random_permutes _)).
  rewrite length_app, repeat_length. lia.
Qed.

Lemma selection_unique count :
  count <= 4 -> NoDup (getProviderSelection sort_random count).
Proof.
  intros Hc. rewrite selection_unfold.
  assert (Hex : NoDup extras /\ ~ In preferred_name extras).
  { split.
    - unfold extras. cbn. repeat constructor; cbn; intuition discriminate.
    - unfold extras. cbn. intuition discriminate. }
  destruct Hex as [Hnd Hnot].
  assert (Hsorted : forall n,
             NoDup (preferred_name :: firstn n (sort_random extras))).
  { intros n. constructor.
    - intros Hin. apply firstn_In in Hin.
      apply (Permutation_in _ (Permutation_sym (sort_random_permutes _))) in Hin.
      contradiction.
    - apply firstn_NoDup.
      exact (Permutation_NoDup (sort_random_permutes _) Hnd). }
  destruct count as [|k]; [apply Hsorted|].
  replace (k - length extras) with 0
    by (change (length extras) with 3; lia).
  cbn [repeat]. rewrite app_nil_r. apply Hsorted.
Qed.

Lemma selection_repeats count :
  5 <= count ->
  In preferred_name (tl (getProviderSelection sort_random count)).
Proof.
  intros Hc. rewrite selection_unfold. destruct count as [|k]; [lia|].
  cbn [tl].
  set (padded := extras ++ repeat preferred_name (k - length extras)).
  assert (Hlen : length (sort_random padded) = k).
  { rewrite <- (Permutation_length (sort_random_permutes _)).
    unfold padded. rewrite length_app, repeat_length.
    change (length extras) with 3. lia. }
  rewrite <- Hlen at 1. rewrite firstn_all.
  apply (Permutation_in _ (sort_random_permutes _)).
  unfold padded. apply in_or_app. right.
  change (length extras) with 3.
  destruct (k - 3) as [|n] eqn:E; [lia|]. now left.
Qed.

End ProviderSelection.

(** X21: however the sort orders the extras, a selection begins with the
    preferred provider and holds only whitelisted ids; for a count of at
    least one it has exactly [count] entries, and up to a count of four no
    id occurs twice. *)
Theorem getProviderSelection_shape :
  forall (sort_random : list string -> list string) (count : nat),
    (forall l, Permutation l (sort_random l)) ->
    let selection := getProviderSelection sort_random count in
    nth_error selection 0 = nth_error PROVIDER_WHITELIST 0
    /\ Forall (fun id => isValidProviderId (Some (JString id)) = true) selection
    /\ (1 <= count -> length selection = count)
    /\ (count <= 4 -> NoDup selection).
Proof.
  intros sort_random count Hperm selection. unfold selection.
  split; [reflexivity|]. split; [|split].
  - pose proof (@selection_valid sort_random Hperm count) as H.
    revert H. apply Forall_impl. intros id Hin.
    unfold isValidProviderId, Js.includes.
    cbn in Hin. cbn.
    destruct Hin as [<-|[<-|[<-|[<-|[]]]]]; reflexivity.
  - now apply (@selection_length sort_random Hperm).
  - now apply (@selection_unique sort_random Hperm).
Qed.

Lemma getProviderSelection_shape_witness :
  let selection := getProviderSelection (@rev string) 3 in
  nth_error selection 0 = nth_error PROVIDER_WHITELIST 0
  /\ Forall (fun id => isValidProviderId (Some (JString id)) = true) selection
  /\ (1 <= 3 -> length selection = 3)
  /\ (3 <= 4 -> NoDup selection).
Proof.
  apply (@getProviderSelection_shape (@rev string) 3).
  intros l. apply Permutation_rev.
Defined.

(** X22: beyond the four providers of the whitelist the selection is
    padded with the preferred provider: from a count of five on, the
    preferred id stands among the extras as well, so the entries after the
    first are not all different from it. *)
Theorem getProviderSelection_pads_with_preferred :
  forall (sort_random : list string -> list string) (count : nat),
    (forall l, Permutation l (sort_random l)) ->
    5 <= count ->
    let selection := getProviderSelection sort_random count in
    length selection = count
    /\ In preferred_name (tl selection)
    /\ ~ NoDup selection.
Proof.
  intros sort_random count Hperm Hc selection. unfold selection.
  pose proof (@selection_repeats sort_random Hperm count Hc) as Hin.
  split; [apply (@selection_length sort_random Hperm); lia|].
  split; [exact Hin|].
  rewrite (@selection_unfold sort_random Hperm) in Hin |- *. cbn [tl] in Hin.
  intros Hnd. inversion Hnd; subst. contradiction.
Qed.

Lemma getProviderSelection_pads_with_preferred_witness :
  let selection := getProviderSelection (@rev string) 5 in
  length selection = 5
  /\ In preferred_name (tl selection)
  /\ ~ NoDup selection.
Proof.
  apply (@getProviderSelection_pads_with_preferred (@rev string) 5).
  - intros l. apply Permutation_rev.
  - lia.
Defined.

(** * The second copy of the repair pass *)

Lemma mapM_from_post {A B} (f : nat -> A -> M B) (P : B -> Prop) :
  (forall i a st b st', f i a st = inr (b, st') -> P b) ->
  forall l i st out st',
    mapM_from f i l st = inr (out, st') ->
    length out = length l /\ Forall P out.
Proof.
  intros Hf. induction l as [|a l IH]; intros i st out st' H; cbn [mapM_from] in H.
  - unfold ret in H. injection H as <- _. split; [reflexivity|constructor].
  - unfold bind in H. destruct (f i a st) as [e|[b st1]] eqn:E; [discriminate|].
    destruct (mapM_from f (S i) l st1) as [e|[bs st2]] eqn:Es; [discriminate|].
    unfold ret in H. injection H as <- _.
    destruct (IH _ _ _ _ Es) as [Hlen Hall].
    split; [cbn; now rewrite Hlen|].
    constructor; [exact (Hf _ _ _ _ _ E)|exact Hall].
Qed.

Lemma legacy_fix_block_object host idx blk st b st' :
  Legacy.fix_block host idx blk st = inr (b, st') -> exists o, b = JObject o.
Proof.
  unfold Legacy.fix_block, bind. intros H.
  repeat match type of H with
         | match ?m ?s with _ => _ end = _ =>
             destruct (m s) as [?|[? ?]]; [discriminate|]
         end.
  unfold ret in H. injection H as <- _. eexists. reflexivity.
Qed.

Lemma legacy_sanitize_object (o : object) :
  exists o', fst (Legacy.sanitizeReferences (JObject o)) = JObject o'.
Proof.
  cbn [Legacy.sanitizeReferences]. destruct (is_reference o).
  - destruct (Legacy.sanitize_reference o). eexists. reflexivity.
  - eexists. reflexivity.
Qed.

(** X23: the second copy of the repair pass drops no block.  When it
    returns, it returns one object per entry of the reply, also for an
    entry without a [_type], which the first copy drops. *)
Theorem legacy_applyAutoFixes_keeps_every_block host blocks s st out st' :
  Legacy.applyAutoFixes host blocks s st = inr (out, st') ->
  length out = length blocks
  /\ Forall (fun b => exists o, b = JObject o) out.
Proof.
  unfold Legacy.applyAutoFixes, bind. intros H.
  destruct (mapM_from (Legacy.fix_block host) 0 blocks st)
    as [e|[fixedBlocks st1]] eqn:E; [discriminate|].
  unfold ret in H. injection H as <- _.
  destruct (mapM_from_post (Legacy.fix_block host)
              (fun b => exists o, b = JObject o)
              (@legacy_fix_block_object host) _ _ _ E) as [Hlen Hall].
  split; [now rewrite length_map|].
  apply Forall_map. revert Hall. apply Forall_impl.
  intros b [o ->]. apply legacy_sanitize_object.
Qed.

Lemma legacy_applyAutoFixes_keeps_every_block_witness :
  exists out st',
    Legacy.applyAutoFixes Samples.host
      [JObject [("headline", JString "X")]; Samples.hero]
      (Some Samples.manifest) 0 = inr (out, st')
    /\ length out = 2
    /\ Forall (fun b => exists o, b = JObject o) out.
Proof.
  eexists _, _. split; [vm_compute; reflexivity|].
  apply (@legacy_applyAutoFixes_keeps_every_block Samples.host
           [JObject [("headline", JString "X")]; Samples.hero]
           (Some Samples.manifest) 0 _ 2).
  vm_compute. reflexivity.
Defined.

(** * The fail-safe block and the manifest *)







(** * The cleaning of nested items *)

(** An entry that the cleaning keeps. *)
Definition nested_object (item : json) : bool :=
  Js.truthy item && String.eqb (Js.typeof item) "object".

(** The copies that [clean_nested] builds. *)
Definition cleaned_items (items : list json) : list json :=
  flat_map
    (fun item =>
       if negb (Js.truthy item) || negb (String.eqb (Js.typeof item) "object")
       then []
       else [JObject (fst (removeProblematicFields (spread item) ["icon"]))])
    items.

Lemma cleaned_items_length (items : list json) :
  length (cleaned_items items) = length (filter nested_object items).
Proof.
  unfold cleaned_items, nested_object.
  induction items as [|item items IH]; [reflexivity|].
  cbn [flat_map filter].
  destruct (Js.truthy item), (String.eqb (Js.typeof item) "object");
    cbn [negb orb andb app length]; now rewrite ?IH.
Qed.

Lemma cleaned_items_no_icon (items : list json) :
  Forall (fun c => exists o, c = JObject o /\ alist_get o "icon" = None)
    (cleaned_items items).
Proof.
  unfold cleaned_items. induction items as [|item items IH]; [constructor|].
  cbn [flat_map]. destruct (negb _ || negb _); [exact IH|].
  cbn [app]. constructor; [|exact IH].
  eexists. split; [reflexivity|].
  unfold removeProblematicFields. cbn [fold_left fst snd].
  destruct (alist_has (spread item) "icon") eqn:E; cbn [fst].
  - apply alist_get_del_same.
  - unfold alist_has in E. now destruct (alist_get (spread item) "icon").
Qed.

(** X25: the cleaning of [valueProposition.items] and of
    [featureList.features] removes the [icon] of an entry only in a copy,
    and the copies replace the array only when an entry was dropped.
    When every entry is an object, the block stays as it is, icons
    included. *)
Theorem clean_nested_keeps_icons (b : object) field items :
  alist_get b field = Some (JArray items) ->
  Forall (fun item => nested_object item = true) items ->
  clean_nested b field = b.
Proof.
  intros Hget Hall. unfold clean_nested. rewrite Hget.
  fold (cleaned_items items). rewrite cleaned_items_length.
  rewrite (filter_all _ Hall). now rewrite Nat.eqb_refl.
Qed.

Lemma clean_nested_keeps_icons_witness :
  let feature := JObject [ ("_type", jstr "featureItem"); ("title", jstr "T");
                           ("icon", jstr "bolt") ] in
  let block := [ ("_type", jstr "featureList"); ("features", JArray [feature]) ] in
  clean_nested block "features" = block
  /\ Js.prop feature "icon" = Some (JString "bolt").
Proof.
  intros feature block. split; [|reflexivity].
  apply (@clean_nested_keeps_icons block "features" [feature]).
  - reflexivity.
  - repeat constructor.
Defined.

(** X26: when an entry of the array is no object, the array is replaced:
    the entries that are no objects are gone, and every entry that is left
    is an object without an [icon]. *)
Theorem clean_nested_drops_and_cleans (b : object) field items :
  alist_get b field = Some (JArray items) ->
  Exists (fun item => nested_object item = false) items ->
  exists cleaned,
    alist_get (clean_nested b field) field = Some (JArray cleaned)
    /\ length cleaned = length (filter nested_object items)
    /\ length cleaned < length items
    /\ Forall (fun c => exists o, c = JObject o /\ alist_get o "icon" = None)
         cleaned.
Proof.
  intros Hget Hex. unfold clean_nested. rewrite Hget.
  fold (cleaned_items items).
  assert (Hlt : length (filter nested_object items) < length items).
  { clear Hget. induction Hex as [item items Hitem|item items _ IH];
      cbn [filter].
    - rewrite Hitem. pose proof (filter_length_le nested_object items).
      cbn [length]. lia.
    - destruct (nested_object item); cbn [length]; lia. }
  pose proof (cleaned_items_length items) as Hlen.
  assert (Hne : Nat.eqb (length (cleaned_items items)) (length items) = false).
  { apply Nat.eqb_neq. lia. }
  rewrite Hne. cbn [negb]. exists (cleaned_items items).
  rewrite alist_get_set_same. repeat split; try lia.
  apply cleaned_items_no_icon.
Qed.

Lemma clean_nested_drops_and_cleans_witness :
  let feature := JObject [ ("title", jstr "T"); ("icon", jstr "bolt") ] in
  let block := [ ("_type", jstr "featureList");
                 ("features", JArray [feature; JString "stray"]) ] in
  alist_get (clean_nested block "features") "features"
  = Some (JArray [JObject [("title", jstr "T")]]).
Proof.
  intros feature block.
  destruct (@clean_nested_drops_and_cleans block "features"
              [feature; JString "stray"] eq_refl) as (cleaned & Hget & _).
  - apply Exists_cons_tl. apply Exists_cons_hd. reflexivity.
  - rewrite Hget. vm_compute in Hget. now injection Hget as <-.
Defined.
